(** * Tessellate: the triangle mesh model and its derivation geometry

    The repository carries two generations of the same mesh model:

    - the Three.js generation, [js/Triangle.js] and [js/TriangleManager.js],
      embedded below as module [Three];
    - the WebGL generation, [js/app.js], embedded below as module [WebGL].

    Both are written once over an interface of JavaScript number arithmetic
    ([JSNum]) which is instantiated twice: by the IEEE 754 binary64
    primitives ([binary64], what the code computes) and by the real numbers
    ([ideal], the arithmetic the geometry is designed in).  Rendering objects
    (THREE meshes and materials, the typed arrays uploaded to the GPU,
    colours, console output) are write-only for the mesh logic and are left
    out of the records. *)

From Stdlib Require Import ZArith Reals Lra Lia Psatz.
From Stdlib Require PrimFloat.
From stdpp Require Import base option list gmap.

(** ** JavaScript numbers *)

Class JSNum (num : Type) : Type := {
  nadd : num -> num -> num;
  nsub : num -> num -> num;
  nmul : num -> num -> num;
  ndiv : num -> num -> num;
  nopp : num -> num;
  nsqrt : num -> num;            (* Math.sqrt *)
  nabs : num -> num;             (* Math.abs *)
  nlt : num -> num -> bool;      (* a < b, false on NaN *)
  nfalsy : num -> bool;          (* !a : a is 0, -0 or NaN *)
  num_of : Z -> num              (* an integer literal *)
}.

Declare Scope js_scope.
Delimit Scope js_scope with js.
Notation "a + b" := (nadd a b) : js_scope.
Notation "a - b" := (nsub a b) : js_scope.
Notation "a * b" := (nmul a b) : js_scope.
Notation "a / b" := (ndiv a b) : js_scope.
Notation "- a" := (nopp a) : js_scope.
Notation "a <? b" := (nlt a b) : js_scope.
Notation "a >? b" := (nlt b a) : js_scope.

(** A decimal literal [m/d] whose numerator and denominator are exact integers:
    the correctly rounded quotient is the double nearest to the decimal, which
    is what the JavaScript parser produces. *)
Definition dec {num : Type} {N : JSNum num} (m d : Z) : num := (num_of m / num_of d)%js.

(** [a || b] on numbers. *)
Definition nor {num : Type} {N : JSNum num} (a b : num) : num := if nfalsy a then b else a.

(** *** binary64 *)

Module Binary64.
Import PrimFloat.

Fixpoint of_pos (p : positive) : float :=
  match p with
  | xH => 1%float
  | xO q => (2 * of_pos q)%float
  | xI q => (2 * of_pos q + 1)%float
  end.

Definition of_Z (z : Z) : float :=
  match z with
  | Z0 => 0%float
  | Zpos p => of_pos p
  | Zneg p => (- of_pos p)%float
  end.

Definition falsy (a : float) : bool := is_zero a || is_nan a.
End Binary64.

#[export] Instance binary64 : JSNum PrimFloat.float := {
  nadd := PrimFloat.add;
  nsub := PrimFloat.sub;
  nmul := PrimFloat.mul;
  ndiv := PrimFloat.div;
  nopp := PrimFloat.opp;
  nsqrt := PrimFloat.sqrt;
  nabs := PrimFloat.abs;
  nlt := PrimFloat.ltb;
  nfalsy := Binary64.falsy;
  num_of := Binary64.of_Z
}.

(** *** exact real arithmetic *)

Definition Rltb (a b : R) : bool := if Rlt_dec a b then true else false.
Definition Rfalsy (a : R) : bool := if Req_dec_T a 0%R then true else false.

#[export] Instance ideal : JSNum R := {
  nadd := Rplus;
  nsub := Rminus;
  nmul := Rmult;
  ndiv := Rdiv;
  nopp := Ropp;
  nsqrt := sqrt;
  nabs := Rabs;
  nlt := Rltb;
  nfalsy := Rfalsy;
  num_of := IZR
}.

(** Unfolds the arithmetic of the model into that of [R]. *)
Ltac ideal_ops :=
  cbv beta iota zeta delta
    [nadd nsub nmul ndiv nopp nsqrt nabs nlt nfalsy num_of ideal dec nor].

(** Object references.  Every [Triangle] object is pushed on the manager's
    [triangles] array in the call that constructs it and is never removed, so
    an object is identified with its position in that array. *)
Abbreviation ref := nat (only parsing).

(** ** The Three.js generation: Triangle.js and TriangleManager.js *)

Module Three.
Section Model.
Context {num : Type} {N : JSNum num}.
Local Open Scope js_scope.

(** [THREE.Vector3], with the methods the model calls (they are the
    library's: component-wise, [length] by [Math.sqrt], [normalize] as
    [divideScalar(length() || 1)], [divideScalar(s)] as
    [multiplyScalar(1 / s)]). *)
Record Vector3 : Type := mkVector3 { vx : num; vy : num; vz : num }.

Definition subVectors (a b : Vector3) : Vector3 :=
  mkVector3 (vx a - vx b) (vy a - vy b) (vz a - vz b).
Definition addVectors (a b : Vector3) : Vector3 :=
  mkVector3 (vx a + vx b) (vy a + vy b) (vz a + vz b).
Definition multiplyScalar (v : Vector3) (s : num) : Vector3 :=
  mkVector3 (vx v * s) (vy v * s) (vz v * s).
Definition divideScalar (v : Vector3) (s : num) : Vector3 :=
  multiplyScalar v (num_of 1 / s).
Definition length3 (v : Vector3) : num :=
  nsqrt (vx v * vx v + vy v * vy v + vz v * vz v).
Definition normalize (v : Vector3) : Vector3 :=
  divideScalar v (nor (length3 v) (num_of 1)).

(** The [Triangle] class.  The relationship tables are the objects [{}]
    keyed by side. *)
Record Triangle : Type := mkTriangle {
  vertices : list Vector3;
  parent : option ref;
  side : option nat;
  children : gmap nat ref;
  innerTriangles : gmap nat ref;
  outerTriangles : gmap nat ref;
  neighbors : gmap nat ref;
  selected : bool;
  focused : bool;
  center : Vector3
}.

(** [makeEquilateral(vertices)]: reads [vertices[0]] and [vertices[1]]
    only; a missing one makes [.clone()] throw ([None]). *)
Definition makeEquilateral (vs : list Vector3) : option (list Vector3) :=
  v0 ← vs !! 0%nat;
  v1 ← vs !! 1%nat;
  let v0v1 := subVectors v1 v0 in
  let sideLength := length3 v0v1 in
  let perpendicular := normalize (mkVector3 (- vy v0v1) (vx v0v1) (num_of 0)) in
  let height := sideLength * nsqrt (num_of 3) / num_of 2 in
  let perpendicular := multiplyScalar perpendicular height in
  let midpoint := multiplyScalar (addVectors v0 v1) (dec 1 2) in
  let v2 := addVectors midpoint perpendicular in
  Some [v0; v1; v2].

(** The centre computed by the constructor from the stored vertices. *)
Definition centerOf (vs : list Vector3) : option Vector3 :=
  v0 ← vs !! 0%nat;
  v1 ← vs !! 1%nat;
  v2 ← vs !! 2%nat;
  Some (mkVector3 ((vx v0 + vx v1 + vx v2) / num_of 3)
                  ((vy v0 + vy v1 + vy v2) / num_of 3)
                  ((vz v0 + vz v1 + vz v2) / num_of 3)).

(** [new Triangle(vertices, parent, side)]. *)
Definition newTriangle (vs : list Vector3) (p : option ref) (sd : option nat)
  : option Triangle :=
  vs' ← makeEquilateral vs;
  c ← centerOf vs';
  Some {| vertices := vs'; parent := p; side := sd;
          children := ∅; innerTriangles := ∅; outerTriangles := ∅;
          neighbors := ∅; selected := false; focused := false;
          center := c |}.

(** [getAdjacentTriangleVertices(side)]. *)
Definition getAdjacentTriangleVertices (t : Triangle) (sd : nat)
  : option (list Vector3) :=
  origVertex0 ← vertices t !! 0%nat;
  origVertex1 ← vertices t !! 1%nat;
  origVertex2 ← vertices t !! 2%nat;
  let '(sharedVertex1, sharedVertex2, oppositeVertex) :=
    match sd with
    | 0%nat => (origVertex0, origVertex1, origVertex2)
    | 1%nat => (origVertex1, origVertex2, origVertex0)
    | _ => (origVertex2, origVertex0, origVertex1)
    end in
  let midpoint := multiplyScalar (addVectors sharedVertex1 sharedVertex2) (dec 1 2) in
  let toMidpoint := subVectors midpoint oppositeVertex in
  let newVertex := addVectors oppositeVertex (multiplyScalar toMidpoint (num_of 2)) in
  Some [sharedVertex1; sharedVertex2; newVertex].

(** [getInnerTriangleVertices(side)]. *)
Definition getInnerTriangleVertices (t : Triangle) (sd : nat)
  : option (list Vector3) :=
  v1 ← vertices t !! sd;
  let centerPoint := center t in
  v2 ← vertices t !! ((sd + 1) mod 3)%nat;
  Some [v1; centerPoint; v2].

(** [getOuterTriangleVertices(side)]. *)
Definition getOuterTriangleVertices (t : Triangle) (sd : nat)
  : option (list Vector3) :=
  v1 ← vertices t !! sd;
  v2 ← vertices t !! ((sd + 1) mod 3)%nat;
  let midpoint := multiplyScalar (addVectors v1 v2) (dec 1 2) in
  let centerToMid := subVectors midpoint (center t) in
  let sideLength := length3 (subVectors v2 v1) in
  let scaleFactor := (sideLength * nsqrt (num_of 3) / num_of 2) / length3 centerToMid in
  let newVertex := addVectors midpoint (multiplyScalar centerToMid scaleFactor) in
  Some [v1; v2; newVertex].

(** Field updates ([this.focused = ...] and the like). *)
Definition setFocus (b : bool) (t : Triangle) : Triangle :=
  {| vertices := vertices t; parent := parent t; side := side t;
     children := children t; innerTriangles := innerTriangles t;
     outerTriangles := outerTriangles t; neighbors := neighbors t;
     selected := selected t; focused := b; center := center t |}.
Definition setSelected (b : bool) (t : Triangle) : Triangle :=
  {| vertices := vertices t; parent := parent t; side := side t;
     children := children t; innerTriangles := innerTriangles t;
     outerTriangles := outerTriangles t; neighbors := neighbors t;
     selected := b; focused := focused t; center := center t |}.
Definition setNeighbor (sd : nat) (r : ref) (t : Triangle) : Triangle :=
  {| vertices := vertices t; parent := parent t; side := side t;
     children := children t; innerTriangles := innerTriangles t;
     outerTriangles := outerTriangles t; neighbors := <[sd := r]> (neighbors t);
     selected := selected t; focused := focused t; center := center t |}.
Definition setInner (sd : nat) (r : ref) (t : Triangle) : Triangle :=
  {| vertices := vertices t; parent := parent t; side := side t;
     children := children t; innerTriangles := <[sd := r]> (innerTriangles t);
     outerTriangles := outerTriangles t; neighbors := neighbors t;
     selected := selected t; focused := focused t; center := center t |}.
Definition setOuter (sd : nat) (r : ref) (t : Triangle) : Triangle :=
  {| vertices := vertices t; parent := parent t; side := side t;
     children := children t; innerTriangles := innerTriangles t;
     outerTriangles := <[sd := r]> (outerTriangles t); neighbors := neighbors t;
     selected := selected t; focused := focused t; center := center t |}.

(** The [TriangleManager] object ([scene] is the renderer's). *)
Record TriangleManager : Type := mkManager {
  triangles : list Triangle;
  focusedTriangle : option ref;
  selectedTriangles : list ref
}.

(** Methods run in a state monad over the manager; [None] is a thrown
    [TypeError]. *)
Definition M (A : Type) : Type := TriangleManager -> option (A * TriangleManager).
Definition ret {A} (a : A) : M A := fun s => Some (a, s).
Definition bind {A B} (m : M A) (k : A -> M B) : M B :=
  fun s => match m s with Some (a, s') => k a s' | None => None end.
Definition throw {A} : M A := fun _ => None.
Definition lift {A} (o : option A) : M A :=
  fun s => match o with Some a => Some (a, s) | None => None end.
Definition gets {A} (f : TriangleManager -> A) : M A := fun s => Some (f s, s).
Definition deref (r : ref) : M Triangle := fun s => lift (triangles s !! r) s.
Definition update (r : ref) (f : Triangle -> Triangle) : M unit :=
  fun s => Some (tt, mkManager (alter f r (triangles s)) (focusedTriangle s)
                               (selectedTriangles s)).
Definition when_ref (o : option ref) (k : ref -> M unit) : M unit :=
  match o with Some r => k r | None => ret tt end.

Notation "x <- m ;; k" := (bind m (fun x => k))
  (at level 20, m at level 99, k at level 200, only parsing).
Notation "m ;;; k" := (bind m (fun _ => k))
  (at level 20, k at level 200, only parsing).

(** [addTriangle(triangle)]: the push; the result is the pushed object. *)
Definition addTriangle (t : Triangle) : M ref :=
  fun s => Some (length (triangles s),
                 mkManager (triangles s ++ [t]) (focusedTriangle s)
                           (selectedTriangles s)).

(** [setFocusedTriangle(triangle)]. *)
Definition setFocusedTriangle (t : option ref) : M unit :=
  cur <- gets focusedTriangle ;;
  when_ref cur (fun r => update r (setFocus false)) ;;;
  (fun s => Some (tt, mkManager (triangles s) t (selectedTriangles s))) ;;;
  when_ref t (fun r => update r (setFocus true)).

(** [verticesEqual(v1, v2, epsilon = 0.0001)]. *)
Definition epsilon : num := dec 1 10000.
Definition verticesEqual (v1 v2 : Vector3) : bool :=
  (nabs (vx v1 - vx v2) <? epsilon) &&
  (nabs (vy v1 - vy v2) <? epsilon) &&
  (nabs (vz v1 - vz v2) <? epsilon).

(** The body of the loop over [side] in [findAdjacentSide]: the number of
    vertices of [triangle2] equal to one end of the side is compared
    to 2. *)
Definition sharedCount (v1 v2 : Vector3) (vs : list Vector3) : nat :=
  length (filter (fun v => verticesEqual v v1 || verticesEqual v v2) vs).

Definition sideIsShared (t1 t2 : Triangle) (sd : nat) : option bool :=
  v1 ← vertices t1 !! sd;
  v2 ← vertices t1 !! ((sd + 1) mod 3)%nat;
  a ← vertices t2 !! 0%nat;
  b ← vertices t2 !! 1%nat;
  c ← vertices t2 !! 2%nat;
  Some (Nat.eqb (sharedCount v1 v2 [a; b; c]) 2).

Fixpoint findAdjacentSide_loop (t1 t2 : Triangle) (sides : list nat)
  : option (option nat) :=
  match sides with
  | [] => Some None
  | sd :: rest =>
      m ← sideIsShared t1 t2 sd;
      if (m : bool) then Some (Some sd) else findAdjacentSide_loop t1 t2 rest
  end.

(** [findAdjacentSide(triangle1, triangle2)]: sides 0, 1, 2 in order, the
    first match returned, [null] ([None]) without one. *)
Definition findAdjacentSide (triangle1 triangle2 : ref) : M (option nat) :=
  t1 <- deref triangle1 ;;
  t2 <- deref triangle2 ;;
  lift (findAdjacentSide_loop t1 t2 [0; 1; 2]%nat).

(** [createAdjacentTriangle(triangle, side)]. *)
Definition createAdjacentTriangle (triangle : ref) (sd : nat) : M ref :=
  t <- deref triangle ;;
  match neighbors t !! sd with
  | Some existingTriangle =>
      setFocusedTriangle (Some existingTriangle) ;;;
      ret existingTriangle
  | None =>
      vs <- lift (getAdjacentTriangleVertices t sd) ;;
      obj <- lift (newTriangle vs (Some triangle) (Some sd)) ;;
      new <- addTriangle obj ;;
      update triangle (setNeighbor sd new) ;;;
      newSide <- findAdjacentSide new triangle ;;
      match newSide with
      | Some ns => update new (setNeighbor ns triangle)
      | None => ret tt
      end ;;;
      setFocusedTriangle (Some new) ;;;
      ret new
  end.

(** [createInnerTriangle(triangle, side)]. *)
Definition createInnerTriangle (triangle : ref) (sd : nat) : M ref :=
  t <- deref triangle ;;
  match innerTriangles t !! sd with
  | Some existingTriangle =>
      setFocusedTriangle (Some existingTriangle) ;;;
      ret existingTriangle
  | None =>
      vs <- lift (getInnerTriangleVertices t sd) ;;
      obj <- lift (newTriangle vs (Some triangle) (Some sd)) ;;
      new <- addTriangle obj ;;
      update triangle (setInner sd new) ;;;
      setFocusedTriangle (Some new) ;;;
      ret new
  end.

(** [createOuterTriangle(triangle, side)]. *)
Definition createOuterTriangle (triangle : ref) (sd : nat) : M ref :=
  t <- deref triangle ;;
  match outerTriangles t !! sd with
  | Some existingTriangle =>
      setFocusedTriangle (Some existingTriangle) ;;;
      ret existingTriangle
  | None =>
      vs <- lift (getOuterTriangleVertices t sd) ;;
      obj <- lift (newTriangle vs (Some triangle) (Some sd)) ;;
      new <- addTriangle obj ;;
      update triangle (setOuter sd new) ;;;
      setFocusedTriangle (Some new) ;;;
      ret new
  end.

(** [moveToAdjacentTriangle(side)]. *)
Definition moveToAdjacentTriangle (sd : nat) : M (option ref) :=
  cur <- gets focusedTriangle ;;
  match cur with
  | None => ret None
  | Some f =>
      t <- deref f ;;
      match neighbors t !! sd with
      | Some neighbor => setFocusedTriangle (Some neighbor) ;;; ret (Some neighbor)
      | None => ret None
      end
  end.

(** [createInitialTriangle()], on the manager the constructor has just
    emptied. *)
Definition initialVertices : list Vector3 :=
  let size := dec 15 10 in
  let height := size * nsqrt (num_of 3) / num_of 2 in
  [ mkVector3 (- size / num_of 2) (- height / num_of 3) (num_of 0);
    mkVector3 (size / num_of 2) (- height / num_of 3) (num_of 0);
    mkVector3 (num_of 0) (height * num_of 2 / num_of 3) (num_of 0) ].

Definition createInitialTriangle : M unit :=
  obj <- lift (newTriangle initialVertices None None) ;;
  triangle <- addTriangle obj ;;
  setFocusedTriangle (Some triangle).

(** [new TriangleManager(scene)]. *)
Definition emptyManager : TriangleManager := mkManager [] None [].
Definition newManager : option TriangleManager :=
  snd <$> createInitialTriangle emptyManager.

(** *** Vocabulary of the specification *)

(** The third vertex of the equilateral triangle on the edge from [a] to
    [b]: the midpoint plus the edge vector turned by 90 degrees
    counterclockwise, normalised and scaled to the height. *)
Definition midpointOf (a b : Vector3) : Vector3 :=
  multiplyScalar (addVectors a b) (dec 1 2).
Definition ccwNormal (a b : Vector3) : Vector3 :=
  let e := subVectors b a in
  normalize (mkVector3 (- vy e) (vx e) (num_of 0)).
Definition equilateralHeight (a b : Vector3) : num :=
  length3 (subVectors b a) * nsqrt (num_of 3) / num_of 2.
Definition apex (a b : Vector3) : Vector3 :=
  addVectors (midpointOf a b) (multiplyScalar (ccwNormal a b) (equilateralHeight a b)).

(** The reflection of [o] through [m], [o + 2 (m - o)]. *)
Definition reflectThrough (o m : Vector3) : Vector3 :=
  addVectors o (multiplyScalar (subVectors m o) (num_of 2)).

Definition distance (a b : Vector3) : num := length3 (subVectors b a).

(** The three side lengths differ pairwise by less than [eps]. *)
Definition equilateralWithin (eps : num) (vs : list Vector3) : bool :=
  match vs with
  | [a; b; c] =>
      (nabs (distance a b - distance b c) <? eps) &&
      (nabs (distance b c - distance c a) <? eps) &&
      (nabs (distance c a - distance a b) <? eps)
  | _ => false
  end.

(** How many vertices of [vs1] equal, within the tolerance, a vertex of
    [vs2]. *)
Definition sharedVertexCount (vs1 vs2 : list Vector3) : nat :=
  length (filter (fun v => existsb (verticesEqual v) vs2) vs1).

(** The effect of [setFocusedTriangle] on the array of triangles. *)
Definition refocus (cur new : option ref) (ts : list Triangle) : list Triangle :=
  let ts1 := match cur with
             | Some r => alter (setFocus false) r ts
             | None => ts
             end in
  match new with
  | Some r => alter (setFocus true) r ts1
  | None => ts1
  end.

(** All of a triangle but its two display flags. *)
Definition links (t : Triangle) :=
  (vertices t, parent t, side t, children t, innerTriangles t,
   outerTriangles t, neighbors t, center t).

(** Every triangle object holds three vertices (the constructor stores
    the result of [makeEquilateral]). *)
Definition wellFormed (s : TriangleManager) : Prop :=
  Forall (fun t => length (vertices t) = 3%nat) (triangles s).

(** A call answered with a new triangle: it is the next object of the
    array, the array is one longer and the focus is on it. *)
Definition created (r : option (ref * TriangleManager)) (s : TriangleManager) : Prop :=
  exists s', r = Some (length (triangles s), s') /\
             length (triangles s') = S (length (triangles s)) /\
             focusedTriangle s' = Some (length (triangles s)).

(** The manager after [n] calls of [createInnerTriangle] on side 0 of the
    focused triangle. *)
Definition growStep (os : option TriangleManager) : option TriangleManager :=
  s ← os; f ← focusedTriangle s; snd <$> createInnerTriangle f 0%nat s.
Definition grown (n : nat) : option TriangleManager := Nat.iter n growStep newManager.

(** The manager as constructed, and after [createAdjacentTriangle] on
    side 0 of its seed. *)
Definition seedManager : TriangleManager := default emptyManager newManager.
Definition afterAdjacent : TriangleManager :=
  default emptyManager (snd <$> createAdjacentTriangle 0%nat 0%nat seedManager).

(** A manager on one triangle constructed from two coincident vertices. *)
Definition degenerateManager : TriangleManager :=
  let o := mkVector3 (num_of 0) (num_of 0) (num_of 0) in
  default emptyManager
    (obj ← newTriangle [o; o; mkVector3 (num_of 1) (num_of 1) (num_of 0)] None None;
     snd <$> bind (addTriangle obj) (fun r => setFocusedTriangle (Some r)) emptyManager).

(** *** Selection, and the calls of the input handler *)

(** [selectedTriangles.indexOf(triangle)], [None] for -1. *)
Fixpoint indexOf (r : ref) (l : list ref) : option nat :=
  match l with
  | [] => None
  | x :: rest => if Nat.eqb x r then Some 0%nat else S <$> indexOf r rest
  end.

Definition setSelection (l : list ref) : M unit :=
  fun s => Some (tt, mkManager (triangles s) (focusedTriangle s) l).

(** [toggleTriangleSelection(triangle)]: [push] when absent, [splice(index,
    1)] when present. *)
Definition toggleTriangleSelection (triangle : ref) : M unit :=
  sel <- gets selectedTriangles ;;
  match indexOf triangle sel with
  | None =>
      setSelection (sel ++ [triangle]) ;;;
      update triangle (setSelected true)
  | Some index =>
      setSelection (delete index sel) ;;;
      update triangle (setSelected false)
  end.

(** [clearSelection()]. *)
Definition clearSelection : M unit :=
  fun s =>
    Some (tt, mkManager
                (fold_left (fun ts r => alter (setSelected false) r ts)
                           (selectedTriangles s) (triangles s))
                (focusedTriangle s) []).

(** [getSideCenter(side)]. *)
Definition getSideCenter (t : Triangle) (sd : nat) : option Vector3 :=
  v1 ← vertices t !! sd;
  v2 ← vertices t !! ((sd + 1) mod 3)%nat;
  Some (mkVector3 ((vx v1 + vx v2) / num_of 2)
                  ((vy v1 + vy v2) / num_of 2)
                  ((vz v1 + vz v2) / num_of 2)).

(** The methods of [InputHandler] that act on the manager:
    [createAdjacentTriangle(side)], [selectTriangle(side)],
    [createInnerSubTriangle(side)], [createOuterSubTriangle(side)] and
    [navigateToTriangle(side)].  Without a focused triangle each does
    nothing; the tests [if (newTriangle)] of the two sub-triangle methods
    are on an object and always pass. *)
Definition handlerCreateAdjacentTriangle (sd : nat) : M unit :=
  cur <- gets focusedTriangle ;;
  match cur with
  | Some focused =>
      new <- createAdjacentTriangle focused sd ;;
      setFocusedTriangle (Some new)
  | None => ret tt
  end.

Definition handlerSelectTriangle (sd : nat) : M unit :=
  cur <- gets focusedTriangle ;;
  match cur with
  | Some focused =>
      toggleTriangleSelection focused ;;;
      neighbor <- moveToAdjacentTriangle sd ;;
      match neighbor with
      | Some n => setFocusedTriangle (Some n)
      | None => ret tt
      end
  | None => ret tt
  end.

Definition handlerCreateInnerSubTriangle (sd : nat) : M unit :=
  cur <- gets focusedTriangle ;;
  match cur with
  | Some focused =>
      new <- createInnerTriangle focused sd ;;
      setFocusedTriangle (Some new)
  | None => ret tt
  end.

Definition handlerCreateOuterSubTriangle (sd : nat) : M unit :=
  cur <- gets focusedTriangle ;;
  match cur with
  | Some focused =>
      new <- createOuterTriangle focused sd ;;
      setFocusedTriangle (Some new)
  | None => ret tt
  end.

Definition handlerNavigateToTriangle (sd : nat) : M unit :=
  moveToAdjacentTriangle sd ;;; ret tt.

(** *** Vocabulary of the further properties *)

(** The [focused] flags agree with the cursor: a triangle carries the flag
    exactly when it is the focused triangle. *)
Definition focusConsistent (s : TriangleManager) : Prop :=
  forall i t, triangles s !! i = Some t ->
              (focused t = true <-> focusedTriangle s = Some i).

(** The [selected] flags agree with the list of selected triangles, which
    names no triangle twice. *)
Definition selectionConsistent (s : TriangleManager) : Prop :=
  NoDup (selectedTriangles s) /\
  forall i t, triangles s !! i = Some t ->
              (selected t = true <-> i ∈ selectedTriangles s).

(** The three derivations of the manager by number (0 adjacent, 1 inner,
    otherwise outer), and the table each reads and writes. *)
Definition derive (k : nat) (T : ref) (e : nat) : M ref :=
  match k with
  | 0%nat => createAdjacentTriangle T e
  | 1%nat => createInnerTriangle T e
  | _ => createOuterTriangle T e
  end.

Definition slotOf (k : nat) (t : Triangle) : gmap nat ref :=
  match k with
  | 0%nat => neighbors t
  | 1%nat => innerTriangles t
  | _ => outerTriangles t
  end.

Definition setSlot (k : nat) (e : nat) (r : ref) : Triangle -> Triangle :=
  match k with
  | 0%nat => setNeighbor e r
  | 1%nat => setInner e r
  | _ => setOuter e r
  end.

(** The calls the key handler makes on the manager, each with a side that
    [getSideFromArrowKey] has read from its table (0, 1 or 2). *)
Inductive Call : Type :=
| CallCreateAdjacent | CallSelect | CallCreateInner | CallCreateOuter | CallNavigate.

Definition handle (c : Call) (sd : nat) : M unit :=
  match c with
  | CallCreateAdjacent => handlerCreateAdjacentTriangle sd
  | CallSelect => handlerSelectTriangle sd
  | CallCreateInner => handlerCreateInnerSubTriangle sd
  | CallCreateOuter => handlerCreateOuterSubTriangle sd
  | CallNavigate => handlerNavigateToTriangle sd
  end.

(** The managers the key handler can reach from the constructed one. *)
Inductive reachable : TriangleManager -> Prop :=
| reachable_new (s : TriangleManager) : newManager = Some s -> reachable s
| reachable_call (c : Call) (sd : nat) (s s' : TriangleManager) :
    reachable s -> (sd < 3)%nat -> handle c sd s = Some (tt, s') -> reachable s'.

(** The references a triangle holds in its relationship tables all name
    objects of the array. *)
Definition refsBelow (n : nat) (t : Triangle) : Prop :=
  forall e r,
    neighbors t !! e = Some r \/ innerTriangles t !! e = Some r \/
    outerTriangles t !! e = Some r ->
    (r < n)%nat.

(** What the manager keeps true under the handler's calls. *)
Record invariant (s : TriangleManager) : Prop := mkInvariant {
  inv_vertices : wellFormed s;
  inv_focus : exists f, focusedTriangle s = Some f /\ (f < length (triangles s))%nat;
  inv_flags : focusConsistent s;
  inv_selection : selectionConsistent s;
  inv_selected : Forall (fun r => (r < length (triangles s))%nat) (selectedTriangles s);
  inv_refs : Forall (refsBelow (length (triangles s))) (triangles s)
}.
End Model.
Arguments Vector3 : clear implicits.
Arguments Triangle : clear implicits.
Arguments TriangleManager : clear implicits.
Arguments M : clear implicits.
End Three.

(** ** The WebGL generation: app.js *)

Module WebGL.
Section Model.
Context {num : Type} {N : JSNum num}.
Local Open Scope js_scope.

Definition MAX_TRIANGLES : Z := 10000.
Definition TRIANGLE_SIZE : num := dec 3 10.

(** The vertex array of a triangle, "Array of 6 values [x1,y1, x2,y2,
    x3,y3]": the fields are the slots 0 to 5. *)
Record Vertices : Type := mkVertices {
  c0 : num; c1 : num; c2 : num; c3 : num; c4 : num; c5 : num
}.

(** A JavaScript array of object references.  A slot holds [null]
    ([None]) or an object; reading past the end gives [undefined], which
    the code only tests for truth, like [null]; writing past the end
    extends the array with holes; a negative index names a property, not
    an element. *)
Definition array_get (l : list (option ref)) (i : Z) : option ref :=
  if (i <? 0)%Z then None else mjoin (l !! Z.to_nat i).
Definition array_set (l : list (option ref)) (i : Z) (v : ref)
  : list (option ref) :=
  if (i <? 0)%Z then l
  else
    let n := Z.to_nat i in
    if (n <? length l)%nat then <[n := Some v]> l
    else l ++ replicate (n - length l)%nat None ++ [Some v].

(** [class Triangle] ([color] is the renderer's). *)
Record Triangle : Type := mkTriangle {
  id : Z;
  vertices : Vertices;
  parent : option ref;
  parentSide : Z;
  children : list (option ref);
  neighbors : list (option ref);
  innerTriangles : list (option ref);
  outerTriangles : list (option ref);
  center : num * num;
  selected : bool;
  focused : bool
}.

(** [new Triangle(id, vertices, parent, parentSide)]. *)
Definition newTriangle (i : Z) (vs : Vertices) (p : option ref) (ps : Z)
  : Triangle :=
  {| id := i; vertices := vs; parent := p; parentSide := ps;
     children := [None; None; None];
     neighbors := [None; None; None];
     innerTriangles := [None; None; None];
     outerTriangles := [None; None; None];
     center := ((c0 vs + c2 vs + c4 vs) / num_of 3,
                (c1 vs + c3 vs + c5 vs) / num_of 3);
     selected := false; focused := false |}.

Definition setNeighbor (sd : Z) (r : ref) (t : Triangle) : Triangle :=
  {| id := id t; vertices := vertices t; parent := parent t;
     parentSide := parentSide t; children := children t;
     neighbors := array_set (neighbors t) sd r;
     innerTriangles := innerTriangles t; outerTriangles := outerTriangles t;
     center := center t; selected := selected t; focused := focused t |}.
Definition setChild (sd : Z) (r : ref) (t : Triangle) : Triangle :=
  {| id := id t; vertices := vertices t; parent := parent t;
     parentSide := parentSide t; children := array_set (children t) sd r;
     neighbors := neighbors t;
     innerTriangles := innerTriangles t; outerTriangles := outerTriangles t;
     center := center t; selected := selected t; focused := focused t |}.
Definition setInnerTriangle (sd : Z) (r : ref) (t : Triangle) : Triangle :=
  {| id := id t; vertices := vertices t; parent := parent t;
     parentSide := parentSide t; children := children t;
     neighbors := neighbors t;
     innerTriangles := array_set (innerTriangles t) sd r;
     outerTriangles := outerTriangles t;
     center := center t; selected := selected t; focused := focused t |}.
Definition setOuterTriangle (sd : Z) (r : ref) (t : Triangle) : Triangle :=
  {| id := id t; vertices := vertices t; parent := parent t;
     parentSide := parentSide t; children := children t;
     neighbors := neighbors t;
     innerTriangles := innerTriangles t;
     outerTriangles := array_set (outerTriangles t) sd r;
     center := center t; selected := selected t; focused := focused t |}.
Definition setSelected (b : bool) (t : Triangle) : Triangle :=
  {| id := id t; vertices := vertices t; parent := parent t;
     parentSide := parentSide t; children := children t;
     neighbors := neighbors t;
     innerTriangles := innerTriangles t; outerTriangles := outerTriangles t;
     center := center t; selected := b; focused := focused t |}.
Definition setFocused (b : bool) (t : Triangle) : Triangle :=
  {| id := id t; vertices := vertices t; parent := parent t;
     parentSide := parentSide t; children := children t;
     neighbors := neighbors t;
     innerTriangles := innerTriangles t; outerTriangles := outerTriangles t;
     center := center t; selected := selected t; focused := b |}.

(** [getSide(index)]: the two ends of a side, [[xa, ya, xb, yb]]; any
    index other than 0 and 1 is read as 2. *)
Definition getSide (t : Triangle) (index : Z) : num * num * num * num :=
  let v := vertices t in
  if (index =? 0)%Z then (c0 v, c1 v, c2 v, c3 v)
  else if (index =? 1)%Z then (c2 v, c3 v, c4 v, c5 v)
  else (c4 v, c5 v, c0 v, c1 v).

(** The module-level variables of app.js.  The instance arrays
    ([instanceOffsets], [instanceColors], [instanceScales],
    [instanceSelected]) are written and never read back. *)
Record App : Type := mkApp {
  triangles : list Triangle;
  selectedTriangleIndex : Z;
  focusedTriangleIndex : Z;
  triangleCount : Z;
  nextTriangleId : Z;
  dataChanged : bool
}.

Definition initialApp : App := mkApp [] (-1) (-1) 0 0 true.

(** [triangles[i]]. *)
Definition triangleAt (s : App) (i : Z) : option Triangle :=
  if (i <? 0)%Z then None else triangles s !! Z.to_nat i.

Definition inRange (s : App) (i : Z) : bool :=
  (0 <=? i)%Z && (i <? triangleCount s)%Z.

(** [focusTriangle(index)].  The writes [triangles[i].focused = ...] are
    guarded by [i < triangleCount]; they go through [alter], whose no-op on
    a missing slot is never taken when [triangles.length] equals
    [triangleCount]. *)
Definition focusTriangle (index : Z) (s : App) : App :=
  let ts :=
    if inRange s (focusedTriangleIndex s)
    then alter (setFocused false) (Z.to_nat (focusedTriangleIndex s)) (triangles s)
    else triangles s in
  if inRange s index
  then mkApp (alter (setFocused true) (Z.to_nat index) ts)
             (selectedTriangleIndex s) index (triangleCount s)
             (nextTriangleId s) true
  else mkApp ts (selectedTriangleIndex s) index (triangleCount s)
             (nextTriangleId s) (dataChanged s).

(** The loop of [selectTriangle] that clears the existing selections. *)
Definition clearSelections (count : Z) (ts : list Triangle) : list Triangle :=
  fold_left
    (fun acc i =>
       alter (fun t => if selected t then setSelected false t else t) i acc)
    (seq 0 (Z.to_nat count)) ts.

(** [selectTriangle(index, clearExisting = true)]. *)
Definition selectTriangle (index : Z) (clearExisting : bool) (s : App) : App :=
  let ts :=
    if clearExisting then clearSelections (triangleCount s) (triangles s)
    else triangles s in
  if inRange s index
  then mkApp (alter (setSelected true) (Z.to_nat index) ts)
             index (focusedTriangleIndex s) (triangleCount s)
             (nextTriangleId s) true
  else mkApp ts (selectedTriangleIndex s) (focusedTriangleIndex s)
             (triangleCount s) (nextTriangleId s) (dataChanged s).

(** [addTriangle(vertices, parent = null, parentSide = -1)]: [null]
    ([None]) once [triangleCount] has reached [MAX_TRIANGLES]. *)
Definition addTriangle (vs : Vertices) (p : option ref) (ps : Z) (s : App)
  : option ref * App :=
  if (triangleCount s >=? MAX_TRIANGLES)%Z then (None, s)
  else
    let triangle := newTriangle (nextTriangleId s) vs p ps in
    let new := length (triangles s) in
    let ts := triangles s ++ [triangle] in
    let ts :=
      match p with
      | Some pr => if (ps >=? 0)%Z then alter (setChild ps new) pr ts else ts
      | None => ts
      end in
    let s1 := mkApp ts (selectedTriangleIndex s) (focusedTriangleIndex s)
                    (triangleCount s) (nextTriangleId s + 1) (dataChanged s) in
    let s2 := if (triangleCount s =? 0)%Z then focusTriangle 0 s1 else s1 in
    (Some new,
     mkApp (triangles s2) (selectedTriangleIndex s2) (focusedTriangleIndex s2)
           (triangleCount s2 + 1) (nextTriangleId s2) true).

(** [createInitialTriangle()]. *)
Definition initialVertices : Vertices :=
  let size := dec 1 2 * TRIANGLE_SIZE in
  mkVertices (- size) (- size * dec 577 1000)
             size (- size * dec 577 1000)
             (num_of 0) (size * dec 1155 1000).

Definition createInitialTriangle (s : App) : App :=
  snd (addTriangle initialVertices None (-1) s).

(** The state in which the input handlers are installed. *)
Definition startApp : App := createInitialTriangle initialApp.

Definition withTriangles (ts : list Triangle) (s : App) : App :=
  mkApp ts (selectedTriangleIndex s) (focusedTriangleIndex s)
        (triangleCount s) (nextTriangleId s) (dataChanged s).

(** The comparison of one side of the new triangle with the shared side,
    in either order, each coordinate within 0.001. *)
Definition near (a b : num) : bool := nabs (a - b) <? dec 1 1000.

Definition sideMatches (newSideVerts originalSideVerts : num * num * num * num)
  : bool :=
  let '(newV1x, newV1y, newV2x, newV2y) := newSideVerts in
  let '(origV1x, origV1y, origV2x, origV2y) := originalSideVerts in
  let matchForward :=
    near newV1x origV1x && near newV1y origV1y &&
    near newV2x origV2x && near newV2y origV2y in
  let matchReverse :=
    near newV1x origV2x && near newV1y origV2y &&
    near newV2x origV1x && near newV2y origV1y in
  matchForward || matchReverse.

(** The loop [for (newSide = 0; newSide < 3; newSide++)] with its
    [break]: the first side of the new triangle that matches. *)
Fixpoint matchingSide (newTriangle triangle : Triangle) (sd : Z)
    (newSides : list Z) : option Z :=
  match newSides with
  | [] => None
  | newSide :: rest =>
      if sideMatches (getSide newTriangle newSide) (getSide triangle sd)
      then Some newSide
      else matchingSide newTriangle triangle sd rest
  end.

(** The tail shared by the three creation functions: focus and select the
    new triangle ([triangles.indexOf(newTriangle)] is its position). *)
Definition focusAndSelect (new : ref) (s : App) : App :=
  let newIndex := Z.of_nat new in
  selectTriangle newIndex true (focusTriangle newIndex s).

(** [createAdjacentTriangle(triangleIndex, side)], in two parts: the
    computation of [newVertices], then the registration. *)
Definition adjacentVertices (triangle : Triangle) (sd : Z) : Vertices :=
  let '(x1, y1, x2, y2) := getSide triangle sd in
  let dx := x2 - x1 in
  let dy := y2 - y1 in
  let centerX := fst (center triangle) in
  let centerY := snd (center triangle) in
  let midX := (x1 + x2) / num_of 2 in
  let midY := (y1 + y2) / num_of 2 in
  let toCenterX := centerX - midX in
  let toCenterY := centerY - midY in
  let length := nsqrt (dx * dx + dy * dy) in
  let perpX := dy / length in
  let perpY := - dx / length in
  let dotProduct := perpX * toCenterX + perpY * toCenterY in
  let '(perpX, perpY) :=
    if dotProduct >? num_of 0 then (- perpX, - perpY) else (perpX, perpY) in
  let height := length * nsqrt (num_of 3) / num_of 2 in
  let x3 := (x1 + x2) / num_of 2 + perpX * height in
  let y3 := (y1 + y2) / num_of 2 + perpY * height in
  mkVertices x1 y1 x2 y2 x3 y3.

Definition linkNeighbors (sd : Z) (self new : ref) (ts : list Triangle)
  : list Triangle :=
  let ts := alter (setNeighbor sd new) self ts in
  match ts !! new, ts !! self with
  | Some newTriangle, Some triangle =>
      match matchingSide newTriangle triangle sd [0; 1; 2]%Z with
      | Some newSide => alter (setNeighbor newSide self) new ts
      | None => ts
      end
  | _, _ => ts
  end.

Definition createAdjacentTriangle (triangleIndex sd : Z) (s : App)
  : option ref * App :=
  match triangleAt s triangleIndex with
  | None => (None, s)
  | Some triangle =>
      let newVertices := adjacentVertices triangle sd in
      let self := Z.to_nat triangleIndex in
      match addTriangle newVertices (Some self) sd s with
      | (None, s1) => (None, s1)
      | (Some new, s1) =>
          let ts := linkNeighbors sd self new (triangles s1) in
          (Some new, focusAndSelect new (withTriangles ts s1))
      end
  end.

(** [createInnerTriangle(triangleIndex, side)]. *)
Definition innerVertices (triangle : Triangle) (sd : Z) : Vertices :=
  let '(s0, s1, s2, s3) := getSide triangle sd in
  mkVertices s0 s1 s2 s3 (fst (center triangle)) (snd (center triangle)).

Definition createInnerTriangle (triangleIndex sd : Z) (s : App)
  : option ref * App :=
  match triangleAt s triangleIndex with
  | None => (None, s)
  | Some triangle =>
      let newVertices := innerVertices triangle sd in
      let self := Z.to_nat triangleIndex in
      match addTriangle newVertices (Some self) sd s with
      | (None, s1) => (None, s1)
      | (Some new, s1) =>
          let ts := alter (setInnerTriangle sd new) self (triangles s1) in
          (Some new, focusAndSelect new (withTriangles ts s1))
      end
  end.

(** [createOuterTriangle(triangleIndex, side)]; [v ** 2] is [v * v]. *)
Definition outerVertices (triangle : Triangle) (sd : Z) : Vertices :=
  let '(s0, s1, s2, s3) := getSide triangle sd in
  let midpoint := ((s0 + s2) / num_of 2, (s1 + s3) / num_of 2) in
  let outwardVector := (- (s3 - s1), s2 - s0) in
  let length :=
    nsqrt (fst outwardVector * fst outwardVector +
           snd outwardVector * snd outwardVector) in
  let outwardVector := (fst outwardVector / length, snd outwardVector / length) in
  let sideLength := nsqrt ((s2 - s0) * (s2 - s0) + (s3 - s1) * (s3 - s1)) in
  let height := sideLength * nsqrt (num_of 3) / num_of 2 in
  let newVertex := (fst midpoint + fst outwardVector * height,
                    snd midpoint + snd outwardVector * height) in
  mkVertices s0 s1 s2 s3 (fst newVertex) (snd newVertex).

Definition createOuterTriangle (triangleIndex sd : Z) (s : App)
  : option ref * App :=
  match triangleAt s triangleIndex with
  | None => (None, s)
  | Some triangle =>
      let newVertices := outerVertices triangle sd in
      let self := Z.to_nat triangleIndex in
      match addTriangle newVertices (Some self) sd s with
      | (None, s1) => (None, s1)
      | (Some new, s1) =>
          let ts := alter (setOuterTriangle sd new) self (triangles s1) in
          (Some new, focusAndSelect new (withTriangles ts s1))
      end
  end.

(** *** Vocabulary of the specification *)

(** The array of triangles and the counter agree (both change in
    [addTriangle] only, together). *)
Definition wellFormed (s : App) : Prop :=
  Z.of_nat (length (triangles s)) = triangleCount s.

(** The three creation functions share one registration pattern, which
    differs in the link written on the source triangle. *)
Definition register (link : ref -> ref -> list Triangle -> list Triangle)
    (newVertices : Vertices) (triangleIndex sd : Z) (s : App)
  : option ref * App :=
  let self := Z.to_nat triangleIndex in
  match addTriangle newVertices (Some self) sd s with
  | (None, s1) => (None, s1)
  | (Some new, s1) =>
      (Some new, focusAndSelect new (withTriangles (link self new (triangles s1)) s1))
  end.

Definition keepsShape (link : ref -> ref -> list Triangle -> list Triangle) : Prop :=
  forall self new ts,
    length (link self new ts) = length ts /\
    vertices <$> link self new ts = vertices <$> ts.

(** The three creation functions by number (0 adjacent, 1 inner, otherwise
    outer), with the vertices each computes and the link each writes. *)
Definition creation (k : nat) (idx sd : Z) (s : App) : option ref * App :=
  match k with
  | 0%nat => createAdjacentTriangle idx sd s
  | 1%nat => createInnerTriangle idx sd s
  | _ => createOuterTriangle idx sd s
  end.

Definition creationVertices (k : nat) (t : Triangle) (sd : Z) : Vertices :=
  match k with
  | 0%nat => adjacentVertices t sd
  | 1%nat => innerVertices t sd
  | _ => outerVertices t sd
  end.

Definition creationLink (k : nat) (sd : Z)
  : ref -> ref -> list Triangle -> list Triangle :=
  match k with
  | 0%nat => linkNeighbors sd
  | 1%nat => fun self new ts => alter (setInnerTriangle sd new) self ts
  | _ => fun self new ts => alter (setOuterTriangle sd new) self ts
  end.

(** What the clearing loop of [selectTriangle] does to one triangle. *)
Definition unselect (t : Triangle) : Triangle :=
  if selected t then setSelected false t else t.

(** The chosen side has its two ends at the same point. *)
Definition zeroLengthSide (t : Triangle) (sd : Z) : Prop :=
  let '(xa, ya, xb, yb) := getSide t sd in xa = xb /\ ya = yb.

(** A call answered with a new triangle: it is the next object of the
    array, array and counter are one larger and the focus is on it. *)
Definition created (r : option ref * App) (s : App) : Prop :=
  exists s', r = (Some (length (triangles s)), s') /\
             triangleCount s' = (triangleCount s + 1)%Z /\
             length (triangles s') = S (length (triangles s)) /\
             focusedTriangleIndex s' = Z.of_nat (length (triangles s)).

(** The application after [addTriangle] of a triangle whose first two
    vertices coincide (the test key of the input handler calls [addTriangle]
    with vertices of its own in the same way). *)
Definition degenerateApp : App :=
  snd (addTriangle (mkVertices (num_of 0) (num_of 0) (num_of 0) (num_of 0)
                               (num_of 1) (num_of 1)) None (-1) initialApp).

(** A state whose counter has reached [MAX_TRIANGLES]. *)
Definition atCapacity : App :=
  mkApp (replicate (Z.to_nat MAX_TRIANGLES) (newTriangle 0 initialVertices None (-1)))
        (-1) 0 MAX_TRIANGLES MAX_TRIANGLES true.

(** The indices of the selected triangles. *)
Definition selectedSet (s : App) : list nat :=
  List.filter (fun i => match triangles s !! i with
                        | Some t => selected t
                        | None => false
                        end)
              (seq 0 (length (triangles s))).

(** The distance between two points and the equilateral test used to state
    the geometric properties: the three side lengths differ pairwise by
    less than [eps]. *)
Definition dist (ax ay bx by_ : num) : num :=
  nsqrt ((bx - ax) * (bx - ax) + (by_ - ay) * (by_ - ay)).

Definition equilateralWithin (eps : num) (v : Vertices) : bool :=
  let d01 := dist (c0 v) (c1 v) (c2 v) (c3 v) in
  let d12 := dist (c2 v) (c3 v) (c4 v) (c5 v) in
  let d20 := dist (c4 v) (c5 v) (c0 v) (c1 v) in
  (nabs (d01 - d12) <? eps) && (nabs (d12 - d20) <? eps) &&
  (nabs (d20 - d01) <? eps).

(** *** Selection toggle, navigation and the key handler *)

(** The search of [toggleSelectTriangle] for another selected triangle: the
    first index below [triangleCount] whose triangle is selected, -1 without
    one. *)
Fixpoint firstSelected (indices : list nat) (ts : list Triangle) : Z :=
  match indices with
  | [] => (-1)%Z
  | i :: rest =>
      match ts !! i with
      | Some t => if selected t then Z.of_nat i else firstSelected rest ts
      | None => firstSelected rest ts
      end
  end.

(** [toggleSelectTriangle(index)].  The read of [triangles[index]] below
    [triangleCount] always finds a triangle when the array and the counter
    agree. *)
Definition toggleSelectTriangle (index : Z) (s : App) : App :=
  if inRange s index then
    match triangleAt s index with
    | Some triangle =>
        let now := negb (selected triangle) in
        let ts := alter (setSelected now) (Z.to_nat index) (triangles s) in
        let selectedIndex :=
          if now then index
          else if (selectedTriangleIndex s =? index)%Z
               then firstSelected (seq 0 (Z.to_nat (triangleCount s))) ts
               else selectedTriangleIndex s in
        mkApp ts selectedIndex (focusedTriangleIndex s) (triangleCount s)
              (nextTriangleId s) true
    | None => s
    end
  else s.

(** [makeEquilateralTriangle(edgeVertices, flipped = false)]. *)
Definition makeEquilateralTriangle (edgeVertices : num * num * num * num)
    (flipped : bool) : Vertices :=
  let '(x1, y1, x2, y2) := edgeVertices in
  let dx := x2 - x1 in
  let dy := y2 - y1 in
  let length := nsqrt (dx * dx + dy * dy) in
  let ux := dx / length in
  let uy := dy / length in
  let perpX := - uy in
  let perpY := ux in
  let '(perpX, perpY) := if flipped then (- perpX, - perpY) else (perpX, perpY) in
  let height := length * nsqrt (num_of 3) / num_of 2 in
  let x3 := (x1 + x2) / num_of 2 + perpX * height in
  let y3 := (y1 + y2) / num_of 2 + perpY * height in
  mkVertices x1 y1 x2 y2 x3 y3.

(** The plain-arrow branch of the key handler: focus and select the
    neighbour on the side, when there is one. *)
Definition navigate (index sd : Z) (s : App) : App :=
  match triangleAt s index with
  | None => s
  | Some triangle =>
      match array_get (neighbors triangle) sd with
      | Some neighbor =>
          let neighborIndex := Z.of_nat neighbor in
          selectTriangle neighborIndex true (focusTriangle neighborIndex s)
      | None => s
      end
  end.

(** The key handler on an arrow key, given the modifier keys and the side
    that [getSideByArrowDirection] has chosen (-1 for none), and on the test
    key [t]. *)
Definition handlerIndex (s : App) : Z :=
  if (focusedTriangleIndex s >=? 0)%Z then focusedTriangleIndex s else 0%Z.

Definition onArrowKey (withCmd withShift withAlt : bool) (sd : Z) (s : App) : App :=
  let index := handlerIndex s in
  match triangleAt s index with
  | None => s
  | Some _ =>
      if (sd <? 0)%Z then s
      else if withCmd && withAlt then snd (createOuterTriangle index sd s)
      else if withAlt then snd (createInnerTriangle index sd s)
      else if withCmd then snd (createAdjacentTriangle index sd s)
      else if withShift then toggleSelectTriangle index s
      else navigate index sd s
  end.

Definition testVertices : Vertices :=
  mkVertices (- dec 7 10) (- dec 4 10) (num_of 0) (- dec 4 10)
             (- dec 35 100) (dec 3 10).

Definition onTestKey (s : App) : App :=
  match triangleAt s (handlerIndex s) with
  | None => s
  | Some _ => snd (addTriangle testVertices None (-1) s)
  end.

(** [hslToRgb(h, s, l)] with its local function [hue2rgb]; [s === 0] holds
    of the two zeros only, the falsy numbers that are below 1. *)
Definition hue2rgb (p q t : num) : num :=
  let t := if t <? num_of 0 then t + num_of 1 else t in
  let t := if t >? num_of 1 then t - num_of 1 else t in
  if t <? num_of 1 / num_of 6 then p + (q - p) * num_of 6 * t
  else if t <? num_of 1 / num_of 2 then q
  else if t <? num_of 2 / num_of 3
       then p + (q - p) * (num_of 2 / num_of 3 - t) * num_of 6
  else p.

Definition isZero (a : num) : bool := nfalsy a && (a <? num_of 1).

Definition hslToRgb (h s l : num) : num * num * num :=
  if isZero s then (l, l, l)
  else
    let q := if l <? dec 1 2 then l * (num_of 1 + s) else l + s - l * s in
    let p := num_of 2 * l - q in
    (hue2rgb p q (h + num_of 1 / num_of 3),
     hue2rgb p q h,
     hue2rgb p q (h - num_of 1 / num_of 3)).

(** *** Vocabulary of the further properties *)

(** All of a triangle but its two display flags. *)
Definition links (t : Triangle) :=
  (id t, vertices t, parent t, parentSide t, children t, neighbors t,
   innerTriangles t, outerTriangles t, center t).

(** The table in which each creation function records the new triangle
    on its source. *)
Definition slotOf (k : nat) (t : Triangle) : list (option ref) :=
  match k with
  | 0%nat => neighbors t
  | 1%nat => innerTriangles t
  | _ => outerTriangles t
  end.

(** The states the key handler can reach from the start state. *)
Inductive reachable : App -> Prop :=
| reachable_start : reachable startApp
| reachable_arrow (withCmd withShift withAlt : bool) (sd : Z) (s : App) :
    reachable s -> reachable (onArrowKey withCmd withShift withAlt sd s)
| reachable_test (s : App) :
    reachable s -> reachable (onTestKey s).

(** Every reference held in a relationship table names a triangle of the
    array. *)
Definition refsBelow (n : nat) (l : list (option ref)) : Prop :=
  forall i r, l !! i = Some (Some r) -> (r < n)%nat.

(** What the handler keeps true: array and counter agree and stay within
    the capacity, identities are the positions, the focus names a triangle
    and no other triangle carries the [focused] flag, the selection index
    is -1 or names a selected triangle, and neighbour references are in
    range. *)
Record invariant (s : App) : Prop := mkInvariant {
  app_length : Z.of_nat (length (triangles s)) = triangleCount s;
  app_next : nextTriangleId s = triangleCount s;
  app_capacity : (0 < triangleCount s <= MAX_TRIANGLES)%Z;
  app_ids : forall i t, triangles s !! i = Some t -> id t = Z.of_nat i;
  app_focus : (0 <= focusedTriangleIndex s < triangleCount s)%Z;
  app_flag :
    forall i t, triangles s !! i = Some t -> focused t = true ->
                Z.of_nat i = focusedTriangleIndex s;
  app_selected :
    selectedTriangleIndex s = (-1)%Z \/
    exists t, triangleAt s (selectedTriangleIndex s) = Some t /\ selected t = true;
  app_neighbors :
    forall i t, triangles s !! i = Some t ->
                refsBelow (length (triangles s)) (neighbors t)
}.

(** The side of the directed segment from (ax, ay) to (bx, by) on which
    (px, py) lies: positive on the left. *)
Definition cross (ax ay bx by_ px py : num) : num :=
  (bx - ax) * (py - ay) - (by_ - ay) * (px - ax).
End Model.
Arguments Vertices : clear implicits.
Arguments Triangle : clear implicits.
Arguments App : clear implicits.
End WebGL.

(** * Properties *)

(** ** The Three.js generation *)

Section ThreeFacts.
Context {num : Type} {N : JSNum num}.
Import Three.

Lemma newTriangle_vertices (v0 v1 : Vector3 num) (rest : list (Vector3 num)) p sd :
  exists t, newTriangle (v0 :: v1 :: rest) p sd = Some t /\
            vertices t = [v0; v1; apex v0 v1] /\
            parent t = p /\ side t = sd /\ neighbors t = ∅ /\
            innerTriangles t = ∅ /\ outerTriangles t = ∅.
Proof.
  unfold newTriangle, makeEquilateral, centerOf. cbn.
  eexists. split; [reflexivity|]. cbn. repeat split.
Qed.

(** C9.  The constructor of the Three.js model keeps the first two of the
    vertices it is given and nothing else of them: whatever follows them in
    the array, the stored triangle is the same, and its third vertex is the
    midpoint of the first two plus the 90-degree counterclockwise normal of
    the edge between them scaled to the equilateral height
    |v0v1| * sqrt 3 / 2. *)
Theorem constructor_keeps_two_vertices (v0 v1 : Vector3 num) (rest : list (Vector3 num)) p sd :
  exists t, newTriangle (v0 :: v1 :: rest) p sd = Some t /\
            vertices t = [v0; v1; apex v0 v1] /\
            apex v0 v1 =
              addVectors (midpointOf v0 v1)
                (multiplyScalar (ccwNormal v0 v1) (equilateralHeight v0 v1)) /\
            forall rest', newTriangle (v0 :: v1 :: rest') p sd = Some t.
Proof.
  destruct (newTriangle_vertices v0 v1 rest p sd) as (t & Ht & Hv & _).
  exists t. repeat split; try assumption.
  intros rest'. rewrite <- Ht. reflexivity.
Qed.

(** *** The focus cursor *)

Lemma setFocusedTriangle_eq (t : option ref) (s : TriangleManager num) :
  setFocusedTriangle t s =
    Some (tt, mkManager (refocus (focusedTriangle s) t (triangles s)) t
                        (selectedTriangles s)).
Proof.
  unfold setFocusedTriangle, bind, gets, when_ref, update, ret, refocus.
  destruct s as [ts [f|] sel], t as [r|]; reflexivity.
Qed.

Lemma links_alter_setFocus b i (ts : list (Triangle num)) :
  links <$> alter (setFocus b) i ts = links <$> ts.
Proof.
  rewrite (list_fmap_alter links (setFocus b) (fun x => x)) by (apply Forall_true; reflexivity).
  apply list_eq. intros j. destruct (decide (i = j)) as [->|Hne].
  - rewrite list_lookup_alter_eq. destruct (_ !! j); reflexivity.
  - rewrite list_lookup_alter_ne by assumption. reflexivity.
Qed.

Lemma links_refocus cur new (ts : list (Triangle num)) :
  links <$> refocus cur new ts = links <$> ts.
Proof.
  unfold refocus. destruct cur, new; rewrite ?links_alter_setFocus; reflexivity.
Qed.

Lemma length_refocus cur new (ts : list (Triangle num)) :
  length (refocus cur new ts) = length ts.
Proof.
  rewrite <- (length_fmap links (refocus cur new ts)), links_refocus.
  apply length_fmap.
Qed.

Lemma lookup_refocus cur new (ts : list (Triangle num)) i t :
  ts !! i = Some t ->
  exists t', refocus cur new ts !! i = Some t' /\ links t' = links t.
Proof.
  intros Hi.
  assert (Hl : (links <$> refocus cur new ts) !! i = Some (links t)).
  { rewrite links_refocus, list_lookup_fmap, Hi. reflexivity. }
  rewrite list_lookup_fmap in Hl.
  destruct (refocus cur new ts !! i) as [t'|]; [|discriminate].
  exists t'. split; [reflexivity|]. cbn in Hl. congruence.
Qed.

Lemma links_neighbors (t t' : Triangle num) :
  links t' = links t -> neighbors t' = neighbors t.
Proof. unfold links. intros H. congruence. Qed.

Lemma links_vertices (t t' : Triangle num) :
  links t' = links t -> vertices t' = vertices t.
Proof. unfold links. intros H. congruence. Qed.

(** C6.  [moveToAdjacentTriangle(side)] navigates from the focused
    triangle T: when T has a neighbour on the side, the focus moves to that
    neighbour, and otherwise nothing at all changes; in both cases the
    array of triangles keeps its length and every triangle keeps its
    vertices and relationship tables, so nothing is created. *)
Theorem navigate_moves_focus_only (s : TriangleManager num) (T : ref) (t : Triangle num) (e : nat) :
  focusedTriangle s = Some T ->
  triangles s !! T = Some t ->
  match neighbors t !! e with
  | Some n =>
      exists s', moveToAdjacentTriangle e s = Some (Some n, s') /\
                 focusedTriangle s' = Some n /\
                 length (triangles s') = length (triangles s) /\
                 links <$> triangles s' = links <$> triangles s
  | None => moveToAdjacentTriangle e s = Some (None, s)
  end.
Proof.
  intros Hf Ht.
  unfold moveToAdjacentTriangle, bind, gets, deref, lift, ret.
  rewrite Hf, Ht. destruct (neighbors t !! e) as [n|]; [|reflexivity].
  rewrite setFocusedTriangle_eq. eexists. split; [reflexivity|].
  cbn [focusedTriangle triangles].
  rewrite length_refocus, links_refocus. repeat split.
Qed.

(** *** Creating an adjacent triangle *)

Lemma lookup_after_push (ts : list (Triangle num)) obj f T :
  T < length ts ->
  alter f T (ts ++ [obj]) !! length ts = Some obj.
Proof.
  intros HT. rewrite list_lookup_alter_ne by lia.
  apply list_lookup_middle. reflexivity.
Qed.

Lemma lookup_parent_after_push (ts : list (Triangle num)) obj f T t :
  ts !! T = Some t ->
  alter f T (ts ++ [obj]) !! T = Some (f t).
Proof.
  intros HT. rewrite list_lookup_alter_eq.
  rewrite lookup_app_l by (eapply lookup_lt_Some; eassumption).
  rewrite HT. reflexivity.
Qed.

Lemma createAdjacentTriangle_fresh_inv (s : TriangleManager num) T t e new s' :
  triangles s !! T = Some t ->
  neighbors t !! e = None ->
  createAdjacentTriangle T e s = Some (new, s') ->
  exists vs obj newSide,
    getAdjacentTriangleVertices t e = Some vs /\
    newTriangle vs (Some T) (Some e) = Some obj /\
    new = length (triangles s) /\
    findAdjacentSide_loop obj (setNeighbor e new t) [0; 1; 2]%nat = Some newSide /\
    s' = mkManager
           (refocus (focusedTriangle s) (Some new)
              (let ts1 := alter (setNeighbor e new) T (triangles s ++ [obj]) in
               match newSide with
               | Some ns => alter (setNeighbor ns T) new ts1
               | None => ts1
               end))
           (Some new) (selectedTriangles s).
Proof.
  intros Ht Hn.
  unfold createAdjacentTriangle, bind, deref, lift. rewrite Ht, Hn.
  destruct (getAdjacentTriangleVertices t e) as [vs|] eqn:Hvs; [|discriminate].
  destruct (newTriangle vs (Some T) (Some e)) as [obj|] eqn:Hobj; [|discriminate].
  unfold addTriangle, update, findAdjacentSide, bind, deref, lift.
  cbn [triangles focusedTriangle selectedTriangles].
  rewrite (lookup_after_push _ _ _ _ (lookup_lt_Some _ _ _ Ht)).
  cbv beta iota. cbn [triangles focusedTriangle selectedTriangles].
  rewrite (lookup_parent_after_push _ _ _ _ _ Ht).
  destruct (findAdjacentSide_loop obj _ _) as [newSide|] eqn:Hloop; [|discriminate].
  destruct newSide as [ns|]; unfold ret; cbv beta iota;
    rewrite setFocusedTriangle_eq; cbn [triangles focusedTriangle selectedTriangles];
    intros [= <- <-];
    [exists vs, obj, (Some ns) | exists vs, obj, None]; repeat split; assumption.
Qed.

Lemma findAdjacentSide_loop_vertices (t1 t2 t1' t2' : Triangle num) sides :
  vertices t1' = vertices t1 -> vertices t2' = vertices t2 ->
  findAdjacentSide_loop t1' t2' sides = findAdjacentSide_loop t1 t2 sides.
Proof.
  intros H1 H2. induction sides as [|sd rest IH]; [reflexivity|].
  cbn [findAdjacentSide_loop]. unfold sideIsShared. rewrite H1, H2, IH.
  reflexivity.
Qed.

(** C7.  When [createAdjacentTriangle(T, e)] has created a new triangle
    and [findAdjacentSide] finds on it the side [r] it shares with T,
    [moveToAdjacentTriangle(r)] from the result moves the focus back to T
    (and creates nothing). *)
Theorem navigate_back_to_source (s : TriangleManager num) (T : ref) (t : Triangle num)
    (e : nat) (new : ref) (s' : TriangleManager num) (r : nat) :
  triangles s !! T = Some t ->
  neighbors t !! e = None ->
  createAdjacentTriangle T e s = Some (new, s') ->
  findAdjacentSide new T s' = Some (Some r, s') ->
  exists s'', moveToAdjacentTriangle r s' = Some (Some T, s'') /\
              focusedTriangle s'' = Some T /\
              length (triangles s'') = length (triangles s').
Proof.
  intros Ht Hn Hc.
  destruct (createAdjacentTriangle_fresh_inv _ _ _ _ _ _ Ht Hn Hc)
    as (vs & obj & newSide & Hvs & Hobj & -> & Hloop & ->).
  clear Hc. pose proof (lookup_lt_Some _ _ _ Ht) as HT.
  cbv zeta.
  set (n := length (triangles s)) in *.
  set (ts1 := alter (setNeighbor e n) T (triangles s ++ [obj])).
  assert (H1n : ts1 !! n = Some obj) by (apply lookup_after_push; exact HT).
  assert (H1T : ts1 !! T = Some (setNeighbor e n t))
    by (apply lookup_parent_after_push; exact Ht).
  clearbody ts1.
  assert (Hfind : forall ts2 objN, ts2 !! n = Some objN -> vertices objN = vertices obj ->
            ts2 !! T = Some (setNeighbor e n t) ->
            findAdjacentSide n T
              (mkManager (refocus (focusedTriangle s) (Some n) ts2) (Some n)
                         (selectedTriangles s)) =
            Some (Some r, mkManager (refocus (focusedTriangle s) (Some n) ts2) (Some n)
                         (selectedTriangles s)) ->
            newSide = Some r).
  { intros ts2 objN H2n Hv H2T Hr.
    destruct (lookup_refocus (focusedTriangle s) (Some n) _ _ _ H2n) as (tN & HFn & HlN).
    destruct (lookup_refocus (focusedTriangle s) (Some n) _ _ _ H2T) as (tT & HFT & HlT).
    unfold findAdjacentSide, bind, deref, lift in Hr.
    cbn [triangles] in Hr. rewrite HFn in Hr. cbv beta iota in Hr.
    cbn [triangles] in Hr. rewrite HFT in Hr. cbv beta iota in Hr.
    rewrite (findAdjacentSide_loop_vertices obj (setNeighbor e n t)) in Hr.
    2:{ rewrite (links_vertices _ _ HlN). exact Hv. }
    2:{ exact (links_vertices _ _ HlT). }
    rewrite Hloop in Hr. congruence. }
  destruct newSide as [ns|]; intros Hr.
  2:{ specialize (Hfind _ _ H1n eq_refl H1T Hr). discriminate. }
  assert (H2n : alter (setNeighbor ns T) n ts1 !! n = Some (setNeighbor ns T obj))
    by (rewrite list_lookup_alter_eq, H1n; reflexivity).
  assert (H2T : alter (setNeighbor ns T) n ts1 !! T = Some (setNeighbor e n t))
    by (rewrite list_lookup_alter_ne by lia; exact H1T).
  specialize (Hfind _ _ H2n eq_refl H2T Hr). injection Hfind as ->.
  destruct (lookup_refocus (focusedTriangle s) (Some n) _ _ _ H2n) as (tN & HFn & HlN).
  unfold moveToAdjacentTriangle, bind, gets, deref, lift, ret.
  cbn [triangles focusedTriangle]. rewrite HFn.
  rewrite (links_neighbors _ _ HlN). cbn [neighbors setNeighbor].
  rewrite lookup_insert_eq. rewrite setFocusedTriangle_eq.
  eexists. split; [reflexivity|]. cbn [triangles focusedTriangle].
  rewrite !length_refocus. split; reflexivity.
Qed.

(** *** The reuse rule of the manager *)

Lemma createAdjacentTriangle_existing (s : TriangleManager num) T t e x :
  triangles s !! T = Some t ->
  neighbors t !! e = Some x ->
  createAdjacentTriangle T e s =
    Some (x, mkManager (refocus (focusedTriangle s) (Some x) (triangles s)) (Some x)
                       (selectedTriangles s)).
Proof.
  intros Ht Hn. unfold createAdjacentTriangle, bind, deref, lift, ret.
  rewrite Ht, Hn, setFocusedTriangle_eq. reflexivity.
Qed.

Lemma createAdjacentTriangle_links_source (s : TriangleManager num) T e new s1 :
  createAdjacentTriangle T e s = Some (new, s1) ->
  exists t1, triangles s1 !! T = Some t1 /\ neighbors t1 !! e = Some new.
Proof.
  intros Hc.
  destruct (triangles s !! T) as [t|] eqn:Ht.
  2:{ unfold createAdjacentTriangle, bind, deref, lift in Hc. rewrite Ht in Hc.
      discriminate. }
  destruct (neighbors t !! e) as [x|] eqn:Hn.
  - rewrite (createAdjacentTriangle_existing _ _ _ _ _ Ht Hn) in Hc.
    injection Hc as <- <-. cbn [triangles].
    destruct (lookup_refocus (focusedTriangle s) (Some x) _ _ _ Ht) as (t1 & H1 & Hl).
    exists t1. split; [exact H1|]. rewrite (links_neighbors _ _ Hl). exact Hn.
  - destruct (createAdjacentTriangle_fresh_inv _ _ _ _ _ _ Ht Hn Hc)
      as (vs & obj & newSide & Hvs & Hobj & -> & Hloop & ->).
    pose proof (lookup_lt_Some _ _ _ Ht) as HT.
    cbv zeta. cbn [triangles].
    set (n := length (triangles s)) in *.
    pose proof (lookup_parent_after_push (triangles s) obj (setNeighbor e n) T t Ht) as H1T.
    assert (H2T : match newSide with
                  | Some ns => alter (setNeighbor ns T) n
                                 (alter (setNeighbor e n) T (triangles s ++ [obj]))
                  | None => alter (setNeighbor e n) T (triangles s ++ [obj])
                  end !! T = Some (setNeighbor e n t)).
    { destruct newSide as [ns|]; [|exact H1T].
      rewrite list_lookup_alter_ne by lia. exact H1T. }
    destruct (lookup_refocus (focusedTriangle s) (Some n) _ _ _ H2T) as (t1 & H1 & Hl).
    exists t1. split; [exact H1|]. rewrite (links_neighbors _ _ Hl).
    cbn [neighbors setNeighbor]. apply lookup_insert_eq.
Qed.

Lemma createAdjacentTriangle_reuse (s : TriangleManager num) T e new s1 :
  createAdjacentTriangle T e s = Some (new, s1) ->
  exists s2, createAdjacentTriangle T e s1 = Some (new, s2) /\
             length (triangles s2) = length (triangles s1) /\
             links <$> triangles s2 = links <$> triangles s1 /\
             focusedTriangle s2 = Some new.
Proof.
  intros Hc.
  destruct (createAdjacentTriangle_links_source _ _ _ _ _ Hc) as (t1 & H1 & Hn).
  rewrite (createAdjacentTriangle_existing _ _ _ _ _ H1 Hn).
  eexists. split; [reflexivity|]. cbn [triangles focusedTriangle].
  rewrite length_refocus, links_refocus. repeat split.
Qed.
(** *** Every derivation on a free slot pushes a triangle *)

Lemma three_vertices (t : Triangle num) :
  length (vertices t) = 3%nat ->
  exists a b c, vertices t = [a; b; c].
Proof.
  destruct (vertices t) as [|a [|b [|c [|d l]]]]; cbn; intros H; try discriminate.
  exists a, b, c. reflexivity.
Qed.

Lemma findAdjacentSide_loop_total (t1 t2 : Triangle num) :
  length (vertices t1) = 3%nat -> length (vertices t2) = 3%nat ->
  exists r, findAdjacentSide_loop t1 t2 [0; 1; 2]%nat = Some r.
Proof.
  intros H1 H2.
  destruct (three_vertices _ H1) as (a & b & c & E1).
  destruct (three_vertices _ H2) as (a' & b' & c' & E2).
  unfold findAdjacentSide_loop, sideIsShared. rewrite E1, E2. cbn.
  repeat match goal with |- context [if ?b then _ else _] => destruct b end;
    eexists; reflexivity.
Qed.

Lemma createAdjacentTriangle_fresh (s : TriangleManager num) T t e :
  triangles s !! T = Some t ->
  length (vertices t) = 3%nat ->
  neighbors t !! e = None ->
  exists s', createAdjacentTriangle T e s = Some (length (triangles s), s') /\
             length (triangles s') = S (length (triangles s)) /\
             focusedTriangle s' = Some (length (triangles s)).
Proof.
  intros Ht H3 Hn.
  destruct (three_vertices _ H3) as (a & b & c & E).
  unfold createAdjacentTriangle, bind, deref, lift. rewrite Ht, Hn.
  assert (Hvs : exists p q w, getAdjacentTriangleVertices t e = Some [p; q; w]).
  { unfold getAdjacentTriangleVertices. rewrite E. cbn.
    destruct e as [|[|e]]; cbn; eauto. }
  destruct Hvs as (p & q & w & ->).
  destruct (newTriangle_vertices p q [w] (Some T) (Some e)) as (obj & -> & Hov & _).
  unfold addTriangle, update, findAdjacentSide, bind, deref, lift.
  cbn [triangles focusedTriangle selectedTriangles].
  rewrite (lookup_after_push _ _ _ _ (lookup_lt_Some _ _ _ Ht)).
  cbv beta iota. cbn [triangles focusedTriangle selectedTriangles].
  rewrite (lookup_parent_after_push _ _ _ _ _ Ht).
  assert (Ho3 : length (vertices obj) = 3%nat) by (rewrite Hov; reflexivity).
  destruct (findAdjacentSide_loop_total obj (setNeighbor e (length (triangles s)) t) Ho3 H3)
    as (r & ->).
  destruct r as [ns|]; unfold ret; cbv beta iota;
    rewrite setFocusedTriangle_eq; cbn [triangles focusedTriangle selectedTriangles];
    eexists; (split; [reflexivity|]); cbn [triangles focusedTriangle];
    rewrite length_refocus, ?length_alter, length_app; cbn [length];
    (split; [lia|reflexivity]).
Qed.

Lemma createInnerTriangle_fresh (s : TriangleManager num) T t e :
  triangles s !! T = Some t ->
  length (vertices t) = 3%nat ->
  (e < 3)%nat ->
  innerTriangles t !! e = None ->
  exists s' v1 v2,
    vertices t !! e = Some v1 /\ vertices t !! ((e + 1) mod 3)%nat = Some v2 /\
    createInnerTriangle T e s = Some (length (triangles s), s') /\
    length (triangles s') = S (length (triangles s)) /\
    focusedTriangle s' = Some (length (triangles s)) /\
    (exists t', triangles s' !! T = Some t' /\
                innerTriangles t' !! e = Some (length (triangles s))) /\
    (exists obj, triangles s' !! length (triangles s) = Some obj /\
                 vertices obj = [v1; center t; apex v1 (center t)] /\
                 innerTriangles obj = ∅).
Proof.
  intros Ht H3 He Hn.
  destruct (three_vertices _ H3) as (a & b & c & E).
  assert (Hvs : exists v1 v2, vertices t !! e = Some v1 /\
                 vertices t !! ((e + 1) mod 3)%nat = Some v2).
  { rewrite E. destruct e as [|[|[|e]]]; cbn; eauto. lia. }
  destruct Hvs as (v1 & v2 & Hv1 & Hv2).
  unfold createInnerTriangle, bind, deref, lift. rewrite Ht, Hn.
  unfold getInnerTriangleVertices. rewrite Hv1, Hv2. cbn [mbind option_bind].
  destruct (newTriangle_vertices v1 (center t) [v2] (Some T) (Some e))
    as (obj & -> & Hov & _ & _ & _ & Hoi & _).
  unfold addTriangle, update, bind, ret.
  cbn [triangles focusedTriangle selectedTriangles].
  rewrite setFocusedTriangle_eq. cbn [triangles focusedTriangle selectedTriangles].
  pose proof (lookup_lt_Some _ _ _ Ht) as HT.
  set (n := length (triangles s)) in *.
  pose proof (lookup_parent_after_push (triangles s) obj (setInner e n) T t Ht) as H1T.
  pose proof (lookup_after_push (triangles s) obj (setInner e n) T HT) as H1n.
  destruct (lookup_refocus (focusedTriangle s) (Some n) _ _ _ H1T) as (t' & HT' & Hl').
  destruct (lookup_refocus (focusedTriangle s) (Some n) _ _ _ H1n) as (o' & Hn' & Hlo).
  eexists. exists v1, v2. split; [reflexivity|]. split; [reflexivity|].
  split; [reflexivity|]. cbn [triangles focusedTriangle].
  rewrite length_refocus, length_alter, length_app. cbn [length].
  split; [lia|]. split; [reflexivity|]. split.
  - exists t'. split; [exact HT'|].
    unfold links in Hl'. injection Hl' as _ _ _ _ -> _ _ _. cbn. apply lookup_insert_eq.
  - exists o'. split; [exact Hn'|]. rewrite (links_vertices _ _ Hlo).
    split; [exact Hov|].
    unfold links in Hlo. injection Hlo as _ _ _ _ -> _ _ _. exact Hoi.
Qed.

Lemma createOuterTriangle_fresh (s : TriangleManager num) T t e :
  triangles s !! T = Some t ->
  length (vertices t) = 3%nat ->
  (e < 3)%nat ->
  outerTriangles t !! e = None ->
  exists s', createOuterTriangle T e s = Some (length (triangles s), s') /\
             length (triangles s') = S (length (triangles s)) /\
             focusedTriangle s' = Some (length (triangles s)).
Proof.
  intros Ht H3 He Hn.
  destruct (three_vertices _ H3) as (a & b & c & E).
  assert (Hvs : exists v1 v2, vertices t !! e = Some v1 /\
                 vertices t !! ((e + 1) mod 3)%nat = Some v2).
  { rewrite E. destruct e as [|[|[|e]]]; cbn; eauto. lia. }
  destruct Hvs as (v1 & v2 & Hv1 & Hv2).
  unfold createOuterTriangle, bind, deref, lift. rewrite Ht, Hn.
  unfold getOuterTriangleVertices. rewrite Hv1, Hv2. cbn [mbind option_bind].
  match goal with
  | |- context [newTriangle (v1 :: v2 :: ?r) ?p ?q] =>
      destruct (newTriangle_vertices v1 v2 r p q) as (obj & -> & Hov & _)
  end.
  unfold addTriangle, update, bind, ret.
  cbn [triangles focusedTriangle selectedTriangles].
  rewrite setFocusedTriangle_eq. cbn [triangles focusedTriangle selectedTriangles].
  eexists. split; [reflexivity|]. cbn [triangles focusedTriangle].
  rewrite length_refocus, length_alter, length_app. cbn [length].
  split; [lia|reflexivity].
Qed.
(** On side 0 the constructor undoes the reflection for every arithmetic:
    a triangle that the constructor has stored, hence of the form
    [v0, v1, apex v0 v1], gets as adjacent triangle on side 0 a triangle
    with its own three vertices. *)
Lemma adjacent_on_side_0_copies_the_source
    (s : TriangleManager num) (T : nat) (t : Triangle num) (v0 v1 : Vector3 num)
    (new : nat) (s' : TriangleManager num) :
  triangles s !! T = Some t ->
  vertices t = [v0; v1; apex v0 v1] ->
  neighbors t !! 0%nat = None ->
  createAdjacentTriangle T 0 s = Some (new, s') ->
  exists nt, triangles s' !! new = Some nt /\ vertices nt = vertices t.
Proof.
  intros Ht Hv Hn Hc.
  destruct (createAdjacentTriangle_fresh_inv _ _ _ _ _ _ Ht Hn Hc)
    as (vs & obj & newSide & Hvs & Hobj & -> & _ & ->).
  unfold getAdjacentTriangleVertices in Hvs. rewrite Hv in Hvs. cbn in Hvs.
  injection Hvs as <-.
  destruct (newTriangle_vertices v0 v1
              [addVectors (apex v0 v1)
                 (multiplyScalar
                    (subVectors (multiplyScalar (addVectors v0 v1) (dec 1 2)) (apex v0 v1))
                    (num_of 2))] (Some T) (Some 0%nat)) as (obj' & Hobj' & Hov & _).
  rewrite Hobj in Hobj'. injection Hobj' as <-.
  pose proof (lookup_lt_Some _ _ _ Ht) as HT. cbv zeta. cbn [triangles].
  set (n := length (triangles s)) in *.
  pose proof (lookup_after_push (triangles s) obj (setNeighbor 0 n) T HT) as H1n.
  fold n in H1n.
  assert (H2n : exists o2, match newSide with
                | Some ns => alter (setNeighbor ns T) n
                               (alter (setNeighbor 0 n) T (triangles s ++ [obj]))
                | None => alter (setNeighbor 0 n) T (triangles s ++ [obj])
                end !! n = Some o2 /\ vertices o2 = vertices obj).
  { destruct newSide as [ns|].
    - rewrite list_lookup_alter_eq, H1n. eexists. split; reflexivity.
    - exists obj. split; [exact H1n|reflexivity]. }
  destruct H2n as (o2 & H2n & Hv2).
  destruct (lookup_refocus (focusedTriangle s) (Some n) _ _ _ H2n) as (nt & Hnt & Hl).
  exists nt. split; [exact Hnt|].
  rewrite (links_vertices _ _ Hl), Hv2, Hov, Hv. reflexivity.
Qed.
(** *** The manager as constructed and as grown *)

Lemma newManager_seed :
  exists (s : TriangleManager num) (t : Triangle num),
    newManager = Some s /\ triangles s = [t] /\ focusedTriangle s = Some 0%nat /\
    length (vertices t) = 3%nat /\ innerTriangles t = ∅ /\
    neighbors t = ∅ /\ outerTriangles t = ∅.
Proof.
  unfold newManager, createInitialTriangle, bind, lift, initialVertices.
  match goal with
  | |- context [newTriangle (?a :: ?b :: ?r) ?p ?q] =>
      destruct (newTriangle_vertices a b r p q) as (obj & -> & Hv & _ & _ & Hn & Hi & Ho)
  end.
  unfold addTriangle. rewrite setFocusedTriangle_eq.
  eexists. exists (setFocus true obj). split; [reflexivity|].
  cbn. rewrite Hv. repeat split; assumption.
Qed.

Lemma grown_spec (n : nat) :
  exists (s : TriangleManager num) (t : Triangle num),
    grown n = Some s /\ length (triangles s) = S n /\
    focusedTriangle s = Some n /\ triangles s !! n = Some t /\
    length (vertices t) = 3%nat /\ innerTriangles t = ∅.
Proof.
  induction n as [|n (s & t & Hg & Hl & Hf & Ht & H3 & Hi)].
  - destruct newManager_seed as (s & t & Hs & Hts & Hf & H3 & Hi & _).
    exists s, t. change (grown 0) with (newManager (N := N)). rewrite Hts.
    repeat split; try assumption.
  - change (grown (S n)) with (growStep (grown n)). rewrite Hg. unfold growStep.
    cbn [mbind option_bind]. rewrite Hf. cbn [mbind option_bind].
    assert (Hfree : innerTriangles t !! 0%nat = None) by (rewrite Hi; apply lookup_empty).
    destruct (createInnerTriangle_fresh s n t 0 Ht H3 ltac:(lia) Hfree)
      as (s' & v1 & v2 & _ & _ & Hc & Hl' & Hf' & _ & (obj & Ho & Hov & Hoi)).
    rewrite Hc. cbn [fmap option_fmap option_map snd].
    exists s', obj. rewrite Hl in *. rewrite Hov.
    repeat split; assumption.
Qed.
End ThreeFacts.

(** ** The WebGL generation *)

Section WebGLFacts.
Context {num : Type} {N : JSNum num}.
Import WebGL.

(** *** Updates in place *)

Lemma fmap_alter_preserved {B} (p : Triangle num -> B) f i (ts : list (Triangle num)) :
  (forall t, p (f t) = p t) ->
  p <$> alter f i ts = p <$> ts.
Proof.
  intros Hp.
  rewrite (list_fmap_alter p f (fun x => x)) by (apply Forall_true; exact Hp).
  apply list_eq. intros j. destruct (decide (i = j)) as [->|Hne].
  - rewrite list_lookup_alter_eq. destruct (_ !! j); reflexivity.
  - rewrite list_lookup_alter_ne by assumption. reflexivity.
Qed.

Lemma fold_alter_seq_lookup (f : Triangle num -> Triangle num) n (ts : list (Triangle num)) i :
  fold_left (fun acc k => alter f k acc) (seq 0 n) ts !! i =
    if decide (i < n)%nat then f <$> ts !! i else ts !! i.
Proof.
  induction n as [|n IH].
  - cbn. destruct (decide (i < 0)%nat); [lia|reflexivity].
  - rewrite seq_S, fold_left_app. cbn [fold_left Nat.add].
    destruct (decide (n = i)) as [->|Hne].
    + rewrite list_lookup_alter_eq, IH.
      destruct (decide (i < i)%nat); [lia|].
      destruct (decide (i < S i)%nat); [reflexivity|lia].
    + rewrite list_lookup_alter_ne by assumption. rewrite IH.
      destruct (decide (i < n)%nat), (decide (i < S n)%nat); try reflexivity; lia.
Qed.

Lemma fold_alter_seq_length (f : Triangle num -> Triangle num) n (ts : list (Triangle num)) :
  length (fold_left (fun acc k => alter f k acc) (seq 0 n) ts) = length ts.
Proof.
  induction n as [|n IH]; [reflexivity|].
  rewrite seq_S, fold_left_app. cbn [fold_left Nat.add].
  rewrite length_alter. exact IH.
Qed.

Lemma fold_alter_seq_preserved {B} (p : Triangle num -> B) f n (ts : list (Triangle num)) :
  (forall t, p (f t) = p t) ->
  p <$> fold_left (fun acc k => alter f k acc) (seq 0 n) ts = p <$> ts.
Proof.
  intros Hp. induction n as [|n IH]; [reflexivity|].
  rewrite seq_S, fold_left_app. cbn [fold_left Nat.add].
  rewrite fmap_alter_preserved by exact Hp. exact IH.
Qed.

Lemma selected_unselect (t : Triangle num) : selected (unselect t) = false.
Proof. unfold unselect. destruct (selected t) eqn:E; [reflexivity|exact E]. Qed.

(** *** [focusTriangle] and [selectTriangle] *)

Lemma focusTriangle_fields index (s : App num) :
  focusedTriangleIndex (focusTriangle index s) = index /\
  triangleCount (focusTriangle index s) = triangleCount s /\
  nextTriangleId (focusTriangle index s) = nextTriangleId s /\
  selectedTriangleIndex (focusTriangle index s) = selectedTriangleIndex s /\
  length (triangles (focusTriangle index s)) = length (triangles s).
Proof.
  unfold focusTriangle.
  destruct (inRange s index), (inRange s (focusedTriangleIndex s));
    cbn; rewrite ?length_alter; repeat split.
Qed.

Lemma focusTriangle_preserved {B} (p : Triangle num -> B) index (s : App num) :
  (forall b t, p (setFocused b t) = p t) ->
  p <$> triangles (focusTriangle index s) = p <$> triangles s.
Proof.
  intros Hp. unfold focusTriangle.
  destruct (inRange s index), (inRange s (focusedTriangleIndex s));
    cbn [triangles]; rewrite ?fmap_alter_preserved by (apply Hp); reflexivity.
Qed.

Lemma selectTriangle_fields index (s : App num) :
  triangleCount (selectTriangle index true s) = triangleCount s /\
  focusedTriangleIndex (selectTriangle index true s) = focusedTriangleIndex s /\
  nextTriangleId (selectTriangle index true s) = nextTriangleId s /\
  length (triangles (selectTriangle index true s)) = length (triangles s).
Proof.
  unfold selectTriangle, clearSelections.
  destruct (inRange s index); cbn;
    rewrite ?length_alter, fold_alter_seq_length; repeat split.
Qed.

Lemma selectTriangle_preserved {B} (p : Triangle num -> B) index (s : App num) :
  (forall b t, p (setSelected b t) = p t) ->
  p <$> triangles (selectTriangle index true s) = p <$> triangles s.
Proof.
  intros Hp. unfold selectTriangle, clearSelections.
  assert (Hu : forall t, p (if selected t then setSelected false t else t) = p t)
    by (intros t; destruct (selected t); [apply Hp|reflexivity]).
  destruct (inRange s index); cbn [triangles];
    rewrite ?fmap_alter_preserved by (apply Hp);
    apply fold_alter_seq_preserved; exact Hu.
Qed.

Lemma selectTriangle_selected (index : nat) (s : App num) i t :
  wellFormed s ->
  (index < length (triangles s))%nat ->
  triangles (selectTriangle (Z.of_nat index) true s) !! i = Some t ->
  (selected t = true <-> i = index).
Proof.
  unfold wellFormed. intros Hwf Hidx.
  unfold selectTriangle, inRange, clearSelections.
  replace ((0 <=? Z.of_nat index)%Z && (Z.of_nat index <? triangleCount s)%Z) with true
    by (symmetry; apply andb_true_intro; split; [apply Z.leb_le|apply Z.ltb_lt]; lia).
  cbn [triangles]. rewrite Nat2Z.id. rewrite <- Hwf, Nat2Z.id.
  destruct (decide (index = i)) as [->|Hne].
  - rewrite list_lookup_alter_eq. intros Hl.
    destruct (fold_left _ _ _ !! i); [|discriminate].
    cbn in Hl. injection Hl as <-. cbn. split; auto.
  - rewrite list_lookup_alter_ne by assumption.
    rewrite fold_alter_seq_lookup. intros Hl.
    destruct (decide (i < length (triangles s))%nat) as [Hlt|Hge].
    + destruct (triangles s !! i) as [t0|]; [|discriminate].
      cbn in Hl. injection Hl as <-.
      fold (unselect t0). rewrite selected_unselect. split; [discriminate|congruence].
    + apply lookup_lt_Some in Hl. lia.
Qed.

Lemma focusAndSelect_fields (new : nat) (s : App num) :
  focusedTriangleIndex (focusAndSelect new s) = Z.of_nat new /\
  triangleCount (focusAndSelect new s) = triangleCount s /\
  length (triangles (focusAndSelect new s)) = length (triangles s).
Proof.
  unfold focusAndSelect.
  destruct (selectTriangle_fields (Z.of_nat new) (focusTriangle (Z.of_nat new) s))
    as (Hc & Hf & _ & Hl).
  destruct (focusTriangle_fields (Z.of_nat new) s) as (Hf' & Hc' & _ & _ & Hl').
  rewrite Hc, Hf, Hl. repeat split; assumption.
Qed.

Lemma focusAndSelect_selected (new : nat) (s : App num) i t :
  wellFormed s ->
  (new < length (triangles s))%nat ->
  triangles (focusAndSelect new s) !! i = Some t ->
  (selected t = true <-> i = new).
Proof.
  intros Hwf Hnew. unfold focusAndSelect.
  destruct (focusTriangle_fields (Z.of_nat new) s) as (_ & Hc' & _ & _ & Hl').
  apply selectTriangle_selected.
  - unfold wellFormed in *. rewrite Hl', Hc'. exact Hwf.
  - rewrite Hl'. exact Hnew.
Qed.

Lemma focusAndSelect_vertices (new : nat) (s : App num) :
  vertices <$> triangles (focusAndSelect new s) = vertices <$> triangles s.
Proof.
  unfold focusAndSelect.
  rewrite selectTriangle_preserved by reflexivity.
  apply focusTriangle_preserved. reflexivity.
Qed.

Lemma selectedSet_singleton (s : App num) (new : nat) :
  (new < length (triangles s))%nat ->
  (forall i t, triangles s !! i = Some t -> (selected t = true <-> i = new)) ->
  selectedSet s = [new].
Proof.
  intros Hnew Hsel. unfold selectedSet.
  rewrite (List.filter_ext_in _ (fun i => Nat.eqb i new)).
  - clear Hsel. induction (length (triangles s)) as [|n IH]; [lia|].
    rewrite seq_S, List.filter_app. cbn [List.filter Nat.add].
    destruct (decide (new = n)) as [->|Hne].
    + rewrite Nat.eqb_refl.
      rewrite (List.filter_ext_in _ (fun _ => false)).
      * clear IH Hnew. induction (seq 0 n) as [|a l IHl]; [reflexivity|exact IHl].
      * intros a Ha. apply in_seq in Ha. apply Nat.eqb_neq. lia.
    + replace (n =? new)%nat with false by (symmetry; apply Nat.eqb_neq; lia).
      rewrite app_nil_r. apply IH. lia.
  - intros i Hi. apply in_seq in Hi.
    destruct (triangles s !! i) as [t|] eqn:Ht.
    + specialize (Hsel i t Ht). destruct (selected t), (Nat.eqb_spec i new);
        try reflexivity; intuition congruence.
    + apply lookup_ge_None in Ht. lia.
Qed.

(** *** [addTriangle] and the registration pattern *)

Lemma addTriangle_full vs p ps (s : App num) :
  (MAX_TRIANGLES <= triangleCount s)%Z ->
  addTriangle vs p ps s = (None, s).
Proof.
  intros Hfull. unfold addTriangle.
  destruct (Z.geb_spec (triangleCount s) MAX_TRIANGLES); [reflexivity|lia].
Qed.

Lemma addTriangle_room vs p ps (s : App num) :
  (triangleCount s < MAX_TRIANGLES)%Z ->
  exists s1,
    addTriangle vs p ps s = (Some (length (triangles s)), s1) /\
    triangleCount s1 = (triangleCount s + 1)%Z /\
    length (triangles s1) = S (length (triangles s)) /\
    vertices <$> triangles s1 = (vertices <$> triangles s) ++ [vs].
Proof.
  intros Hroom. unfold addTriangle.
  destruct (Z.geb_spec (triangleCount s) MAX_TRIANGLES); [lia|].
  eexists. split; [reflexivity|].
  set (ts := match p with
             | Some pr => if (ps >=? 0)%Z then alter _ pr _ else _
             | None => _
             end).
  assert (Hlen : length ts = S (length (triangles s))).
  { subst ts. destruct p; [destruct (ps >=? 0)%Z|];
      rewrite ?length_alter, length_app; cbn; lia. }
  assert (Hv : vertices <$> ts = (vertices <$> triangles s) ++ [vs]).
  { subst ts. destruct p; [destruct (ps >=? 0)%Z|];
      rewrite ?fmap_alter_preserved by reflexivity; rewrite fmap_app; reflexivity. }
  clearbody ts.
  destruct (triangleCount s =? 0)%Z.
  - destruct (focusTriangle_fields 0 (mkApp ts (selectedTriangleIndex s)
               (focusedTriangleIndex s) (triangleCount s) (nextTriangleId s + 1)
               (dataChanged s))) as (_ & Hc & _ & _ & Hl).
    cbn [triangleCount triangles]. rewrite Hc, Hl.
    rewrite focusTriangle_preserved by reflexivity. cbn [triangleCount triangles].
    repeat split; assumption.
  - cbn [triangleCount triangles]. repeat split; assumption.
Qed.

Lemma register_full link nv idx sd (s : App num) :
  (MAX_TRIANGLES <= triangleCount s)%Z ->
  register link nv idx sd s = (None, s).
Proof. intros Hfull. unfold register. rewrite addTriangle_full by exact Hfull. reflexivity. Qed.

Lemma register_room link nv idx sd (s : App num) :
  keepsShape link ->
  wellFormed s ->
  (triangleCount s < MAX_TRIANGLES)%Z ->
  exists s',
    register link nv idx sd s = (Some (length (triangles s)), s') /\
    triangleCount s' = (triangleCount s + 1)%Z /\
    length (triangles s') = S (length (triangles s)) /\
    focusedTriangleIndex s' = Z.of_nat (length (triangles s)) /\
    vertices <$> triangles s' = (vertices <$> triangles s) ++ [nv] /\
    wellFormed s' /\
    (forall i t, triangles s' !! i = Some t ->
                 (selected t = true <-> i = length (triangles s))).
Proof.
  intros Hlink Hwf Hroom. unfold register.
  destruct (addTriangle_room nv (Some (Z.to_nat idx)) sd s Hroom)
    as (s1 & -> & Hc1 & Hl1 & Hv1).
  set (new := length (triangles s)) in *.
  set (s2 := withTriangles (link (Z.to_nat idx) new (triangles s1)) s1).
  destruct (Hlink (Z.to_nat idx) new (triangles s1)) as (Hll & Hlv).
  assert (Hl2 : length (triangles s2) = S new) by (subst s2; cbn; lia).
  assert (Hc2 : triangleCount s2 = (triangleCount s + 1)%Z) by (subst s2; cbn; lia).
  assert (Hwf2 : wellFormed s2).
  { unfold wellFormed in *. rewrite Hl2, Hc2. lia. }
  destruct (focusAndSelect_fields new s2) as (Hf & Hc & Hl).
  eexists. split; [reflexivity|].
  rewrite Hc, Hl, Hf, focusAndSelect_vertices.
  split; [exact Hc2|]. split; [exact Hl2|]. split; [reflexivity|].
  split; [subst s2; cbn [triangles withTriangles]; rewrite Hlv; exact Hv1|].
  split; [unfold wellFormed in *; rewrite Hc, Hl; exact Hwf2|].
  intros i t Hi. apply (focusAndSelect_selected new s2); [exact Hwf2|lia|exact Hi].
Qed.

Lemma register_inv link nv idx sd (s : App num) new s' :
  register link nv idx sd s = (Some new, s') ->
  (triangleCount s < MAX_TRIANGLES)%Z.
Proof.
  intros Hr. destruct (Z.lt_ge_cases (triangleCount s) MAX_TRIANGLES) as [|Hfull];
    [assumption|].
  rewrite register_full in Hr by exact Hfull. discriminate.
Qed.

Lemma keepsShape_linkNeighbors sd : keepsShape (linkNeighbors sd).
Proof.
  intros self new ts. unfold linkNeighbors.
  destruct (alter _ self ts !! new) as [nt|]; [destruct (alter _ self ts !! self) as [t|]|];
    try destruct (matchingSide _ _ _ _);
    rewrite ?length_alter, ?fmap_alter_preserved by reflexivity; split; reflexivity.
Qed.

Lemma keepsShape_alter (f : nat -> Triangle num -> Triangle num) :
  (forall new t, vertices (f new t) = vertices t) ->
  keepsShape (fun self new ts => alter (f new) self ts).
Proof.
  intros Hf self new ts. rewrite length_alter, fmap_alter_preserved by (apply Hf).
  split; reflexivity.
Qed.

Lemma creation_register k idx sd (s : App num) :
  creation k idx sd s =
    match triangleAt s idx with
    | None => (None, s)
    | Some t => register (creationLink k sd) (creationVertices k t sd) idx sd s
    end.
Proof. destruct k as [|[|k]]; reflexivity. Qed.

Lemma keepsShape_creationLink k sd : keepsShape (creationLink k sd).
Proof.
  destruct k as [|[|k]]; cbn [creationLink].
  - apply keepsShape_linkNeighbors.
  - apply (keepsShape_alter (setInnerTriangle sd)). reflexivity.
  - apply (keepsShape_alter (setOuterTriangle sd)). reflexivity.
Qed.
(** *** The creation functions *)

Lemma triangleAt_lookup (s : App num) idx t :
  triangleAt s idx = Some t -> triangles s !! Z.to_nat idx = Some t.
Proof. unfold triangleAt. destruct (idx <? 0)%Z; [discriminate|auto]. Qed.

Lemma selectTriangle_index (index : nat) (s : App num) :
  wellFormed s ->
  (index < length (triangles s))%nat ->
  selectedTriangleIndex (selectTriangle (Z.of_nat index) true s) = Z.of_nat index.
Proof.
  unfold wellFormed. intros Hwf Hidx. unfold selectTriangle, inRange.
  replace ((0 <=? Z.of_nat index)%Z && (Z.of_nat index <? triangleCount s)%Z) with true
    by (symmetry; apply andb_true_intro; split; [apply Z.leb_le|apply Z.ltb_lt]; lia).
  reflexivity.
Qed.

Lemma creation_succeeds k idx sd (s : App num) t :
  wellFormed s ->
  triangleAt s idx = Some t ->
  (triangleCount s < MAX_TRIANGLES)%Z ->
  exists s',
    creation k idx sd s = (Some (length (triangles s)), s') /\
    triangleCount s' = (triangleCount s + 1)%Z /\
    length (triangles s') = S (length (triangles s)) /\
    focusedTriangleIndex s' = Z.of_nat (length (triangles s)) /\
    vertices <$> triangles s' = (vertices <$> triangles s) ++ [creationVertices k t sd] /\
    wellFormed s' /\
    (forall i t', triangles s' !! i = Some t' ->
                  (selected t' = true <-> i = length (triangles s))).
Proof.
  intros Hwf Ht Hroom. rewrite creation_register, Ht.
  apply register_room; [apply keepsShape_creationLink|assumption|assumption].
Qed.

Lemma creation_inv k idx sd (s : App num) new s' :
  creation k idx sd s = (Some new, s') ->
  exists t, triangleAt s idx = Some t /\ (triangleCount s < MAX_TRIANGLES)%Z.
Proof.
  rewrite creation_register. destruct (triangleAt s idx) as [t|]; [|discriminate].
  intros Hr. exists t. split; [reflexivity|]. eapply register_inv. exact Hr.
Qed.

Lemma creation_selects k idx sd (s : App num) new s' :
  wellFormed s ->
  creation k idx sd s = (Some new, s') ->
  selectedSet s' = [new] /\
  (forall i t, triangles s' !! i = Some t -> (selected t = true <-> i = new)).
Proof.
  intros Hwf Hc. destruct (creation_inv _ _ _ _ _ _ Hc) as (t & Ht & Hroom).
  destruct (creation_succeeds k idx sd s t Hwf Ht Hroom)
    as (s'' & Hc' & _ & Hl & _ & _ & _ & Hsel).
  rewrite Hc in Hc'. injection Hc' as -> ->.
  split; [|exact Hsel]. apply selectedSet_singleton; [lia|exact Hsel].
Qed.

(** C10.  In the WebGL implementation a successful creation call, of any
    of the three kinds, leaves exactly the new triangle selected: every
    triangle that was selected before is cleared and the selected set is the
    singleton of the new triangle. *)
Theorem creation_selects_only_new_triangle (s : App num) idx sd new s' :
  wellFormed s ->
  createAdjacentTriangle idx sd s = (Some new, s') \/
  createInnerTriangle idx sd s = (Some new, s') \/
  createOuterTriangle idx sd s = (Some new, s') ->
  selectedSet s' = [new] /\
  (forall i t, triangles s' !! i = Some t -> (selected t = true <-> i = new)).
Proof.
  intros Hwf [Hc|[Hc|Hc]].
  - exact (creation_selects 0 idx sd s new s' Hwf Hc).
  - exact (creation_selects 1 idx sd s new s' Hwf Hc).
  - exact (creation_selects 2 idx sd s new s' Hwf Hc).
Qed.

(** C5 (as amended).  In the WebGL implementation, once [triangleCount] has
    reached [MAX_TRIANGLES] = 10000, each of the three creation calls
    returns [null] and leaves the whole state as it was: no triangle is
    added, the count is the same and no link is written. *)
Theorem creation_rejected_at_capacity (s : App num) idx sd :
  (MAX_TRIANGLES <= triangleCount s)%Z ->
  MAX_TRIANGLES = 10000%Z /\
  createAdjacentTriangle idx sd s = (None, s) /\
  createInnerTriangle idx sd s = (None, s) /\
  createOuterTriangle idx sd s = (None, s).
Proof.
  intros Hfull. split; [reflexivity|].
  pose proof (fun k => creation_register k idx sd s) as Hk.
  assert (Hnone : forall k, creation k idx sd s = (None, s)).
  { intros k. rewrite Hk. destruct (triangleAt s idx); [|reflexivity].
    apply register_full. exact Hfull. }
  repeat split; [exact (Hnone 0%nat)|exact (Hnone 1%nat)|exact (Hnone 2%nat)].
Qed.

(** Well-formedness is an invariant of every operation of the model. *)
Lemma wellFormed_initialApp : wellFormed (initialApp (num := num)).
Proof. reflexivity. Qed.

Lemma wellFormed_creation k idx sd (s : App num) :
  wellFormed s -> wellFormed (snd (creation k idx sd s)).
Proof.
  intros Hwf. destruct (triangleAt s idx) as [t|] eqn:Ht.
  - destruct (Z.lt_ge_cases (triangleCount s) MAX_TRIANGLES) as [Hroom|Hfull].
    + destruct (creation_succeeds k idx sd s t Hwf Ht Hroom) as (s' & -> & _ & _ & _ & _ & Hw & _).
      exact Hw.
    + rewrite creation_register, Ht, register_full by exact Hfull. exact Hwf.
  - rewrite creation_register, Ht. exact Hwf.
Qed.
(** No creation function of the WebGL implementation ever answers with an
    existing triangle: a successful call returns the next free position. *)
Lemma creation_is_always_new k idx sd (s : App num) new s' :
  wellFormed s ->
  creation k idx sd s = (Some new, s') ->
  new = length (triangles s) /\ triangleCount s' = (triangleCount s + 1)%Z.
Proof.
  intros Hwf Hc. destruct (creation_inv _ _ _ _ _ _ Hc) as (t & Ht & Hroom).
  destruct (creation_succeeds k idx sd s t Hwf Ht Hroom) as (s'' & Hc' & Hcount & _).
  rewrite Hc in Hc'. injection Hc' as -> ->. split; [reflexivity|exact Hcount].
Qed.

Lemma wellFormed_startApp : wellFormed (startApp (N := N)).
Proof. reflexivity. Qed.
End WebGLFacts.

(** ** Sides of length zero *)

Section Degenerate.
Context {num : Type} {N : JSNum num}.

(** C2 (as amended).  A chosen side of length zero is not detected by any
    derivation: with room below the capacity, each of the three creation
    functions of the WebGL implementation still registers a new triangle,
    counts it and focuses it, and so does each derivation of the Three.js
    manager whose slot on that side is free.  No error is signalled. *)
Theorem zero_length_side_still_creates
    (s : WebGL.App num) (idx sd : Z) (t : WebGL.Triangle num)
    (m : Three.TriangleManager num) (T e : nat) (tt : Three.Triangle num)
    (v : Three.Vector3 num) :
  WebGL.wellFormed s ->
  WebGL.triangleAt s idx = Some t ->
  WebGL.zeroLengthSide t sd ->
  (WebGL.triangleCount s < WebGL.MAX_TRIANGLES)%Z ->
  Three.triangles m !! T = Some tt ->
  length (Three.vertices tt) = 3%nat ->
  (e < 3)%nat ->
  Three.vertices tt !! e = Some v ->
  Three.vertices tt !! ((e + 1) mod 3)%nat = Some v ->
  Three.neighbors tt !! e = None ->
  Three.innerTriangles tt !! e = None ->
  Three.outerTriangles tt !! e = None ->
  WebGL.created (WebGL.createAdjacentTriangle idx sd s) s /\
  WebGL.created (WebGL.createInnerTriangle idx sd s) s /\
  WebGL.created (WebGL.createOuterTriangle idx sd s) s /\
  Three.created (Three.createAdjacentTriangle T e m) m /\
  Three.created (Three.createInnerTriangle T e m) m /\
  Three.created (Three.createOuterTriangle T e m) m.
Proof.
  intros Hwf Ht _ Hroom HT H3 He _ _ Hn Hi Ho.
  assert (Hw : forall k, WebGL.created (WebGL.creation k idx sd s) s).
  { intros k. destruct (creation_succeeds k idx sd s t Hwf Ht Hroom)
      as (s' & Hc & Hcount & Hlen & Hfoc & _).
    exists s'. repeat split; assumption. }
  split; [exact (Hw 0%nat)|]. split; [exact (Hw 1%nat)|]. split; [exact (Hw 2%nat)|].
  split; [|split].
  - destruct (createAdjacentTriangle_fresh m T tt e HT H3 Hn) as (m' & Hc & Hl & Hf).
    exists m'. repeat split; assumption.
  - destruct (createInnerTriangle_fresh m T tt e HT H3 He Hi)
      as (m' & v1 & v2 & _ & _ & Hc & Hl & Hf & _).
    exists m'. repeat split; assumption.
  - destruct (createOuterTriangle_fresh m T tt e HT H3 He Ho) as (m' & Hc & Hl & Hf).
    exists m'. repeat split; assumption.
Qed.
End Degenerate.


(** ** Geometry in exact arithmetic *)

Section IdealGeometry.
Local Open Scope R_scope.

Lemma Rltb_true (a b : R) : a < b -> Rltb a b = true.
Proof. intros H. unfold Rltb. destruct (Rlt_dec a b); [reflexivity|contradiction]. Qed.

Lemma Rltb_false (a b : R) : b <= a -> Rltb a b = false.
Proof. intros H. unfold Rltb. destruct (Rlt_dec a b); [lra|reflexivity]. Qed.

Lemma Rfalsy_false (a : R) : a <> 0 -> Rfalsy a = false.
Proof. intros H. unfold Rfalsy. destruct (Req_dec_T a 0); [contradiction|reflexivity]. Qed.

Lemma sqrt3_sq : sqrt 3 * sqrt 3 = 3.
Proof. apply sqrt_sqrt. lra. Qed.

Lemma sum_sq_pos (a b : R) : a <> 0 \/ b <> 0 -> 0 < a * a + b * b.
Proof. intros [H|H]; nra. Qed.

Lemma sqrt_between (lo hi x : R) :
  0 <= lo -> lo * lo < x -> x < hi * hi -> 0 <= hi -> lo < sqrt x < hi.
Proof.
  intros Hlo H1 H2 Hhi. split.
  - rewrite <- (sqrt_square lo Hlo). apply sqrt_lt_1; nra.
  - rewrite <- (sqrt_square hi Hhi). apply sqrt_lt_1; nra.
Qed.

(** The apex placed at the equilateral height on either side of a segment
    of non-zero length is at the length of the segment from both ends. *)
Lemma apex_2d (dx dy : R) (flip : bool) :
  dx <> 0 \/ dy <> 0 ->
  let L := sqrt (dx * dx + dy * dy) in
  let h := L * sqrt 3 / 2 in
  let px := if flip then - (dy / L) else dy / L in
  let py := if flip then - (- dx / L) else - dx / L in
  (dx / 2 + px * h) * (dx / 2 + px * h) + (dy / 2 + py * h) * (dy / 2 + py * h)
    = dx * dx + dy * dy /\
  (- dx / 2 + px * h) * (- dx / 2 + px * h) + (- dy / 2 + py * h) * (- dy / 2 + py * h)
    = dx * dx + dy * dy.
Proof.
  intros Hne L h px py.
  pose proof (sum_sq_pos dx dy Hne) as Hq.
  assert (HL : L * L = dx * dx + dy * dy) by (apply sqrt_sqrt; lra).
  assert (HL0 : L <> 0) by (intros E; rewrite E in HL; lra).
  pose proof sqrt3_sq as H3.
  assert (Hpx : px * h = (if flip then -1 else 1) * (dy * sqrt 3 / 2)).
  { subst px h. destruct flip; field; exact HL0. }
  assert (Hpy : py * h = (if flip then -1 else 1) * (- dx * sqrt 3 / 2)).
  { subst py h. destruct flip; field; exact HL0. }
  rewrite Hpx, Hpy. clear Hpx Hpy. set (r := sqrt 3) in *.
  split; destruct flip; nra.
Qed.

Lemma equal_lengths_within (eps a b c : R) :
  0 < eps -> a = b -> b = c ->
  (Rltb (Rabs (a - b)) eps && Rltb (Rabs (b - c)) eps && Rltb (Rabs (c - a)) eps)%bool = true.
Proof.
  intros Heps -> ->.
  replace (c - c) with 0 by ring. rewrite Rabs_R0, (Rltb_true 0 eps Heps). reflexivity.
Qed.

Lemma webgl_apex_equilateral (x1 y1 x2 y2 eps : R) (flip : bool) :
  0 < eps ->
  x2 - x1 <> 0 \/ y2 - y1 <> 0 ->
  let dx := x2 - x1 in
  let dy := y2 - y1 in
  let L := sqrt (dx * dx + dy * dy) in
  let h := L * sqrt 3 / 2 in
  let px := if flip then - (dy / L) else dy / L in
  let py := if flip then - (- dx / L) else - dx / L in
  let x3 := (x1 + x2) / 2 + px * h in
  let y3 := (y1 + y2) / 2 + py * h in
  WebGL.equilateralWithin (N := ideal) eps (WebGL.mkVertices x1 y1 x2 y2 x3 y3) = true.
Proof.
  intros Heps Hne dx dy L h px py x3 y3.
  destruct (apex_2d dx dy flip Hne) as [A B]. cbv zeta in A, B.
  fold L in A, B. fold h in A, B. fold px in A, B. fold py in A, B.
  unfold WebGL.equilateralWithin, WebGL.dist.
  cbn [WebGL.c0 WebGL.c1 WebGL.c2 WebGL.c3 WebGL.c4 WebGL.c5]. ideal_ops.
  apply equal_lengths_within; [exact Heps| |]; f_equal.
  - fold dx dy. rewrite <- B. unfold x3, y3, dx, dy. field.
  - transitivity (dx * dx + dy * dy).
    + rewrite <- B. unfold x3, y3, dx, dy. field.
    + rewrite <- A. unfold x3, y3, dx, dy. field.
Qed.




(** The inner rule of the WebGL implementation is not equilateral by
    construction, rounding apart: on side 0 of the seed the base is 0.3 long
    and the two other sides are shorter than 0.2. *)
Lemma webgl_inner_of_seed_ideal :
  WebGL.equilateralWithin (N := ideal) (1 / 1000)
    (WebGL.innerVertices (WebGL.newTriangle 0 WebGL.initialVertices None (-1)) 0) = false.
Proof.
  unfold WebGL.equilateralWithin, WebGL.dist, WebGL.innerVertices, WebGL.initialVertices,
    WebGL.TRIANGLE_SIZE.
  cbn [WebGL.getSide WebGL.newTriangle WebGL.vertices WebGL.center Z.eqb fst snd
       WebGL.c0 WebGL.c1 WebGL.c2 WebGL.c3 WebGL.c4 WebGL.c5]. ideal_ops.
  match goal with
  | |- (Rltb (Rabs (sqrt ?a - sqrt ?b)) _ && _ && _)%bool = false =>
      pose proof (sqrt_between (29 / 100) (31 / 100) a) as Ha;
      pose proof (sqrt_between (1 / 10) (2 / 10) b) as Hb;
      set (da := sqrt a) in *; set (db := sqrt b) in *
  end.
  assert (Ha' : 29 / 100 < da < 31 / 100) by (apply Ha; lra).
  assert (Hb' : 1 / 10 < db < 2 / 10) by (apply Hb; lra).
  rewrite (Rltb_false (Rabs (da - db)) (1 / 1000)); [reflexivity|].
  rewrite Rabs_right; lra.
Qed.

(** The perpendicular the constructor uses, in exact arithmetic: a unit
    vector of the plane, orthogonal to the edge and on its left (90 degrees
    counterclockwise); the apex is at the equilateral height from the
    midpoint. *)
Lemma ccwNormal_ideal (v0 v1 : Three.Vector3 R) :
  Three.vx v0 <> Three.vx v1 \/ Three.vy v0 <> Three.vy v1 ->
  let n := Three.ccwNormal (N := ideal) v0 v1 in
  let e := Three.subVectors (N := ideal) v1 v0 in
  Three.vx n * Three.vx n + Three.vy n * Three.vy n = 1 /\
  Three.vz n = 0 /\
  Three.vx n * Three.vx e + Three.vy n * Three.vy e = 0 /\
  0 < Three.vx e * Three.vy n - Three.vy e * Three.vx n.
Proof.
  intros Hne. destruct v0 as [x0 y0 z0], v1 as [x1 y1 z1].
  cbn [Three.vx Three.vy Three.vz] in Hne.
  unfold Three.ccwNormal, Three.normalize, Three.divideScalar, Three.length3,
    Three.multiplyScalar, Three.subVectors.
  cbn [Three.vx Three.vy Three.vz]. ideal_ops.
  set (ex := x1 - x0). set (ey := y1 - y0).
  assert (Hq2 : 0 < ex * ex + ey * ey) by (apply sum_sq_pos; subst ex ey; lra).
  set (P := sqrt (- ey * - ey + ex * ex + 0 * 0)).
  assert (HP : P * P = ex * ex + ey * ey).
  { subst P. rewrite sqrt_sqrt; [ring|nra]. }
  assert (HPpos : 0 < P).
  { subst P. apply sqrt_lt_R0. nra. }
  assert (HP0 : P <> 0) by lra.
  rewrite (Rfalsy_false P HP0).
  assert (Hinv : 1 / P * P = 1) by (field; exact HP0).
  set (k := 1 / P) in *.
  assert (Hk : 0 < k) by (subst k; apply Rdiv_lt_0_compat; lra).
  assert (Hkk : k * k * (ex * ex + ey * ey) = 1).
  { rewrite <- HP. replace (k * k * (P * P)) with ((k * P) * (k * P)) by ring.
    rewrite Hinv. ring. }
  repeat split.
  - replace (- ey * k * (- ey * k) + ex * k * (ex * k))
      with (k * k * (ex * ex + ey * ey)) by ring. exact Hkk.
  - ring.
  - ring.
  - replace (ex * (ex * k) - ey * (- ey * k)) with (k * (ex * ex + ey * ey)) by ring.
    apply Rmult_lt_0_compat; assumption.
Qed.


End IdealGeometry.

(** ** Runs on binary64 *)

Module Binary64Runs.
Import PrimFloat.
#[local] Set Warnings "-inexact-float".

(** The decimal literals of the sources are the nearest doubles. *)
Lemma literals_binary64 :
  dec (N := binary64) 577 1000 = 0.577%float /\
  dec (N := binary64) 1155 1000 = 1.155%float /\
  dec (N := binary64) 3 10 = 0.3%float /\
  dec (N := binary64) 1 1000 = 0.001%float /\
  dec (N := binary64) 1 10000 = 0.0001%float /\
  dec (N := binary64) 15 10 = 1.5%float.
Proof. vm_compute. repeat split. Qed.

(** C1.  In the WebGL implementation the second [createAdjacentTriangle(0,
    0)] from the start state does not return the triangle of the first call:
    it registers a third triangle, with the vertices of the second, and
    overwrites the neighbour link of the source. *)
Theorem webgl_createAdjacent_twice_creates_twice :
  let s0 := WebGL.startApp (N := binary64) in
  let r1 := WebGL.createAdjacentTriangle 0 0 s0 in
  let r2 := WebGL.createAdjacentTriangle 0 0 (snd r1) in
  fst r1 = Some 1%nat /\ fst r2 = Some 2%nat /\
  WebGL.triangleCount s0 = 1%Z /\
  WebGL.triangleCount (snd r1) = 2%Z /\
  WebGL.triangleCount (snd r2) = 3%Z /\
  WebGL.vertices <$> WebGL.triangles (snd r2) !! 2%nat =
    WebGL.vertices <$> WebGL.triangles (snd r2) !! 1%nat /\
  WebGL.neighbors <$> WebGL.triangles (snd r1) !! 0%nat = Some [Some 1%nat; None; None] /\
  WebGL.neighbors <$> WebGL.triangles (snd r2) !! 0%nat = Some [Some 2%nat; None; None].
Proof. vm_compute. repeat split. Qed.

(** C2, counterexample.  On the triangle of [degenerateApp], whose side 0
    has both ends at (0, 0), [createAdjacentTriangle] signals nothing: it
    returns a new triangle, counts it, links it as neighbour of the source
    and focuses it, and the third vertex of that triangle is NaN. *)
Lemma zero_length_side_is_not_rejected :
  let s := WebGL.degenerateApp (N := binary64) in
  let r := WebGL.createAdjacentTriangle 0 0 s in
  (exists t, WebGL.triangleAt s 0 = Some t /\ WebGL.zeroLengthSide t 0) /\
  fst r = Some 1%nat /\
  WebGL.triangleCount s = 1%Z /\ WebGL.triangleCount (snd r) = 2%Z /\
  WebGL.focusedTriangleIndex (snd r) = 1%Z /\
  WebGL.neighbors <$> WebGL.triangles (snd r) !! 0%nat = Some [Some 1%nat; None; None] /\
  (is_nan ∘ WebGL.c4 ∘ WebGL.vertices) <$> WebGL.triangles (snd r) !! 1%nat = Some true /\
  (is_nan ∘ WebGL.c5 ∘ WebGL.vertices) <$> WebGL.triangles (snd r) !! 1%nat = Some true.
Proof.
  split.
  - eexists. split; [vm_compute; reflexivity|]. vm_compute. split; reflexivity.
  - vm_compute. repeat split.
Qed.


(** C4.  In the Three.js model [createAdjacentTriangle(seed, 0)] asks the
    constructor for [A, B, V], V the reflection of the opposite vertex Q,
    and the constructor stores [A, B, Q]: the new triangle has the three
    vertices of the seed, not two of them, and its third vertex is not V. *)
Theorem three_adjacent_triangle_is_the_seed_again :
  match Three.newManager (N := binary64) with
  | Some s0 =>
      match Three.createAdjacentTriangle 0 0 s0 with
      | Some (new, s1) =>
          match Three.triangles s1 !! 0%nat, Three.triangles s1 !! new with
          | Some seed, Some nt =>
              match Three.vertices seed, Three.getAdjacentTriangleVertices seed 0 with
              | [A; B; Q], Some [A'; B'; V] =>
                  new = 1%nat /\ A' = A /\ B' = B /\
                  V = Three.reflectThrough Q (Three.midpointOf A B) /\
                  Three.vertices nt = [A; B; Q] /\
                  Three.verticesEqual Q V = false /\
                  Three.sharedVertexCount (Three.vertices nt) (Three.vertices seed) = 3%nat
              | _, _ => False
              end
          | _, _ => False
          end
      | None => False
      end
  | None => False
  end.
Proof. vm_compute. repeat split. Qed.

(** C8.  In the Three.js model [createInnerTriangle(seed, 0)] asks the
    constructor for [A, C, B] and the constructor stores [A, C, X], X the
    apex it computes on the edge from A to C: the third vertex of the stored
    triangle is not B.  The triangle is stored in the inner slot 0 of the
    seed. *)
Theorem three_inner_triangle_loses_its_third_vertex :
  match Three.newManager (N := binary64) with
  | Some s0 =>
      match Three.createInnerTriangle 0 0 s0 with
      | Some (new, s1) =>
          match Three.triangles s0 !! 0%nat, Three.triangles s1 !! 0%nat,
                Three.triangles s1 !! new with
          | Some seed, Some seed', Some nt =>
              match Three.vertices seed, Three.getInnerTriangleVertices seed 0,
                    Three.vertices nt with
              | [A; B; Q], Some [A'; C; B'], [A''; C''; X] =>
                  new = 1%nat /\ A' = A /\ B' = B /\ C = Three.center seed /\
                  A'' = A /\ C'' = C /\ X = Three.apex A C /\
                  Three.verticesEqual X B = false /\
                  Three.innerTriangles seed' !! 0%nat = Some new
              | _, _, _ => False
              end
          | _, _, _ => False
          end
      | None => False
      end
  | None => False
  end.
Proof. vm_compute. repeat split. Qed.

(** C5, counterexample.  The Three.js manager has no ceiling: after 9,999
    derivations from the seed it holds 10,000 triangles and the next
    derivation is not rejected, it adds one more. *)
Lemma three_manager_has_no_ceiling :
  exists s s', Three.grown (N := binary64) (Z.to_nat 9999) = Some s /\
    length (Three.triangles s) = Z.to_nat 10000 /\
    Three.createInnerTriangle (Z.to_nat 9999) 0 s = Some (Z.to_nat 10000, s') /\
    length (Three.triangles s') = Z.to_nat 10001.
Proof.
  destruct (grown_spec (N := binary64) (Z.to_nat 9999)) as (s & t & Hg & Hl & Hf & Ht & H3 & Hi).
  assert (Hfree : Three.innerTriangles t !! 0%nat = None) by (rewrite Hi; apply lookup_empty).
  destruct (createInnerTriangle_fresh s (Z.to_nat 9999) t 0 Ht H3 ltac:(lia) Hfree)
    as (s' & v1 & v2 & _ & _ & Hc & Hl' & _).
  exists s, s'. rewrite Hl in Hc, Hl'.
  replace (Z.to_nat 10000) with (S (Z.to_nat 9999)) by lia.
  replace (Z.to_nat 10001) with (S (S (Z.to_nat 9999))) by lia.
  split; [exact Hg|]. split; [exact Hl|]. split; [exact Hc|exact Hl'].
Qed.

(** The rejection at capacity, on a state whose counter is 10,000. *)
Lemma creation_rejected_at_capacity_witness :
  let s := WebGL.atCapacity (N := binary64) in
  (WebGL.MAX_TRIANGLES <= WebGL.triangleCount s)%Z /\
  WebGL.createAdjacentTriangle 0 0 s = (None, s) /\
  WebGL.createInnerTriangle 0 1 s = (None, s) /\
  WebGL.createOuterTriangle 0 2 s = (None, s).
Proof.
  intros s.
  assert (Hfull : (WebGL.MAX_TRIANGLES <= WebGL.triangleCount s)%Z)
    by (unfold s, WebGL.atCapacity; cbn [WebGL.triangleCount]; lia).
  split; [exact Hfull|].
  split; [exact (proj1 (proj2 (creation_rejected_at_capacity s 0 0 Hfull)))|].
  split; [exact (proj1 (proj2 (proj2 (creation_rejected_at_capacity s 0 1 Hfull))))|].
  exact (proj2 (proj2 (proj2 (creation_rejected_at_capacity s 0 2 Hfull)))).
Defined.

(** The selection after the first creation from the start state. *)
Lemma creation_selects_only_new_triangle_witness :
  let s := WebGL.startApp (N := binary64) in
  let s' := snd (WebGL.createAdjacentTriangle 0 0 s) in
  WebGL.wellFormed s /\ WebGL.selectedSet s' = [1%nat].
Proof.
  intros s s'.
  assert (Hwf : WebGL.wellFormed s) by (vm_compute; reflexivity).
  assert (Hc : WebGL.createAdjacentTriangle 0 0 s = (Some 1%nat, s'))
    by (vm_compute; reflexivity).
  split; [exact Hwf|].
  exact (proj1 (creation_selects_only_new_triangle s 0 0 1%nat s' Hwf (or_introl Hc))).
Defined.

(** Navigation from the triangle created on side 0 of the seed. *)
Lemma navigate_moves_focus_only_witness :
  exists s', Three.moveToAdjacentTriangle 0 (Three.afterAdjacent (N := binary64)) =
               Some (Some 0%nat, s') /\
             Three.focusedTriangle s' = Some 0%nat /\
             length (Three.triangles s') = 2%nat.
Proof.
  set (s := Three.afterAdjacent (N := binary64)).
  assert (Hf : Three.focusedTriangle s = Some 1%nat) by (vm_compute; reflexivity).
  let v := eval vm_compute in (Three.triangles s !! 1%nat) in
  match v with
  | Some ?t =>
      assert (Ht : Three.triangles s !! 1%nat = Some t) by (vm_compute; reflexivity);
      pose proof (navigate_moves_focus_only s 1%nat t 0%nat Hf Ht) as W
  end.
  cbn [Three.neighbors] in W.
  match type of W with
  | match ?o with _ => _ end =>
      assert (Hn : o = Some 0%nat) by (vm_compute; reflexivity); rewrite Hn in W
  end.
  destruct W as (s' & Hm & Hfoc & Hlen & _).
  exists s'. split; [exact Hm|]. split; [exact Hfoc|]. rewrite Hlen. vm_compute. reflexivity.
Defined.

(** Creation on side 0 of the seed, then navigation over the side found. *)
Lemma navigate_back_to_source_witness :
  exists s'', Three.moveToAdjacentTriangle 0 (Three.afterAdjacent (N := binary64)) =
                Some (Some 0%nat, s'') /\
              Three.focusedTriangle s'' = Some 0%nat.
Proof.
  set (s := Three.seedManager (N := binary64)).
  set (s' := Three.afterAdjacent (N := binary64)).
  let v := eval vm_compute in (Three.triangles s !! 0%nat) in
  match v with
  | Some ?t =>
      assert (Ht : Three.triangles s !! 0%nat = Some t) by (vm_compute; reflexivity);
      assert (Hn : Three.neighbors t !! 0%nat = None) by (vm_compute; reflexivity);
      assert (Hc : Three.createAdjacentTriangle 0 0 s = Some (1%nat, s'))
        by (vm_compute; reflexivity);
      assert (Hr : Three.findAdjacentSide 1 0 s' = Some (Some 0%nat, s'))
        by (vm_compute; reflexivity);
      destruct (navigate_back_to_source s 0%nat t 0%nat 1%nat s' 0%nat Ht Hn Hc Hr)
        as (s'' & Hm & Hfoc & _)
  end.
  exists s''. split; assumption.
Defined.

(** Derivations on the degenerate triangles of both implementations. *)
Lemma zero_length_side_still_creates_witness :
  WebGL.created (WebGL.createAdjacentTriangle 0 0 (WebGL.degenerateApp (N := binary64)))
                (WebGL.degenerateApp (N := binary64)) /\
  Three.created (Three.createOuterTriangle 0 0 (Three.degenerateManager (N := binary64)))
                (Three.degenerateManager (N := binary64)).
Proof.
  set (s := WebGL.degenerateApp (N := binary64)).
  set (m := Three.degenerateManager (N := binary64)).
  assert (Hwf : WebGL.wellFormed s) by (vm_compute; reflexivity).
  assert (Hroom : (WebGL.triangleCount s < WebGL.MAX_TRIANGLES)%Z) by (vm_compute; reflexivity).
  let v := eval vm_compute in (WebGL.triangleAt s 0) in
  let w := eval vm_compute in (Three.triangles m !! 0%nat) in
  match v with
  | Some ?t =>
      match w with
      | Some ?tt =>
          assert (Ht : WebGL.triangleAt s 0 = Some t) by (vm_compute; reflexivity);
          assert (Hz : WebGL.zeroLengthSide t 0) by (vm_compute; split; reflexivity);
          assert (HT : Three.triangles m !! 0%nat = Some tt) by (vm_compute; reflexivity);
          assert (H3 : length (Three.vertices tt) = 3%nat) by (vm_compute; reflexivity);
          assert (Hv0 : Three.vertices tt !! 0%nat = Some (Three.mkVector3 0 0 0)%float)
            by (vm_compute; reflexivity);
          assert (Hv1 : Three.vertices tt !! ((0 + 1) mod 3)%nat = Some (Three.mkVector3 0 0 0)%float)
            by (vm_compute; reflexivity);
          assert (Hn : Three.neighbors tt !! 0%nat = None) by (vm_compute; reflexivity);
          assert (Hi : Three.innerTriangles tt !! 0%nat = None) by (vm_compute; reflexivity);
          assert (Ho : Three.outerTriangles tt !! 0%nat = None) by (vm_compute; reflexivity);
          pose proof (zero_length_side_still_creates s 0 0 t m 0%nat 0%nat tt _
                        Hwf Ht Hz Hroom HT H3 ltac:(lia) Hv0 Hv1 Hn Hi Ho) as W
      end
  end.
  split; [exact (proj1 W)|exact (proj2 (proj2 (proj2 (proj2 (proj2 W)))))].
Defined.
End Binary64Runs.

(** * Further properties of the code *)

(** ** The Three.js manager under the key handler *)

Section ThreeHandler.
Context {num : Type} {N : JSNum num}.
Import Three.

Lemma lookup_refocus_flags cur new (ts : list (Triangle num)) i t :
  ts !! i = Some t ->
  exists t', refocus cur new ts !! i = Some t' /\ links t' = links t /\
             selected t' = selected t /\
             focused t' = (if decide (new = Some i) then true
                           else if decide (cur = Some i) then false
                           else focused t).
Proof.
  intros Hi. unfold refocus.
  destruct new as [r|], cur as [c|].
  - destruct (decide (r = i)) as [->|Hr].
    + rewrite list_lookup_alter_eq.
      destruct (decide (c = i)) as [->|Hc].
      * rewrite list_lookup_alter_eq, Hi. cbn. eexists. split; [reflexivity|].
        rewrite decide_True by reflexivity. repeat split.
      * rewrite list_lookup_alter_ne by assumption. rewrite Hi. cbn.
        eexists. split; [reflexivity|]. rewrite decide_True by reflexivity. repeat split.
    + rewrite list_lookup_alter_ne by assumption.
      rewrite decide_False by congruence.
      destruct (decide (c = i)) as [->|Hc].
      * rewrite list_lookup_alter_eq, Hi. cbn. eexists. split; [reflexivity|].
        rewrite decide_True by reflexivity. repeat split.
      * rewrite list_lookup_alter_ne by assumption. rewrite decide_False by congruence.
        exists t. repeat split. assumption.
  - destruct (decide (r = i)) as [->|Hr].
    + rewrite list_lookup_alter_eq, Hi. cbn. eexists. split; [reflexivity|].
      rewrite decide_True by reflexivity. repeat split.
    + rewrite list_lookup_alter_ne by assumption. rewrite decide_False by congruence.
      rewrite decide_False by congruence. exists t. repeat split. assumption.
  - rewrite decide_False by congruence.
    destruct (decide (c = i)) as [->|Hc].
    + rewrite list_lookup_alter_eq, Hi. cbn. eexists. split; [reflexivity|].
      rewrite decide_True by reflexivity. repeat split.
    + rewrite list_lookup_alter_ne by assumption. rewrite decide_False by congruence.
      exists t. repeat split. assumption.
  - rewrite !decide_False by congruence. exists t. repeat split. assumption.
Qed.

Lemma newTriangle_fields (v0 v1 : Vector3 num) (rest : list (Vector3 num)) p sd :
  exists t, newTriangle (v0 :: v1 :: rest) p sd = Some t /\
            vertices t = [v0; v1; apex v0 v1] /\
            parent t = p /\ side t = sd /\ neighbors t = ∅ /\
            innerTriangles t = ∅ /\ outerTriangles t = ∅ /\
            selected t = false /\ focused t = false.
Proof.
  unfold newTriangle, makeEquilateral, centerOf. cbn.
  eexists. split; [reflexivity|]. cbn. repeat split.
Qed.

Lemma newTriangle_inv (vs : list (Vector3 num)) p sd obj :
  newTriangle vs p sd = Some obj ->
  length (vertices obj) = 3%nat /\
  parent obj = p /\ side obj = sd /\ neighbors obj = ∅ /\
  innerTriangles obj = ∅ /\ outerTriangles obj = ∅ /\
  selected obj = false /\ focused obj = false.
Proof.
  destruct vs as [|v0 [|v1 rest]]; try discriminate.
  destruct (newTriangle_fields v0 v1 rest p sd) as (t & -> & Hv & H).
  intros [= <-]. rewrite Hv. split; [reflexivity|exact H].
Qed.

Lemma derive_existing k (s : TriangleManager num) T t e x :
  triangles s !! T = Some t ->
  slotOf k t !! e = Some x ->
  derive k T e s =
    Some (x, mkManager (refocus (focusedTriangle s) (Some x) (triangles s)) (Some x)
                       (selectedTriangles s)).
Proof.
  intros Ht Hn.
  destruct k as [|[|k]]; cbn [derive slotOf] in *;
    unfold createAdjacentTriangle, createInnerTriangle, createOuterTriangle,
      bind, deref, lift, ret;
    rewrite Ht, Hn, setFocusedTriangle_eq; reflexivity.
Qed.

Lemma derive_fresh_inv k (s : TriangleManager num) T t e r s' :
  triangles s !! T = Some t ->
  slotOf k t !! e = None ->
  derive k T e s = Some (r, s') ->
  r = length (triangles s) /\
  exists obj ts2,
    length (vertices obj) = 3%nat /\
    parent obj = Some T /\ side obj = Some e /\ neighbors obj = ∅ /\
    innerTriangles obj = ∅ /\ outerTriangles obj = ∅ /\
    selected obj = false /\ focused obj = false /\
    (ts2 = alter (setSlot k e r) T (triangles s ++ [obj]) \/
     exists ns, k = 0%nat /\
       ts2 = alter (setNeighbor ns T) r (alter (setSlot k e r) T (triangles s ++ [obj]))) /\
    s' = mkManager (refocus (focusedTriangle s) (Some r) ts2) (Some r)
                   (selectedTriangles s).
Proof.
  intros Ht Hn Hc.
  destruct k as [|[|k]]; cbn [derive slotOf setSlot] in *.
  - destruct (createAdjacentTriangle_fresh_inv _ _ _ _ _ _ Ht Hn Hc)
      as (vs & obj & newSide & Hvs & Hobj & -> & Hloop & ->).
    split; [reflexivity|].
    destruct (newTriangle_inv _ _ _ _ Hobj) as (H3 & Hp & Hs & Hnb & Hi & Ho & Hsel & Hf).
    exists obj. cbv zeta.
    destruct newSide as [ns|]; eexists; repeat (split; [eassumption|]);
      (split; [|reflexivity]).
    + right. exists ns. split; reflexivity.
    + left. reflexivity.
  - unfold createInnerTriangle, bind, deref, lift in Hc. rewrite Ht, Hn in Hc.
    destruct (getInnerTriangleVertices t e) as [vs|]; [|discriminate].
    destruct (newTriangle vs (Some T) (Some e)) as [obj|] eqn:Hobj; [|discriminate].
    unfold addTriangle, update, ret in Hc.
    cbn [triangles focusedTriangle selectedTriangles] in Hc.
    rewrite setFocusedTriangle_eq in Hc.
    cbn [triangles focusedTriangle selectedTriangles] in Hc.
    injection Hc as <- <-. split; [reflexivity|].
    destruct (newTriangle_inv _ _ _ _ Hobj) as (H3 & Hp & Hs & Hnb & Hi & Ho & Hsel & Hf).
    exists obj. eexists. repeat (split; [eassumption|]).
    split; [left; reflexivity|reflexivity].
  - unfold createOuterTriangle, bind, deref, lift in Hc. rewrite Ht, Hn in Hc.
    destruct (getOuterTriangleVertices t e) as [vs|]; [|discriminate].
    destruct (newTriangle vs (Some T) (Some e)) as [obj|] eqn:Hobj; [|discriminate].
    unfold addTriangle, update, ret in Hc.
    cbn [triangles focusedTriangle selectedTriangles] in Hc.
    rewrite setFocusedTriangle_eq in Hc.
    cbn [triangles focusedTriangle selectedTriangles] in Hc.
    injection Hc as <- <-. split; [reflexivity|].
    destruct (newTriangle_inv _ _ _ _ Hobj) as (H3 & Hp & Hs & Hnb & Hi & Ho & Hsel & Hf).
    exists obj. eexists. repeat (split; [eassumption|]).
    split; [left; reflexivity|reflexivity].
Qed.

Lemma derive_deref k (s : TriangleManager num) T e r s' :
  derive k T e s = Some (r, s') -> exists t, triangles s !! T = Some t.
Proof.
  intros Hc. destruct (triangles s !! T) as [t|] eqn:Ht; [eauto|].
  destruct k as [|[|k]]; cbn [derive] in Hc;
    unfold createAdjacentTriangle, createInnerTriangle, createOuterTriangle,
      bind, deref, lift in Hc; rewrite Ht in Hc; discriminate.
Qed.


Lemma lookup_refocus_inv cur new (ts : list (Triangle num)) i t' :
  refocus cur new ts !! i = Some t' ->
  exists t, ts !! i = Some t /\ links t' = links t /\
            selected t' = selected t /\
            focused t' = (if decide (new = Some i) then true
                          else if decide (cur = Some i) then false
                          else focused t).
Proof.
  intros Hi. pose proof (lookup_lt_Some _ _ _ Hi) as Hlt.
  rewrite length_refocus in Hlt.
  destruct (lookup_lt_is_Some_2 ts i Hlt) as [t Ht].
  destruct (lookup_refocus_flags cur new ts i t Ht) as (t2 & H2 & Hl & Hs & Hf).
  rewrite Hi in H2. injection H2 as <-. exists t. repeat split; assumption.
Qed.

Lemma links_refsBelow n (t t' : Triangle num) :
  links t' = links t -> refsBelow n t -> refsBelow n t'.
Proof.
  unfold links, refsBelow. intros Hl H e r.
  injection Hl as _ _ _ _ -> -> -> _. apply H.
Qed.

Lemma manager_refsBelow_mono n m (t : Triangle num) :
  (n <= m)%nat -> refsBelow n t -> refsBelow m t.
Proof. intros Hle H e r Hr. specialize (H e r Hr). lia. Qed.

Lemma refsBelow_setSlot k e r n (t : Triangle num) :
  (r < n)%nat -> refsBelow n t -> refsBelow n (setSlot k e r t).
Proof.
  intros Hr H e' r'. specialize (H e' r').
  destruct k as [|[|k]]; cbn; intros [Hx|[Hx|Hx]];
    try (apply H; tauto);
    (destruct (decide (e = e')) as [->|Hne];
      [rewrite lookup_insert_eq in Hx; congruence
      |rewrite lookup_insert_ne in Hx by assumption; apply H; tauto]).
Qed.

Lemma manager_invariant_refocus (s : TriangleManager num) (r : nat) :
  invariant s -> (r < length (triangles s))%nat ->
  invariant (mkManager (refocus (focusedTriangle s) (Some r) (triangles s)) (Some r)
                       (selectedTriangles s)).
Proof.
  intros [Hv Hf Hfl [Hnd Hsel] Hsr Hrefs] Hr.
  split; cbn [triangles focusedTriangle selectedTriangles]; rewrite ?length_refocus.
  - unfold wellFormed in *. cbn [triangles]. apply Forall_lookup. intros i t' Hi.
    destruct (lookup_refocus_inv _ _ _ _ _ Hi) as (t & Ht & Hl & _).
    rewrite (links_vertices _ _ Hl). exact (Forall_lookup_1 _ _ _ _ Hv Ht).
  - exists r. split; [reflexivity|exact Hr].
  - intros i t' Hi. cbn [triangles focusedTriangle] in *.
    destruct (lookup_refocus_inv _ _ _ _ _ Hi) as (t & Ht & _ & _ & Hfo).
    rewrite Hfo. destruct (decide (Some r = Some i)) as [E|E]; [tauto|].
    destruct (decide (focusedTriangle s = Some i)) as [E'|E'].
    + split; [discriminate|]. intros; congruence.
    + split; [|intros; congruence]. intros Hft. apply (Hfl i t Ht) in Hft. congruence.
  - split; [exact Hnd|]. intros i t' Hi. cbn [triangles selectedTriangles] in *.
    destruct (lookup_refocus_inv _ _ _ _ _ Hi) as (t & Ht & _ & Hs & _).
    rewrite Hs. apply Hsel. exact Ht.
  - exact Hsr.
  - apply Forall_lookup. intros i t' Hi.
    destruct (lookup_refocus_inv _ _ _ _ _ Hi) as (t & Ht & Hl & _).
    apply (links_refsBelow _ _ _ Hl). exact (Forall_lookup_1 _ _ _ _ Hrefs Ht).
Qed.

Lemma manager_invariant_push (s : TriangleManager num) (obj : Triangle num) :
  invariant s ->
  length (vertices obj) = 3%nat -> focused obj = false -> selected obj = false ->
  refsBelow (S (length (triangles s))) obj ->
  invariant (mkManager (triangles s ++ [obj]) (focusedTriangle s) (selectedTriangles s)).
Proof.
  intros [Hv (f & Hf & Hlt) Hfl [Hnd Hsel] Hsr Hrefs] H3 Hfo Hso Hro.
  assert (Hlen : length (triangles s ++ [obj]) = S (length (triangles s)))
    by (rewrite length_app; cbn; lia).
  split; cbn [triangles focusedTriangle selectedTriangles]; rewrite ?Hlen.
  - unfold wellFormed in *. cbn [triangles]. apply Forall_app. split; [exact Hv|].
    constructor; [exact H3|constructor].
  - exists f. split; [exact Hf|lia].
  - intros i t Hi. cbn [triangles focusedTriangle] in *.
    apply lookup_app_Some in Hi as [Hi|[Hge Hi]].
    + apply Hfl. exact Hi.
    + apply list_lookup_singleton_Some in Hi as [Hi <-].
      rewrite Hfo, Hf. split; [discriminate|]. intros [= ->]. lia.
  - split; [exact Hnd|]. intros i t Hi. cbn [triangles selectedTriangles] in *.
    apply lookup_app_Some in Hi as [Hi|[Hge Hi]].
    + apply Hsel. exact Hi.
    + apply list_lookup_singleton_Some in Hi as [Hi <-].
      rewrite Hso. split; [discriminate|]. intros Hin.
      rewrite Forall_forall in Hsr. specialize (Hsr _ Hin). lia.
  - eapply Forall_impl; [exact Hsr|]. cbn. intros; lia.
  - apply Forall_app. split.
    + eapply Forall_impl; [exact Hrefs|]. intros t. apply manager_refsBelow_mono. lia.
    + constructor; [exact Hro|constructor].
Qed.

Lemma manager_invariant_alter (s : TriangleManager num) (g : Triangle num -> Triangle num) (i : nat) :
  invariant s ->
  (forall t, vertices (g t) = vertices t /\ focused (g t) = focused t /\
             selected (g t) = selected t) ->
  (forall t, refsBelow (length (triangles s)) t -> refsBelow (length (triangles s)) (g t)) ->
  invariant (mkManager (alter g i (triangles s)) (focusedTriangle s) (selectedTriangles s)).
Proof.
  intros [Hv Hf Hfl [Hnd Hsel] Hsr Hrefs] Hg Hgr.
  assert (Hlook : forall j t', alter g i (triangles s) !! j = Some t' ->
            exists t, triangles s !! j = Some t /\ (t' = t \/ t' = g t)).
  { intros j t' Hj. destruct (decide (i = j)) as [->|Hne].
    - rewrite list_lookup_alter_eq in Hj.
      destruct (triangles s !! j) as [t|]; [|discriminate].
      injection Hj as <-. exists t. split; [reflexivity|right; reflexivity].
    - rewrite list_lookup_alter_ne in Hj by assumption.
      exists t'. split; [exact Hj|left; reflexivity]. }
  split; cbn [triangles focusedTriangle selectedTriangles]; rewrite ?length_alter.
  - unfold wellFormed in *. cbn [triangles]. apply Forall_lookup. intros j t' Hj.
    destruct (Hlook _ _ Hj) as (t & Ht & [->| ->]);
      [|rewrite (proj1 (Hg t))]; exact (Forall_lookup_1 _ _ _ _ Hv Ht).
  - exact Hf.
  - intros j t' Hj. cbn [triangles focusedTriangle] in *.
    destruct (Hlook _ _ Hj) as (t & Ht & [->| ->]);
      [|rewrite (proj1 (proj2 (Hg t)))]; apply Hfl; exact Ht.
  - split; [exact Hnd|]. intros j t' Hj. cbn [triangles selectedTriangles] in *.
    destruct (Hlook _ _ Hj) as (t & Ht & [->| ->]);
      [|rewrite (proj2 (proj2 (Hg t)))]; apply Hsel; exact Ht.
  - exact Hsr.
  - apply Forall_lookup. intros j t' Hj.
    destruct (Hlook _ _ Hj) as (t & Ht & [->| ->]);
      [|apply Hgr]; exact (Forall_lookup_1 _ _ _ _ Hrefs Ht).
Qed.

Lemma setSlot_flags k e r (t : Triangle num) :
  vertices (setSlot k e r t) = vertices t /\ focused (setSlot k e r t) = focused t /\
  selected (setSlot k e r t) = selected t.
Proof. destruct k as [|[|k]]; repeat split. Qed.

(** A derivation keeps the invariant. *)
Lemma manager_invariant_derive k (s : TriangleManager num) T e r s' :
  invariant s -> derive k T e s = Some (r, s') ->
  invariant s' /\ focusedTriangle s' = Some r /\ (r < length (triangles s'))%nat.
Proof.
  intros Hinv Hc.
  destruct (derive_deref _ _ _ _ _ _ Hc) as (t & Ht).
  pose proof (lookup_lt_Some _ _ _ Ht) as HT.
  destruct (slotOf k t !! e) as [x|] eqn:Hn.
  - rewrite (derive_existing _ _ _ _ _ _ Ht Hn) in Hc. injection Hc as <- <-.
    assert (Hx : (x < length (triangles s))%nat).
    { pose proof (Forall_lookup_1 _ _ _ _ (inv_refs _ Hinv) Ht) as Hr.
      apply (Hr e x). destruct k as [|[|k]]; cbn in Hn; tauto. }
    split; [apply manager_invariant_refocus; assumption|].
    cbn [triangles focusedTriangle]. split; [reflexivity|].
    destruct (focusedTriangle s); rewrite !length_alter; exact Hx.
  - destruct (derive_fresh_inv _ _ _ _ _ _ _ Ht Hn Hc)
      as (-> & obj & ts2 & H3 & Hp & Hs & Hnb & Hi & Ho & Hsel & Hfo & Hts2 & ->).
    set (n := length (triangles s)) in *.
    assert (Hro : refsBelow (S n) obj).
    { intros e' r'. rewrite Hnb, Hi, Ho, !lookup_empty. intros [?|[?|?]]; discriminate. }
    pose proof (manager_invariant_push s obj Hinv H3 Hfo Hsel Hro) as H1.
    assert (Hl1 : length (triangles s ++ [obj]) = S n) by (rewrite length_app; cbn; lia).
    pose proof (manager_invariant_alter _ (setSlot k e n) T H1 (setSlot_flags k e n)) as H2.
    cbn [triangles focusedTriangle selectedTriangles] in H2.
    rewrite Hl1 in H2.
    specialize (H2 (fun t0 => refsBelow_setSlot k e n (S n) t0 ltac:(lia))).
    assert (H3' : invariant (mkManager ts2 (focusedTriangle s) (selectedTriangles s)) /\
                  length ts2 = S n).
    { destruct Hts2 as [->|(ns & -> & ->)].
      - split; [exact H2|]. rewrite length_alter. exact Hl1.
      - split; [|rewrite !length_alter; exact Hl1].
        pose proof (manager_invariant_alter _ (setNeighbor ns T) n H2 (setSlot_flags 0 ns T)) as H4.
        cbn [triangles focusedTriangle selectedTriangles] in H4.
        rewrite length_alter, Hl1 in H4.
        apply H4. intros t0. apply (refsBelow_setSlot 0 ns T (S n) t0). lia. }
    destruct H3' as [H3' Hl2].
    pose proof (manager_invariant_refocus _ n H3' ltac:(cbn [triangles]; lia)) as H5.
    cbn [triangles focusedTriangle selectedTriangles] in H5.
    split; [exact H5|]. cbn [triangles focusedTriangle].
    rewrite length_refocus. split; [reflexivity|lia].
Qed.


(** *** Selection *)

Lemma indexOf_None (r : nat) (l : list nat) : indexOf r l = None <-> r ∉ l.
Proof.
  induction l as [|x l IH]; cbn.
  - split; [intros _; apply not_elem_of_nil|reflexivity].
  - destruct (Nat.eqb_spec x r) as [->|Hne].
    + split; [discriminate|]. intros H. exfalso. apply H. left.
    + rewrite not_elem_of_cons. destruct (indexOf r l); cbn.
      * split; [discriminate|]. intros [_ H]. apply IH in H. discriminate.
      * split; [|reflexivity]. intros _. split; [congruence|]. apply IH. reflexivity.
Qed.

Lemma indexOf_Some (r : nat) (l : list nat) i : indexOf r l = Some i -> l !! i = Some r.
Proof.
  revert i. induction l as [|x l IH]; cbn; intros i; [discriminate|].
  destruct (Nat.eqb_spec x r) as [->|Hne].
  - intros [= <-]. reflexivity.
  - destruct (indexOf r l) as [j|]; cbn; [|discriminate].
    intros [= <-]. cbn. apply IH. reflexivity.
Qed.

Lemma NoDup_delete_lookup (l : list nat) i r :
  NoDup l -> l !! i = Some r ->
  NoDup (delete i l) /\ (r ∉ delete i l) /\
  forall x, x <> r -> (x ∈ delete i l <-> x ∈ l).
Proof.
  intros Hnd Hi. rewrite delete_take_drop.
  rewrite <- (take_drop_middle l i r Hi) in Hnd.
  assert (Hmem : forall x, x ∈ l <-> (x ∈ take i l \/ x = r \/ x ∈ drop (S i) l)).
  { intros x. rewrite <- (take_drop_middle l i r Hi) at 1.
    rewrite elem_of_app, elem_of_cons. tauto. }
  apply NoDup_app in Hnd as (H1 & H2 & H3).
  apply NoDup_cons in H3 as [H3 H4].
  split; [|split].
  - apply NoDup_app. split; [exact H1|]. split; [|exact H4].
    intros x Hx Hx'. apply (H2 x Hx). right. exact Hx'.
  - rewrite elem_of_app. intros [H|H]; [|tauto].
    apply (H2 r H). left.
  - intros x Hx. rewrite elem_of_app, Hmem. tauto.
Qed.

Lemma toggleTriangleSelection_eq (r : nat) (s : TriangleManager num) :
  toggleTriangleSelection r s =
    Some (tt,
      match indexOf r (selectedTriangles s) with
      | None => mkManager (alter (setSelected true) r (triangles s)) (focusedTriangle s)
                          (selectedTriangles s ++ [r])
      | Some index => mkManager (alter (setSelected false) r (triangles s))
                                (focusedTriangle s) (delete index (selectedTriangles s))
      end).
Proof.
  unfold toggleTriangleSelection, bind, gets, setSelection, update.
  destruct (indexOf r (selectedTriangles s)); reflexivity.
Qed.

Lemma lookup_alter_cases (g : Triangle num -> Triangle num) i (ts : list (Triangle num)) j t' :
  alter g i ts !! j = Some t' ->
  exists t, ts !! j = Some t /\ ((i <> j /\ t' = t) \/ (i = j /\ t' = g t)).
Proof.
  intros Hj. destruct (decide (i = j)) as [->|Hne].
  - rewrite list_lookup_alter_eq in Hj.
    destruct (ts !! j) as [t|]; [|discriminate].
    injection Hj as <-. exists t. split; [reflexivity|right; split; reflexivity].
  - rewrite list_lookup_alter_ne in Hj by assumption.
    exists t'. split; [exact Hj|left; split; [assumption|reflexivity]].
Qed.

Lemma manager_invariant_reselect (s : TriangleManager num) (b : bool) (r : nat) (sel' : list nat) :
  invariant s ->
  NoDup sel' ->
  (r ∈ sel' <-> b = true) ->
  (forall x, x <> r -> (x ∈ sel' <-> x ∈ selectedTriangles s)) ->
  (r < length (triangles s))%nat ->
  invariant (mkManager (alter (setSelected b) r (triangles s)) (focusedTriangle s) sel').
Proof.
  intros [Hv Hf Hfl [Hnd Hsel] Hsr Hrefs] Hnd' Hr Hx Hlt.
  split; cbn [triangles focusedTriangle selectedTriangles]; rewrite ?length_alter.
  - unfold wellFormed in *. cbn [triangles]. apply Forall_lookup. intros j t' Hj.
    pose proof (fun t Ht => Forall_lookup_1 _ _ j t Hv Ht) as HH.
    destruct (lookup_alter_cases _ _ _ _ _ Hj) as (t & Ht & [[_ ->]|[_ ->]]);
      exact (HH t Ht).
  - exact Hf.
  - intros j t' Hj. cbn [triangles focusedTriangle] in *.
    destruct (lookup_alter_cases _ _ _ _ _ Hj) as (t & Ht & [[_ ->]|[_ ->]]);
      exact (Hfl j t Ht).
  - split; [exact Hnd'|]. intros j t' Hj. cbn [triangles selectedTriangles] in *.
    destruct (lookup_alter_cases _ _ _ _ _ Hj) as (t & Ht & [[Hne ->]|[-> ->]]).
    + rewrite Hx by congruence. apply Hsel. exact Ht.
    + cbn. rewrite Hr. reflexivity.
  - apply Forall_forall. intros x Hin. destruct (decide (x = r)) as [->|Hne]; [exact Hlt|].
    rewrite Forall_forall in Hsr. apply Hsr. apply Hx; assumption.
  - apply Forall_lookup. intros j t' Hj.
    pose proof (fun t Ht => Forall_lookup_1 _ _ j t Hrefs Ht) as HH.
    destruct (lookup_alter_cases _ _ _ _ _ Hj) as (t & Ht & [[_ ->]|[_ ->]]);
      exact (HH t Ht).
Qed.

Lemma manager_invariant_toggle (s : TriangleManager num) (r : nat) s' :
  invariant s -> (r < length (triangles s))%nat ->
  toggleTriangleSelection r s = Some (tt, s') ->
  invariant s' /\ focusedTriangle s' = focusedTriangle s /\
  length (triangles s') = length (triangles s) /\
  links <$> triangles s' = links <$> triangles s.
Proof.
  intros Hinv Hr. rewrite toggleTriangleSelection_eq. intros [= <-].
  pose proof (proj1 (inv_selection _ Hinv)) as Hnd.
  assert (Hlinks : forall b, links <$> alter (setSelected b) r (triangles s)
                           = links <$> triangles s).
  { intros b.
    rewrite (list_fmap_alter links (setSelected b) (fun x => x))
      by (apply Forall_true; reflexivity).
    apply list_eq. intros j. destruct (decide (r = j)) as [->|Hne].
    - rewrite list_lookup_alter_eq. destruct (_ !! j); reflexivity.
    - rewrite list_lookup_alter_ne by assumption. reflexivity. }
  destruct (indexOf r (selectedTriangles s)) as [i|] eqn:Hi.
  - apply indexOf_Some in Hi.
    destruct (NoDup_delete_lookup _ _ _ Hnd Hi) as (H1 & H2 & H3).
    split; [|cbn [triangles focusedTriangle]; rewrite length_alter, Hlinks; repeat split].
    apply manager_invariant_reselect; try assumption.
    split; [tauto|discriminate].
  - apply indexOf_None in Hi.
    split; [|cbn [triangles focusedTriangle]; rewrite length_alter, Hlinks; repeat split].
    apply manager_invariant_reselect; try assumption.
    + apply NoDup_app. split; [exact Hnd|]. split; [|apply NoDup_singleton].
      intros x Hx Hx'. apply list_elem_of_singleton in Hx'. congruence.
    + split; [reflexivity|]. intros _. apply elem_of_app. right. apply list_elem_of_singleton.
      reflexivity.
    + intros x Hx. rewrite elem_of_app, list_elem_of_singleton. tauto.
Qed.

Lemma manager_invariant_move (s : TriangleManager num) (sd : nat) :
  invariant s ->
  exists o s', moveToAdjacentTriangle sd s = Some (o, s') /\ invariant s' /\
               match o with
               | Some n => focusedTriangle s' = Some n
               | None => s' = s
               end.
Proof.
  intros Hinv. destruct (inv_focus _ Hinv) as (f & Hf & Hlt).
  destruct (lookup_lt_is_Some_2 _ _ Hlt) as [t Ht].
  unfold moveToAdjacentTriangle, bind, gets, deref, lift, ret. rewrite Hf, Ht.
  destruct (neighbors t !! sd) as [n|] eqn:Hn.
  - rewrite setFocusedTriangle_eq. eexists. eexists. split; [reflexivity|].
    split; [|reflexivity]. apply manager_invariant_refocus; [exact Hinv|].
    pose proof (Forall_lookup_1 _ _ _ _ (inv_refs _ Hinv) Ht) as Hr.
    apply (Hr sd n). tauto.
  - exists None, s. split; [reflexivity|]. split; [exact Hinv|reflexivity].
Qed.

Lemma setFocusedTriangle_invariant (s : TriangleManager num) (r : nat) :
  invariant s -> (r < length (triangles s))%nat ->
  exists s', setFocusedTriangle (Some r) s = Some (tt, s') /\ invariant s'.
Proof.
  intros Hinv Hr. rewrite setFocusedTriangle_eq. eexists. split; [reflexivity|].
  apply manager_invariant_refocus; assumption.
Qed.

Lemma derive_total k (s : TriangleManager num) T t e :
  triangles s !! T = Some t -> length (vertices t) = 3%nat -> (e < 3)%nat ->
  exists r s', derive k T e s = Some (r, s').
Proof.
  intros Ht H3 He.
  destruct (slotOf k t !! e) as [x|] eqn:Hn.
  - rewrite (derive_existing _ _ _ _ _ _ Ht Hn). eauto.
  - destruct k as [|[|k]]; cbn [derive slotOf] in *.
    + destruct (createAdjacentTriangle_fresh s T t e Ht H3 Hn) as (s' & -> & _). eauto.
    + destruct (createInnerTriangle_fresh s T t e Ht H3 He Hn)
        as (s' & v1 & v2 & _ & _ & -> & _). eauto.
    + destruct (createOuterTriangle_fresh s T t e Ht H3 He Hn) as (s' & -> & _). eauto.
Qed.

Lemma handle_create k (s : TriangleManager num) (sd : nat) :
  invariant s -> (sd < 3)%nat ->
  exists s', (match focusedTriangle s with
              | Some focused => bind (derive k focused sd)
                                     (fun new => setFocusedTriangle (Some new))
              | None => ret tt
              end) s = Some (tt, s') /\ invariant s'.
Proof.
  intros Hinv Hsd. destruct (inv_focus _ Hinv) as (f & Hf & Hlt). rewrite Hf.
  destruct (lookup_lt_is_Some_2 _ _ Hlt) as [t Ht].
  pose proof (Forall_lookup_1 _ _ _ _ (inv_vertices _ Hinv) Ht) as H3.
  destruct (derive_total k s f t sd Ht H3 Hsd) as (r & s1 & Hd).
  destruct (manager_invariant_derive _ _ _ _ _ _ Hinv Hd) as (H1 & _ & Hr).
  unfold bind. rewrite Hd.
  apply setFocusedTriangle_invariant; assumption.
Qed.

Lemma handle_invariant (c : Call) (sd : nat) (s : TriangleManager num) :
  invariant s -> (sd < 3)%nat ->
  exists s', handle c sd s = Some (tt, s') /\ invariant s'.
Proof.
  intros Hinv Hsd. destruct c; cbn [handle].
  - exact (handle_create 0 s sd Hinv Hsd).
  - destruct (inv_focus _ Hinv) as (f & Hf & Hlt).
    unfold handlerSelectTriangle, bind at 1, gets. rewrite Hf.
    unfold bind at 1. rewrite toggleTriangleSelection_eq.
    pose proof (toggleTriangleSelection_eq f s) as Ht.
    destruct (manager_invariant_toggle s f _ Hinv Hlt Ht) as (H1 & _ & Hl & _).
    destruct (manager_invariant_move _ sd H1) as (o & s2 & Hm & H2 & Ho).
    unfold bind. rewrite Hm. destruct o as [n|].
    + destruct (inv_focus _ H2) as (f2 & Hf2 & Hlt2).
      rewrite Ho in Hf2. injection Hf2 as <-.
      apply setFocusedTriangle_invariant; assumption.
    + exists s2. split; [reflexivity|exact H2].
  - exact (handle_create 1 s sd Hinv Hsd).
  - exact (handle_create 2 s sd Hinv Hsd).
  - destruct (manager_invariant_move _ sd Hinv) as (o & s2 & Hm & H2 & _).
    unfold handlerNavigateToTriangle, bind, ret. rewrite Hm. eauto.
Qed.

Lemma newManager_invariant :
  exists s : TriangleManager num, newManager = Some s /\ invariant s.
Proof.
  unfold newManager, createInitialTriangle, bind, lift, initialVertices.
  match goal with
  | |- context [newTriangle (?a :: ?b :: ?r) ?p ?q] =>
      destruct (newTriangle_fields a b r p q)
        as (obj & -> & Hv & _ & _ & Hn & Hi & Ho & Hs & Hf)
  end.
  unfold addTriangle. rewrite setFocusedTriangle_eq.
  eexists. split; [reflexivity|]. cbn.
  split; cbn.
  - constructor; [cbn; rewrite Hv; reflexivity|constructor].
  - exists 0%nat. split; [reflexivity|lia].
  - intros [|i] t; cbn; [|discriminate]. intros [= <-]. cbn. tauto.
  - split; [constructor|]. intros [|i] t; cbn; [|discriminate]. intros [= <-]. cbn.
    rewrite Hs. split; [discriminate|]. intros H. apply elem_of_nil in H. contradiction.
  - constructor.
  - constructor; [|constructor]. intros e r. cbn. rewrite Hn, Hi, Ho, !lookup_empty.
    intros [?|[?|?]]; discriminate.
Qed.

Lemma manager_invariant_of_reachable (s : TriangleManager num) :
  reachable s -> invariant s.
Proof.
  induction 1 as [s Hs|c sd s s' Hr IH Hsd Hh].
  - destruct newManager_invariant as (s0 & H0 & Hinv). congruence.
  - destruct (handle_invariant c sd s IH Hsd) as (s2 & H2 & Hinv). congruence.
Qed.

(** X1.  Every manager that the key handler can reach from the constructed
    one, by the calls of [InputHandler] ([createAdjacentTriangle],
    [selectTriangle], [createInnerSubTriangle], [createOuterSubTriangle],
    [navigateToTriangle]) on the sides 0, 1 and 2, satisfies the invariant:
    every triangle has three vertices; the focused triangle is a triangle
    of the array; a triangle carries the [focused] flag exactly when it is
    the focused one; the triangles carrying the [selected] flag are exactly
    those listed in [selectedTriangles], which lists none twice and only
    triangles of the array; and every reference held in a [neighbors],
    [innerTriangles] or [outerTriangles] table names a triangle of the
    array. *)
Theorem reachable_manager_invariant (s : TriangleManager num) :
  reachable s -> invariant s.
Proof.
  induction 1 as [s Hs|c sd s s' Hr IH Hsd Hh].
  - destruct newManager_invariant as (s0 & H0 & Hinv).
    rewrite Hs in H0. injection H0 as <-. exact Hinv.
  - destruct (handle_invariant c sd s IH Hsd) as (s2 & H2 & Hinv).
    rewrite Hh in H2. injection H2 as <-. exact Hinv.
Qed.

(** X2.  On a reachable manager no call of the key handler throws: for
    each of the five calls and each side 0, 1 or 2 it returns a manager
    (which is then reachable too).  In particular the vertex look-ups of
    the three derivations always find their vertices. *)
Theorem handler_never_throws (c : Call) (sd : nat) (s : TriangleManager num) :
  reachable s -> (sd < 3)%nat ->
  exists s', handle c sd s = Some (tt, s') /\ reachable s'.
Proof.
  intros Hr Hsd.
  destruct (handle_invariant c sd s (manager_invariant_of_reachable s Hr) Hsd)
    as (s' & Hh & _).
  exists s'. split; [exact Hh|]. exact (reachable_call c sd s s' Hr Hsd Hh).
Qed.

Lemma links_slotOf k (t t' : Triangle num) :
  links t' = links t -> slotOf k t' = slotOf k t.
Proof.
  unfold links. intros H. injection H as _ _ _ _ Hi Ho Hn _.
  destruct k as [|[|k]]; cbn; assumption.
Qed.

Lemma slotOf_setSlot k e r (t : Triangle num) :
  slotOf k (setSlot k e r t) !! e = Some r.
Proof. destruct k as [|[|k]]; cbn; apply lookup_insert_eq. Qed.

Lemma derive_fresh_lookups k (s : TriangleManager num) T t e r s' :
  triangles s !! T = Some t ->
  slotOf k t !! e = None ->
  derive k T e s = Some (r, s') ->
  r = length (triangles s) /\
  length (triangles s') = S (length (triangles s)) /\
  focusedTriangle s' = Some r /\
  selectedTriangles s' = selectedTriangles s /\
  (exists obj, triangles s' !! r = Some obj /\
               length (vertices obj) = 3%nat /\
               parent obj = Some T /\ side obj = Some e /\
               innerTriangles obj = ∅ /\ outerTriangles obj = ∅ /\
               forall e' x, neighbors obj !! e' = Some x -> x = T) /\
  (exists t', triangles s' !! T = Some t' /\ links t' = links (setSlot k e r t)) /\
  (forall i ti, i <> T -> triangles s !! i = Some ti ->
                exists ti', triangles s' !! i = Some ti' /\ links ti' = links ti).
Proof.
  intros Ht Hn Hc.
  destruct (derive_fresh_inv _ _ _ _ _ _ _ Ht Hn Hc)
    as (-> & obj & ts2 & H3 & Hp & Hs & Hnb & Hi & Ho & Hsel & Hfo & Hts2 & ->).
  pose proof (lookup_lt_Some _ _ _ Ht) as HT.
  set (n := length (triangles s)) in *.
  set (ts1 := alter (setSlot k e n) T (triangles s ++ [obj])) in *.
  assert (H1n : ts1 !! n = Some obj) by (apply lookup_after_push; exact HT).
  assert (H1T : ts1 !! T = Some (setSlot k e n t))
    by (apply lookup_parent_after_push; exact Ht).
  assert (H1i : forall i ti, i <> T -> triangles s !! i = Some ti -> ts1 !! i = Some ti).
  { intros i ti Hne Hti. unfold ts1. rewrite list_lookup_alter_ne by congruence.
    rewrite lookup_app_l by (eapply lookup_lt_Some; eassumption). exact Hti. }
  assert (Hl1 : length ts1 = S n).
  { unfold ts1. rewrite length_alter, length_app. cbn. lia. }
  clearbody ts1.
  assert (H2 : length ts2 = S n /\ ts2 !! T = Some (setSlot k e n t) /\
               (forall i ti, i <> T -> triangles s !! i = Some ti -> ts2 !! i = Some ti) /\
               exists o2, ts2 !! n = Some o2 /\ length (vertices o2) = 3%nat /\
                 parent o2 = Some T /\ side o2 = Some e /\
                 innerTriangles o2 = ∅ /\ outerTriangles o2 = ∅ /\
                 forall e' x, neighbors o2 !! e' = Some x -> x = T).
  { destruct Hts2 as [->|(ns & -> & ->)].
    - split; [exact Hl1|]. split; [exact H1T|]. split; [exact H1i|].
      exists obj. repeat (split; [assumption|]).
      intros e' x. rewrite Hnb, lookup_empty. discriminate.
    - rewrite length_alter. split; [exact Hl1|].
      split; [rewrite list_lookup_alter_ne by lia; exact H1T|].
      split.
      + intros i ti Hne Hti. pose proof (lookup_lt_Some _ _ _ Hti).
        rewrite list_lookup_alter_ne by (fold n in H; lia). apply H1i; assumption.
      + exists (setNeighbor ns T obj). rewrite list_lookup_alter_eq, H1n.
        split; [reflexivity|]. cbn. repeat (split; [assumption|]).
        intros e' x. rewrite Hnb. destruct (decide (ns = e')) as [->|Hne].
        * rewrite lookup_insert_eq. congruence.
        * rewrite lookup_insert_ne by assumption. rewrite lookup_empty. discriminate. }
  destruct H2 as (Hl2 & H2T & H2i & o2 & H2n & Ho3 & Hop & Hos & Hoi & Hoo & Hon).
  cbn [triangles focusedTriangle selectedTriangles]. rewrite length_refocus.
  split; [reflexivity|]. split; [exact Hl2|]. split; [reflexivity|]. split; [reflexivity|].
  split; [|split].
  - destruct (lookup_refocus (focusedTriangle s) (Some n) _ _ _ H2n) as (o3 & H3n & Hl).
    exists o3. split; [exact H3n|]. unfold links in Hl.
    injection Hl as -> -> -> _ -> -> -> _. repeat (split; [assumption|]). exact Hon.
  - destruct (lookup_refocus (focusedTriangle s) (Some n) _ _ _ H2T) as (t' & HT' & Hl).
    exists t'. split; assumption.
  - intros i ti Hne Hti.
    exact (lookup_refocus (focusedTriangle s) (Some n) _ _ _ (H2i i ti Hne Hti)).
Qed.

(** X3.  The reuse rule of the manager, for the three derivations alike
    ([derive] 0 is [createAdjacentTriangle], 1 [createInnerTriangle], 2
    [createOuterTriangle]): once a derivation on triangle T and side e has
    returned a triangle, the same call made again returns that same
    triangle, adds nothing to the array, changes no vertex and no
    relationship table, leaves the selection alone and puts the focus on
    it. *)
Theorem derivation_is_reused (k : nat) (s : TriangleManager num) (T e r : nat)
    (s1 : TriangleManager num) :
  derive k T e s = Some (r, s1) ->
  exists s2, derive k T e s1 = Some (r, s2) /\
             length (triangles s2) = length (triangles s1) /\
             links <$> triangles s2 = links <$> triangles s1 /\
             selectedTriangles s2 = selectedTriangles s1 /\
             focusedTriangle s2 = Some r.
Proof.
  intros Hc.
  assert (H1 : exists t1, triangles s1 !! T = Some t1 /\ slotOf k t1 !! e = Some r).
  { destruct (derive_deref _ _ _ _ _ _ Hc) as (t & Ht).
    destruct (slotOf k t !! e) as [x|] eqn:Hn.
    - rewrite (derive_existing _ _ _ _ _ _ Ht Hn) in Hc.
      assert (x = r) as -> by congruence.
      assert (s1 = mkManager (refocus (focusedTriangle s) (Some r) (triangles s)) (Some r)
                     (selectedTriangles s)) as -> by congruence.
      destruct (lookup_refocus (focusedTriangle s) (Some r) _ _ _ Ht) as (t1 & Ht1 & Hl).
      exists t1. split; [exact Ht1|]. rewrite (links_slotOf k _ _ Hl). exact Hn.
    - destruct (derive_fresh_lookups _ _ _ _ _ _ _ Ht Hn Hc)
        as (_ & _ & _ & _ & _ & (t' & Ht' & Hl) & _).
      exists t'. split; [exact Ht'|]. rewrite (links_slotOf k _ _ Hl).
      apply slotOf_setSlot. }
  destruct H1 as (t1 & Ht1 & Hn1).
  rewrite (derive_existing _ _ _ _ _ _ Ht1 Hn1).
  eexists. split; [reflexivity|]. cbn [triangles focusedTriangle selectedTriangles].
  rewrite length_refocus, links_refocus. repeat split.
Qed.

Lemma refocus_idem cur r (ts : list (Triangle num)) :
  refocus (Some r) (Some r) (refocus cur (Some r) ts) = refocus cur (Some r) ts.
Proof.
  apply list_eq. intros i.
  destruct (refocus cur (Some r) ts !! i) as [t1|] eqn:H1.
  - destruct (lookup_refocus_flags (Some r) (Some r) _ _ _ H1) as (t2 & H2 & Hl & Hs & Hf).
    rewrite H2. f_equal.
    destruct (lookup_refocus_inv _ _ _ _ _ H1) as (t & _ & _ & _ & Hf1).
    destruct t1, t2. unfold links in Hl. cbn in *.
    injection Hl as -> -> -> -> -> -> -> ->. subst.
    destruct (decide (Some r = Some i)); reflexivity.
  - apply lookup_ge_None. apply lookup_ge_None in H1.
    rewrite length_refocus in H1. rewrite !length_refocus. exact H1.
Qed.

Lemma derive_shape k (s : TriangleManager num) T e r s' :
  derive k T e s = Some (r, s') ->
  exists ts2, s' = mkManager (refocus (focusedTriangle s) (Some r) ts2) (Some r)
                             (selectedTriangles s).
Proof.
  intros Hc. destruct (derive_deref _ _ _ _ _ _ Hc) as (t & Ht).
  destruct (slotOf k t !! e) as [x|] eqn:Hn.
  - rewrite (derive_existing _ _ _ _ _ _ Ht Hn) in Hc.
    exists (triangles s). congruence.
  - destruct (derive_fresh_inv _ _ _ _ _ _ _ Ht Hn Hc) as (_ & obj & ts2 & H).
    exists ts2. apply H.
Qed.

Lemma refocus_after_derive k (s : TriangleManager num) (f sd : nat) :
  bind (derive k f sd) (fun new => setFocusedTriangle (Some new)) s =
  bind (derive k f sd) (fun _ => ret tt) s.
Proof.
  unfold bind. destruct (derive k f sd s) as [[r s1]|] eqn:Hc; [|reflexivity].
  destruct (derive_shape _ _ _ _ _ _ Hc) as (ts2 & ->).
  rewrite setFocusedTriangle_eq. cbn [triangles focusedTriangle selectedTriangles].
  rewrite refocus_idem. reflexivity.
Qed.

Lemma refocus_after_move (s : TriangleManager num) (sd : nat) :
  bind (moveToAdjacentTriangle sd)
       (fun neighbor => match neighbor with
                        | Some n => setFocusedTriangle (Some n)
                        | None => ret tt
                        end) s =
  bind (moveToAdjacentTriangle sd) (fun _ => ret tt) s.
Proof.
  unfold bind at 1 2. unfold moveToAdjacentTriangle, bind, gets, deref, lift, ret.
  destruct (focusedTriangle s) as [f|]; [|reflexivity].
  destruct (triangles s !! f) as [t|]; [|reflexivity].
  destruct (neighbors t !! sd) as [n|]; [|reflexivity].
  rewrite setFocusedTriangle_eq. rewrite setFocusedTriangle_eq.
  cbn [triangles focusedTriangle selectedTriangles].
  rewrite refocus_idem. reflexivity.
Qed.

(** X4.  The second [setFocusedTriangle] that the methods of
    [InputHandler] make after the manager call never changes anything: each
    creating method is the manager's creation on the focused triangle, and
    [selectTriangle] is [toggleTriangleSelection] on the focused triangle
    followed by [moveToAdjacentTriangle], also when the manager call
    throws. *)
Theorem handler_refocus_is_redundant (s : TriangleManager num) (f sd : nat) :
  focusedTriangle s = Some f ->
  handlerCreateAdjacentTriangle sd s =
    bind (createAdjacentTriangle f sd) (fun _ => ret tt) s /\
  handlerCreateInnerSubTriangle sd s =
    bind (createInnerTriangle f sd) (fun _ => ret tt) s /\
  handlerCreateOuterSubTriangle sd s =
    bind (createOuterTriangle f sd) (fun _ => ret tt) s /\
  handlerSelectTriangle sd s =
    bind (toggleTriangleSelection f)
         (fun _ => bind (moveToAdjacentTriangle sd) (fun _ => ret tt)) s.
Proof.
  intros Hf.
  split; [|split; [|split]].
  - unfold handlerCreateAdjacentTriangle, bind at 1, gets. rewrite Hf.
    exact (refocus_after_derive 0 s f sd).
  - unfold handlerCreateInnerSubTriangle, bind at 1, gets. rewrite Hf.
    exact (refocus_after_derive 1 s f sd).
  - unfold handlerCreateOuterSubTriangle, bind at 1, gets. rewrite Hf.
    exact (refocus_after_derive 2 s f sd).
  - unfold handlerSelectTriangle, bind at 1, gets. rewrite Hf.
    unfold bind at 1 3. destruct (toggleTriangleSelection f s) as [[[] s1]|]; [|reflexivity].
    apply refocus_after_move.
Qed.

(** X5.  A derivation on a free slot of its table pushes the new triangle
    at the end of the array and records where it came from: the new
    triangle holds the source as [parent] and the side as [side], its inner
    and outer tables are empty and its neighbour table names nothing but
    the source; the source holds the new triangle in the table of the
    derivation under the side and keeps its vertices and centre; every
    other triangle keeps everything but its display flags. *)
Theorem fresh_derivation_records_its_origin (k : nat) (s : TriangleManager num)
    (T : nat) (t : Triangle num) (e r : nat) (s' : TriangleManager num) :
  triangles s !! T = Some t ->
  slotOf k t !! e = None ->
  derive k T e s = Some (r, s') ->
  r = length (triangles s) /\
  length (triangles s') = S (length (triangles s)) /\
  (exists obj, triangles s' !! r = Some obj /\
               parent obj = Some T /\ side obj = Some e /\
               innerTriangles obj = ∅ /\ outerTriangles obj = ∅ /\
               forall e' x, neighbors obj !! e' = Some x -> x = T) /\
  (exists t', triangles s' !! T = Some t' /\ slotOf k t' !! e = Some r /\
              vertices t' = vertices t /\ center t' = center t) /\
  (forall i ti, i <> T -> triangles s !! i = Some ti ->
                exists ti', triangles s' !! i = Some ti' /\ links ti' = links ti).
Proof.
  intros Ht Hn Hc.
  destruct (derive_fresh_lookups _ _ _ _ _ _ _ Ht Hn Hc)
    as (Hr & Hl & _ & _ & (obj & Ho & _ & Hp & Hs & Hi & Hou & Hnb) & (t' & Ht' & Hlt) & Hrest).
  split; [exact Hr|]. split; [exact Hl|]. split; [|split; [|exact Hrest]].
  - exists obj. repeat (split; [assumption|]). exact Hnb.
  - exists t'. split; [exact Ht'|]. rewrite (links_slotOf k _ _ Hlt).
    split; [apply slotOf_setSlot|]. unfold links in Hlt.
    injection Hlt as -> _ _ _ _ _ _ ->. destruct k as [|[|k]]; split; reflexivity.
Qed.

Lemma links_alter_setSelected b r (ts : list (Triangle num)) :
  links <$> alter (setSelected b) r ts = links <$> ts.
Proof.
  rewrite (list_fmap_alter links (setSelected b) (fun x => x))
    by (apply Forall_true; reflexivity).
  apply list_eq. intros j. destruct (decide (r = j)) as [->|Hne].
  - rewrite list_lookup_alter_eq. destruct (_ !! j); reflexivity.
  - rewrite list_lookup_alter_ne by assumption. reflexivity.
Qed.

Lemma toggle_consistent (s : TriangleManager num) (r : nat) :
  selectionConsistent s ->
  exists b sel',
    toggleTriangleSelection r s =
      Some (tt, mkManager (alter (setSelected b) r (triangles s)) (focusedTriangle s) sel') /\
    NoDup sel' /\
    (b = true <-> r ∉ selectedTriangles s) /\
    (r ∈ sel' <-> b = true) /\
    (forall x, x <> r -> (x ∈ sel' <-> x ∈ selectedTriangles s)).
Proof.
  intros [Hnd Hsel]. rewrite toggleTriangleSelection_eq.
  destruct (indexOf r (selectedTriangles s)) as [i|] eqn:Hi.
  - pose proof Hi as Hnone. apply indexOf_Some in Hi.
    destruct (NoDup_delete_lookup _ _ _ Hnd Hi) as (H1 & H2 & H3).
    exists false, (delete i (selectedTriangles s)). split; [reflexivity|].
    split; [exact H1|]. split; [|split; [|exact H3]].
    + split; [discriminate|]. intros Hnot. exfalso. apply Hnot.
      eapply list_elem_of_lookup_2. exact Hi.
    + split; [tauto|discriminate].
  - apply indexOf_None in Hi.
    exists true, (selectedTriangles s ++ [r]). split; [reflexivity|].
    split; [|split; [tauto|split]].
    + apply NoDup_app. split; [exact Hnd|]. split; [|apply NoDup_singleton].
      intros x Hx Hx'. apply list_elem_of_singleton in Hx'. congruence.
    + split; [reflexivity|]. intros _. apply elem_of_app. right.
      apply list_elem_of_singleton. reflexivity.
    + intros x Hx. rewrite elem_of_app, list_elem_of_singleton. tauto.
Qed.

(** X6.  [toggleTriangleSelection] on a manager whose selection is
    consistent (flags agree with the list, no duplicates) flips the
    membership of the triangle in [selectedTriangles] and its flag with it,
    keeps every other membership, keeps the selection consistent, and
    touches neither the focus nor any vertex or relationship table. *)
Theorem toggle_flips_membership (s : TriangleManager num) (r : nat) :
  selectionConsistent s ->
  exists s', toggleTriangleSelection r s = Some (tt, s') /\
             selectionConsistent s' /\
             (r ∈ selectedTriangles s' <-> r ∉ selectedTriangles s) /\
             (forall x, x <> r ->
                        (x ∈ selectedTriangles s' <-> x ∈ selectedTriangles s)) /\
             focusedTriangle s' = focusedTriangle s /\
             links <$> triangles s' = links <$> triangles s.
Proof.
  intros Hc. destruct (toggle_consistent s r Hc) as (b & sel' & -> & Hnd & Hb & Hr & Hx).
  destruct Hc as [_ Hsel].
  eexists. split; [reflexivity|]. cbn [triangles focusedTriangle selectedTriangles].
  split; [|split; [tauto|split; [exact Hx|split; [reflexivity|]]]].
  - split; [exact Hnd|]. cbn [triangles selectedTriangles]. intros j t' Hj.
    destruct (lookup_alter_cases _ _ _ _ _ Hj) as (t & Ht & [[Hne ->]|[-> ->]]).
    + rewrite Hx by congruence. apply Hsel. exact Ht.
    + cbn. tauto.
  - apply links_alter_setSelected.
Qed.

Lemma setSelected_selected (t : Triangle num) : setSelected (selected t) t = t.
Proof. destruct t. reflexivity. Qed.

(** X7.  Toggling the selection of a triangle twice restores the array of
    triangles, flags included, and the selection as a set without
    duplicates (the order of [selectedTriangles] may differ: a triangle
    removed by [splice] comes back at the end). *)
Theorem toggle_twice_restores (s : TriangleManager num) (r : nat) :
  selectionConsistent s ->
  exists s1 s2, toggleTriangleSelection r s = Some (tt, s1) /\
                toggleTriangleSelection r s1 = Some (tt, s2) /\
                triangles s2 = triangles s /\
                focusedTriangle s2 = focusedTriangle s /\
                NoDup (selectedTriangles s2) /\
                forall x, x ∈ selectedTriangles s2 <-> x ∈ selectedTriangles s.
Proof.
  intros Hc. destruct (toggle_consistent s r Hc) as (b & sel1 & H1 & Hnd1 & Hb & Hr1 & Hx1).
  assert (Hc1 : selectionConsistent
                  (mkManager (alter (setSelected b) r (triangles s)) (focusedTriangle s) sel1)).
  { destruct Hc as [_ Hsel]. split; [exact Hnd1|].
    cbn [triangles selectedTriangles]. intros j t' Hj.
    destruct (lookup_alter_cases _ _ _ _ _ Hj) as (t & Ht & [[Hne ->]|[-> ->]]).
    - rewrite Hx1 by congruence. apply Hsel. exact Ht.
    - cbn. tauto. }
  destruct (toggle_consistent _ r Hc1) as (b2 & sel2 & H2 & Hnd2 & Hb2 & Hr2 & Hx2).
  cbn [triangles focusedTriangle selectedTriangles] in *.
  eexists. eexists. split; [exact H1|]. split; [exact H2|].
  cbn [triangles focusedTriangle selectedTriangles].
  split; [|split; [reflexivity|split; [exact Hnd2|]]].
  - apply list_eq. intros j. destruct (decide (r = j)) as [->|Hne].
    + rewrite !list_lookup_alter_eq.
      destruct (triangles s !! j) as [t|] eqn:Ht; [|reflexivity]. cbn. f_equal.
      destruct Hc as [_ Hsel]. specialize (Hsel j t Ht).
      assert (Hflag : b2 = selected t).
      { assert (Hd : false = true -> False) by discriminate.
        assert (Hy : true = true) by reflexivity.
        destruct b, b2, (selected t); try reflexivity; exfalso; tauto. }
      rewrite Hflag. change (setSelected (selected t) (setSelected b t))
        with (setSelected (selected t) t). apply setSelected_selected.
    + rewrite !list_lookup_alter_ne by assumption. reflexivity.
  - intros x. destruct (decide (x = r)) as [->|Hne].
    + assert (Hd : false = true -> False) by discriminate.
      assert (Hy : true = true) by reflexivity.
      destruct (decide (r ∈ selectedTriangles s)); destruct b2, b; tauto.
    + rewrite Hx2, Hx1 by assumption. reflexivity.
Qed.

Lemma fold_unselect_lookup (l : list nat) (ts : list (Triangle num)) i t' :
  fold_left (fun ts r => alter (setSelected false) r ts) l ts !! i = Some t' ->
  exists t, ts !! i = Some t /\ links t' = links t /\ focused t' = focused t /\
            selected t' = (if decide (i ∈ l) then false else selected t).
Proof.
  revert ts t'. induction l as [|r l IH]; intros ts t' Hi; cbn in Hi.
  - exists t'. split; [exact Hi|]. split; [reflexivity|]. split; [reflexivity|].
    rewrite decide_False by apply not_elem_of_nil. reflexivity.
  - destruct (IH _ _ Hi) as (t1 & H1 & Hl & Hf & Hs).
    destruct (lookup_alter_cases _ _ _ _ _ H1) as (t & Ht & [[Hne ->]|[-> ->]]).
    + exists t. split; [exact Ht|]. split; [exact Hl|]. split; [exact Hf|]. rewrite Hs.
      destruct (decide (i ∈ l)) as [Hin|Hin].
      * rewrite decide_True by (right; exact Hin). reflexivity.
      * rewrite decide_False; [reflexivity|]. rewrite not_elem_of_cons. split; congruence.
    + exists t. split; [exact Ht|]. split; [exact Hl|]. split; [exact Hf|].
      rewrite decide_True by left. rewrite Hs. destruct (decide (i ∈ l)); reflexivity.
Qed.

Lemma fold_unselect_links (l : list nat) (ts : list (Triangle num)) :
  links <$> fold_left (fun ts r => alter (setSelected false) r ts) l ts = links <$> ts.
Proof.
  revert ts. induction l as [|r l IH]; intros ts; cbn; [reflexivity|].
  rewrite IH. apply links_alter_setSelected.
Qed.

(** X8.  [clearSelection] on a manager whose selection is consistent
    empties [selectedTriangles] and leaves no triangle with the [selected]
    flag, without touching the focus or any vertex or relationship
    table. *)
Theorem clearSelection_clears (s : TriangleManager num) :
  selectionConsistent s ->
  exists s', clearSelection s = Some (tt, s') /\
             selectedTriangles s' = [] /\
             (forall i t, triangles s' !! i = Some t -> selected t = false) /\
             links <$> triangles s' = links <$> triangles s /\
             focusedTriangle s' = focusedTriangle s.
Proof.
  intros [_ Hsel]. unfold clearSelection. eexists. split; [reflexivity|].
  cbn [triangles focusedTriangle selectedTriangles].
  split; [reflexivity|]. split; [|split; [apply fold_unselect_links|reflexivity]].
  intros i t' Hi. destruct (fold_unselect_lookup _ _ _ _ Hi) as (t & Ht & _ & _ & Hs).
  rewrite Hs. destruct (decide (i ∈ selectedTriangles s)) as [Hin|Hin]; [reflexivity|].
  specialize (Hsel i t Ht). destruct (selected t); [|reflexivity]. tauto.
Qed.


(** X9.  [createAdjacentTriangle] on a free side whose two ends each
    compare equal to themselves and whose opposite vertex compares equal to
    neither end (by [verticesEqual], tolerance 0.0001): [findAdjacentSide]
    then finds side 0 of the new triangle, so the reciprocal neighbour link
    is written on side 0 and [moveToAdjacentTriangle(0)] from the new
    triangle moves the focus back to the source, creating nothing. *)
Theorem adjacent_triangle_links_back_on_side_0 (s : TriangleManager num) (T : nat)
    (t : Triangle num) (e : nat) (s1 s2 o : Vector3 num) :
  triangles s !! T = Some t ->
  length (vertices t) = 3%nat ->
  vertices t !! e = Some s1 ->
  vertices t !! ((e + 1) mod 3)%nat = Some s2 ->
  vertices t !! ((e + 2) mod 3)%nat = Some o ->
  neighbors t !! e = None ->
  verticesEqual s1 s1 = true -> verticesEqual s2 s2 = true ->
  verticesEqual o s1 = false -> verticesEqual o s2 = false ->
  exists s' nt s'',
    createAdjacentTriangle T e s = Some (length (triangles s), s') /\
    triangles s' !! length (triangles s) = Some nt /\
    neighbors nt !! 0%nat = Some T /\
    moveToAdjacentTriangle 0 s' = Some (Some T, s'') /\
    focusedTriangle s'' = Some T /\
    length (triangles s'') = S (length (triangles s)).
Proof.
  intros Ht H3 Hs1 Hs2 Ho Hn Hr1 Hr2 Ho1 Ho2.
  destruct (createAdjacentTriangle_fresh s T t e Ht H3 Hn) as (s' & Hc & Hl' & Hf').
  destruct (createAdjacentTriangle_fresh_inv _ _ _ _ _ _ Ht Hn Hc)
    as (vs & obj & newSide & Hvs & Hobj & _ & Hloop & Hs').
  destruct (three_vertices _ H3) as (a & b & c & E).
  pose proof (lookup_lt_Some _ _ _ Hs1) as He. rewrite H3 in He.
  assert (Hvs' : vs = [s1; s2; reflectThrough o (midpointOf s1 s2)] /\
                 sharedCount s1 s2 [a; b; c] = 2%nat).
  { unfold getAdjacentTriangleVertices in Hvs. rewrite E in Hvs, Hs1, Hs2, Ho.
    unfold sharedCount.
    destruct e as [|[|[|e]]]; [| | |lia]; cbn in Hvs, Hs1, Hs2, Ho;
      injection Hs1 as ->; injection Hs2 as ->; injection Ho as ->;
      injection Hvs as <-; (split; [reflexivity|]);
      cbn [filter list_filter]; rewrite ?Hr1, ?Hr2, ?Ho1, ?Ho2;
      rewrite ?orb_true_r; cbn; rewrite ?Hr1, ?Hr2, ?Ho1, ?Ho2; cbn;
      rewrite ?orb_true_r; reflexivity. }
  destruct Hvs' as [-> Hcount].
  destruct (newTriangle_fields s1 s2 [reflectThrough o (midpointOf s1 s2)] (Some T) (Some e))
    as (obj' & Hobj' & Hov & _ & _ & Hon & _).
  rewrite Hobj in Hobj'. injection Hobj' as <-.
  assert (Hside : newSide = Some 0%nat).
  { assert (H0 : sideIsShared obj (setNeighbor e (length (triangles s)) t) 0 = Some true).
    { unfold sideIsShared. rewrite Hov. cbn [vertices setNeighbor]. rewrite E.
      cbn -[sharedCount]. rewrite Hcount. reflexivity. }
    cbn [findAdjacentSide_loop] in Hloop. rewrite H0 in Hloop. cbn in Hloop. congruence. }
  subst newSide. cbv zeta in Hs'.
  pose proof (lookup_lt_Some _ _ _ Ht) as HT.
  set (n := length (triangles s)) in *.
  assert (H2n : alter (setNeighbor 0 T) n (alter (setNeighbor e n) T (triangles s ++ [obj]))
                !! n = Some (setNeighbor 0 T obj)).
  { rewrite list_lookup_alter_eq, (lookup_after_push _ _ _ _ HT). reflexivity. }
  destruct (lookup_refocus (focusedTriangle s) (Some n) _ _ _ H2n) as (nt & Hnt & Hlnt).
  assert (Hnb : neighbors nt !! 0%nat = Some T).
  { rewrite (links_neighbors _ _ Hlnt). cbn. apply lookup_insert_eq. }
  assert (Hs'eq : triangles s' !! n = Some nt).
  { rewrite Hs'. cbn [triangles]. exact Hnt. }
  exists s', nt. eexists. split; [exact Hc|]. split; [exact Hs'eq|]. split; [exact Hnb|].
  unfold moveToAdjacentTriangle, bind, gets, deref, lift, ret.
  rewrite Hf', Hs'eq, Hnb, setFocusedTriangle_eq.
  split; [reflexivity|]. cbn [triangles focusedTriangle].
  rewrite length_refocus. split; [reflexivity|exact Hl'].
Qed.

End ThreeHandler.

(** ** The WebGL application under the key handler *)

Section WebGLHandler.
Context {num : Type} {N : JSNum num}.
Import WebGL.

Lemma lookup_fmap_eq {B} (p : Triangle num -> B) (ts ts' : list (Triangle num)) i t' :
  p <$> ts' = p <$> ts -> ts' !! i = Some t' ->
  exists t, ts !! i = Some t /\ p t' = p t.
Proof.
  intros Hp Hi.
  assert (H : (p <$> ts) !! i = Some (p t')) by (rewrite <- Hp, list_lookup_fmap, Hi; reflexivity).
  rewrite list_lookup_fmap in H. destruct (ts !! i) as [t|]; [|discriminate].
  exists t. split; [reflexivity|]. cbn in H. congruence.
Qed.

Lemma inRange_true (s : App num) (i : Z) :
  (0 <= i < triangleCount s)%Z -> inRange s i = true.
Proof.
  intros H. unfold inRange. apply andb_true_intro.
  split; [apply Z.leb_le|apply Z.ltb_lt]; lia.
Qed.

Lemma lookup_alter_app (g : Triangle num -> Triangle num) i (ts : list (Triangle num)) j t' :
  alter g i ts !! j = Some t' ->
  exists t, ts !! j = Some t /\ ((i <> j /\ t' = t) \/ (i = j /\ t' = g t)).
Proof.
  intros Hj. destruct (decide (i = j)) as [->|Hne].
  - rewrite list_lookup_alter_eq in Hj.
    destruct (ts !! j) as [t|]; [|discriminate].
    injection Hj as <-. exists t. split; [reflexivity|right; split; reflexivity].
  - rewrite list_lookup_alter_ne in Hj by assumption.
    exists t'. split; [exact Hj|left; split; [assumption|reflexivity]].
Qed.

Lemma triangleAt_nat (s : App num) (i : nat) :
  triangleAt s (Z.of_nat i) = triangles s !! i.
Proof.
  unfold triangleAt. destruct (Z.ltb_spec (Z.of_nat i) 0); [lia|].
  rewrite Nat2Z.id. reflexivity.
Qed.

Lemma triangleAt_Some (s : App num) (idx : Z) t :
  triangleAt s idx = Some t ->
  (0 <= idx)%Z /\ triangles s !! Z.to_nat idx = Some t /\
  (Z.to_nat idx < length (triangles s))%nat.
Proof.
  unfold triangleAt. destruct (Z.ltb_spec idx 0); [discriminate|].
  intros H'. split; [assumption|]. split; [exact H'|].
  eapply lookup_lt_Some. exact H'.
Qed.

(** *** The invariant under the primitive updates *)

Lemma app_invariant_alter (s : App num) (g : Triangle num -> Triangle num) (i : nat) :
  invariant s ->
  (forall t, id (g t) = id t /\ selected (g t) = selected t /\ focused (g t) = focused t) ->
  (forall t, refsBelow (length (triangles s)) (neighbors t) ->
             refsBelow (length (triangles s)) (neighbors (g t))) ->
  invariant (withTriangles (alter g i (triangles s)) s).
Proof.
  intros [Hl Hn Hc Hid Hf Hfl Hsel Hnb] Hg Hr.
  split; cbn [withTriangles triangles selectedTriangleIndex focusedTriangleIndex
              triangleCount nextTriangleId]; rewrite ?length_alter; try assumption.
  - intros j t' Hj.
    destruct (lookup_alter_app _ _ _ _ _ Hj) as (t & Ht & [[_ ->]|[_ ->]]);
      [|rewrite (proj1 (Hg t))]; exact (Hid j t Ht).
  - intros j t' Hj.
    destruct (lookup_alter_app _ _ _ _ _ Hj) as (t & Ht & [[_ ->]|[_ ->]]);
      [|rewrite (proj2 (proj2 (Hg t)))]; exact (Hfl j t Ht).
  - destruct Hsel as [Hsel|(t & Ht & Hs)]; [left; exact Hsel|right].
    destruct (triangleAt_Some _ _ _ Ht) as (H0 & Hlk & _).
    unfold triangleAt. cbn [withTriangles triangles selectedTriangleIndex].
    destruct (Z.ltb_spec (selectedTriangleIndex s) 0); [lia|].
    destruct (decide (i = Z.to_nat (selectedTriangleIndex s))) as [->|Hne].
    + rewrite list_lookup_alter_eq, Hlk. cbn. eexists. split; [reflexivity|].
      rewrite (proj1 (proj2 (Hg t))). exact Hs.
    + rewrite list_lookup_alter_ne by assumption. exists t. split; assumption.
  - intros j t' Hj.
    destruct (lookup_alter_app _ _ _ _ _ Hj) as (t & Ht & [[_ ->]|[_ ->]]);
      [|apply Hr]; exact (Hnb j t Ht).
Qed.

Lemma app_refsBelow_mono n m (l : list (option nat)) :
  (n <= m)%nat -> refsBelow n l -> refsBelow m l.
Proof. intros Hle H i r Hi. specialize (H i r Hi). lia. Qed.

Lemma refsBelow_array_set n (l : list (option nat)) (sd : Z) (v : nat) :
  (v < n)%nat -> refsBelow n l -> refsBelow n (array_set l sd v).
Proof.
  intros Hv H. unfold array_set.
  destruct (sd <? 0)%Z; [exact H|].
  destruct (Nat.ltb_spec (Z.to_nat sd) (length l)) as [Hlt|Hge].
  - intros i r Hi. destruct (decide (Z.to_nat sd = i)) as [<-|Hne].
    + rewrite list_lookup_insert_eq in Hi by assumption. congruence.
    + rewrite list_lookup_insert_ne in Hi by assumption. exact (H i r Hi).
  - intros i r Hi. apply lookup_app_Some in Hi as [Hi|[_ Hi]]; [exact (H i r Hi)|].
    apply lookup_app_Some in Hi as [Hi|[_ Hi]].
    + apply lookup_replicate in Hi as [Hi _]. discriminate.
    + apply list_lookup_singleton_Some in Hi as [_ Hi]. congruence.
Qed.

Lemma app_invariant_push (s : App num) (nt : Triangle num) :
  invariant s ->
  (triangleCount s < MAX_TRIANGLES)%Z ->
  id nt = triangleCount s -> focused nt = false ->
  refsBelow (S (length (triangles s))) (neighbors nt) ->
  invariant (mkApp (triangles s ++ [nt]) (selectedTriangleIndex s)
                   (focusedTriangleIndex s) (triangleCount s + 1)
                   (nextTriangleId s + 1) true).
Proof.
  intros [Hl Hn Hc Hid Hf Hfl Hsel Hnb] Hroom Hi Hfo Hr.
  split; cbn [triangles selectedTriangleIndex focusedTriangleIndex
              triangleCount nextTriangleId].
  - rewrite length_app. cbn. lia.
  - lia.
  - lia.
  - intros j t Hj. apply lookup_app_Some in Hj as [Hj|[Hge Hj]]; [exact (Hid j t Hj)|].
    apply list_lookup_singleton_Some in Hj as [Hj <-]. rewrite Hi. lia.
  - lia.
  - intros j t Hj Hft. apply lookup_app_Some in Hj as [Hj|[Hge Hj]]; [exact (Hfl j t Hj Hft)|].
    apply list_lookup_singleton_Some in Hj as [Hj <-]. congruence.
  - destruct Hsel as [Hsel|(t & Ht & Hs)]; [left; exact Hsel|right].
    destruct (triangleAt_Some _ _ _ Ht) as (H0 & Hlk & Hlt).
    exists t. split; [|exact Hs]. unfold triangleAt. cbn [triangles].
    destruct (Z.ltb_spec (selectedTriangleIndex s) 0); [lia|].
    rewrite lookup_app_l by exact Hlt. exact Hlk.
  - rewrite length_app. cbn [length]. rewrite Nat.add_1_r.
    intros j t Hj. apply lookup_app_Some in Hj as [Hj|[Hge Hj]].
    + eapply app_refsBelow_mono; [|exact (Hnb j t Hj)]. lia.
    + apply list_lookup_singleton_Some in Hj as [Hj <-]. exact Hr.
Qed.

Lemma refsBelow_fresh n : refsBelow n [None; None; None].
Proof. intros [|[|[|i]]] r; cbn; discriminate. Qed.

Lemma addTriangle_invariant vs p ps (s : App num) :
  invariant s ->
  (triangleCount s < MAX_TRIANGLES)%Z ->
  exists s1,
    addTriangle vs p ps s = (Some (length (triangles s)), s1) /\
    invariant s1 /\
    length (triangles s1) = S (length (triangles s)) /\
    triangleCount s1 = (triangleCount s + 1)%Z /\
    selectedTriangleIndex s1 = selectedTriangleIndex s /\
    focusedTriangleIndex s1 = focusedTriangleIndex s /\
    triangles s1 =
      match p with
      | Some pr => if (ps >=? 0)%Z
                   then alter (setChild ps (length (triangles s))) pr
                          (triangles s ++ [newTriangle (nextTriangleId s) vs p ps])
                   else triangles s ++ [newTriangle (nextTriangleId s) vs p ps]
      | None => triangles s ++ [newTriangle (nextTriangleId s) vs p ps]
      end.
Proof.
  intros Hinv Hroom. unfold addTriangle.
  destruct (Z.geb_spec (triangleCount s) MAX_TRIANGLES); [lia|].
  pose proof (app_capacity _ Hinv) as Hcap.
  destruct (Z.eqb_spec (triangleCount s) 0); [lia|].
  cbn [triangles selectedTriangleIndex focusedTriangleIndex triangleCount nextTriangleId].
  eexists. split; [reflexivity|].
  cbn [triangles selectedTriangleIndex focusedTriangleIndex triangleCount nextTriangleId].
  set (nt := newTriangle (nextTriangleId s) vs p ps).
  assert (Hpush : invariant (mkApp (triangles s ++ [nt]) (selectedTriangleIndex s)
                   (focusedTriangleIndex s) (triangleCount s + 1)
                   (nextTriangleId s + 1) true)).
  { apply app_invariant_push; try assumption.
    - exact (app_next _ Hinv).
    - reflexivity.
    - apply refsBelow_fresh. }
  assert (Hlen : length (triangles s ++ [nt]) = S (length (triangles s)))
    by (rewrite length_app; cbn; lia).
  split; [|split; [|repeat split]].
  - destruct p as [pr|]; [|exact Hpush].
    destruct (ps >=? 0)%Z; [|exact Hpush].
    apply (app_invariant_alter _ (setChild ps (length (triangles s))) pr Hpush).
    + intros t. repeat split.
    + intros t Ht. exact Ht.
  - destruct p as [pr|]; [destruct (ps >=? 0)%Z|]; rewrite ?length_alter; exact Hlen.
Qed.


(** *** Focus and selection *)

Lemma focusAndSelect_links (new : nat) (s : App num) :
  links <$> triangles (focusAndSelect new s) = links <$> triangles s.
Proof.
  unfold focusAndSelect.
  rewrite selectTriangle_preserved by reflexivity.
  apply focusTriangle_preserved. reflexivity.
Qed.

Lemma focusTriangle_flag (index : nat) (s : App num) i t' :
  invariant s -> (index < length (triangles s))%nat ->
  triangles (focusTriangle (Z.of_nat index) s) !! i = Some t' ->
  (focused t' = true <-> i = index).
Proof.
  intros Hinv Hidx.
  pose proof (app_length _ Hinv) as Hl. pose proof (app_focus _ Hinv) as Hf.
  unfold focusTriangle.
  rewrite (inRange_true s (focusedTriangleIndex s)) by exact Hf.
  rewrite (inRange_true s (Z.of_nat index)) by lia.
  cbn [triangles]. rewrite Nat2Z.id. intros Hi.
  destruct (lookup_alter_app _ _ _ _ _ Hi) as (t1 & H1 & [[Hne ->]|[-> ->]]).
  - destruct (lookup_alter_app _ _ _ _ _ H1) as (t & Ht & [[Hne' ->]|[<- ->]]).
    + split; [|congruence]. intros Hft.
      pose proof (app_flag _ Hinv i t Ht Hft). lia.
    + cbn. split; [discriminate|congruence].
  - cbn. split; reflexivity.
Qed.

Lemma focusAndSelect_invariant (new : nat) (s : App num) :
  invariant s -> (new < length (triangles s))%nat ->
  invariant (focusAndSelect new s) /\
  focusedTriangleIndex (focusAndSelect new s) = Z.of_nat new /\
  selectedTriangleIndex (focusAndSelect new s) = Z.of_nat new /\
  triangleCount (focusAndSelect new s) = triangleCount s /\
  length (triangles (focusAndSelect new s)) = length (triangles s).
Proof.
  intros Hinv Hnew.
  pose proof (app_length _ Hinv) as Hwf.
  destruct (focusTriangle_fields (Z.of_nat new) s) as (Hf1 & Hc1 & Hn1 & Hs1 & Hl1).
  destruct (selectTriangle_fields (Z.of_nat new) (focusTriangle (Z.of_nat new) s))
    as (Hc2 & Hf2 & Hn2 & Hl2).
  assert (Hwf1 : wellFormed (focusTriangle (Z.of_nat new) s)).
  { unfold wellFormed. rewrite Hl1, Hc1. exact Hwf. }
  pose proof (selectTriangle_index new _ Hwf1 ltac:(rewrite Hl1; exact Hnew)) as Hsi.
  fold (focusAndSelect new s) in Hc2, Hf2, Hn2, Hl2, Hsi.
  assert (Hlk : forall i t', triangles (focusAndSelect new s) !! i = Some t' ->
            exists t, triangles s !! i = Some t /\ links t' = links t).
  { intros i t' Hi. exact (lookup_fmap_eq links _ _ i t' (focusAndSelect_links new s) Hi). }
  split; [|rewrite Hf2, Hf1, Hc2, Hc1, Hl2, Hl1, Hsi; repeat split].
  split.
  - rewrite Hl2, Hl1, Hc2, Hc1. exact Hwf.
  - rewrite Hn2, Hn1, Hc2, Hc1. exact (app_next _ Hinv).
  - rewrite Hc2, Hc1. exact (app_capacity _ Hinv).
  - intros i t' Hi. destruct (Hlk i t' Hi) as (t & Ht & Hlt).
    unfold links in Hlt. injection Hlt as -> _ _ _ _ _ _ _ _. exact (app_ids _ Hinv i t Ht).
  - rewrite Hf2, Hf1, Hc2, Hc1. lia.
  - intros i t' Hi Hft. rewrite Hf2, Hf1.
    assert (Hfo : focused <$> triangles (focusAndSelect new s)
                  = focused <$> triangles (focusTriangle (Z.of_nat new) s)).
    { unfold focusAndSelect. apply selectTriangle_preserved. reflexivity. }
    destruct (lookup_fmap_eq focused _ _ i t' Hfo Hi) as (t1 & H1 & Hf1').
    rewrite Hf1' in Hft.
    apply (focusTriangle_flag new s i t1 Hinv Hnew H1) in Hft. congruence.
  - right. rewrite Hsi, triangleAt_nat.
    assert (Hlt : (new < length (triangles (focusAndSelect new s)))%nat)
      by (rewrite Hl2, Hl1; exact Hnew).
    destruct (lookup_lt_is_Some_2 _ _ Hlt) as [t' Ht']. exists t'. split; [exact Ht'|].
    apply (focusAndSelect_selected new s new t' Hwf Hnew Ht'). reflexivity.
  - intros i t' Hi. destruct (Hlk i t' Hi) as (t & Ht & Hlt).
    unfold links in Hlt. injection Hlt as _ _ _ _ _ -> _ _ _.
    rewrite Hl2, Hl1. exact (app_neighbors _ Hinv i t Ht).
Qed.

(** *** The creation functions *)

Lemma creationLink_invariant k sd (self new : nat) (s : App num) :
  invariant s ->
  (self < length (triangles s))%nat -> (new < length (triangles s))%nat ->
  invariant (withTriangles (creationLink k sd self new (triangles s)) s) /\
  length (creationLink k sd self new (triangles s)) = length (triangles s).
Proof.
  intros Hinv Hself Hnew.
  split; [|apply (proj1 (keepsShape_creationLink k sd self new (triangles s)))].
  destruct k as [|[|k]]; cbn [creationLink].
  - unfold linkNeighbors.
    assert (H1 : invariant (withTriangles
                   (alter (setNeighbor sd new) self (triangles s)) s)).
    { apply app_invariant_alter; [exact Hinv|intros t; repeat split|].
      intros t Ht. cbn. apply refsBelow_array_set; assumption. }
    destruct (alter (setNeighbor sd new) self (triangles s) !! new) as [nt|]; [|exact H1].
    destruct (alter (setNeighbor sd new) self (triangles s) !! self) as [t|]; [|exact H1].
    destruct (matchingSide nt t sd [0; 1; 2]%Z) as [newSide|]; [|exact H1].
    pose proof (app_invariant_alter _ (setNeighbor newSide self) new H1) as H2.
    cbn [withTriangles triangles] in H2. rewrite length_alter in H2.
    apply H2; [intros t0; repeat split|].
    intros t0 Ht0. cbn. apply refsBelow_array_set; assumption.
  - apply app_invariant_alter; [exact Hinv|intros t; repeat split|].
    intros t Ht. exact Ht.
  - apply app_invariant_alter; [exact Hinv|intros t; repeat split|].
    intros t Ht. exact Ht.
Qed.

Lemma creation_room_invariant k idx sd (s : App num) t :
  invariant s ->
  triangleAt s idx = Some t ->
  (triangleCount s < MAX_TRIANGLES)%Z ->
  exists s1,
    addTriangle (creationVertices k t sd) (Some (Z.to_nat idx)) sd s
      = (Some (length (triangles s)), s1) /\
    invariant s1 /\
    length (triangles s1) = S (length (triangles s)) /\
    creation k idx sd s =
      (Some (length (triangles s)),
       focusAndSelect (length (triangles s))
         (withTriangles (creationLink k sd (Z.to_nat idx) (length (triangles s))
                           (triangles s1)) s1)) /\
    invariant (withTriangles (creationLink k sd (Z.to_nat idx) (length (triangles s))
                           (triangles s1)) s1).
Proof.
  intros Hinv Ht Hroom.
  destruct (addTriangle_invariant (creationVertices k t sd) (Some (Z.to_nat idx)) sd s
              Hinv Hroom) as (s1 & Ha & H1 & Hl1 & _).
  exists s1. split; [exact Ha|]. split; [exact H1|]. split; [exact Hl1|].
  split.
  - rewrite creation_register, Ht. unfold register. rewrite Ha. reflexivity.
  - destruct (triangleAt_Some _ _ _ Ht) as (_ & _ & Hlt).
    apply creationLink_invariant; [exact H1|lia|lia].
Qed.

Lemma creation_invariant k idx sd (s : App num) :
  invariant s -> invariant (snd (creation k idx sd s)).
Proof.
  intros Hinv. destruct (triangleAt s idx) as [t|] eqn:Ht.
  2:{ rewrite creation_register, Ht. exact Hinv. }
  destruct (Z.lt_ge_cases (triangleCount s) MAX_TRIANGLES) as [Hroom|Hfull].
  2:{ rewrite creation_register, Ht, register_full by exact Hfull. exact Hinv. }
  destruct (creation_room_invariant k idx sd s t Hinv Ht Hroom)
    as (s1 & _ & _ & Hl1 & -> & H2).
  cbn [snd]. apply focusAndSelect_invariant; [exact H2|].
  cbn [withTriangles triangles].
  rewrite (proj1 (keepsShape_creationLink k sd _ _ _)). lia.
Qed.

(** *** Toggling the selection *)

Lemma firstSelected_spec (l : list nat) (ts : list (Triangle num)) :
  firstSelected l ts = (-1)%Z \/
  exists i t, firstSelected l ts = Z.of_nat i /\ ts !! i = Some t /\ selected t = true.
Proof.
  induction l as [|i l IH]; cbn; [left; reflexivity|].
  destruct (ts !! i) as [t|] eqn:Ht; [|exact IH].
  destruct (selected t) eqn:Hs; [|exact IH].
  right. exists i, t. repeat split; assumption.
Qed.

Lemma toggleSelectTriangle_invariant idx (s : App num) :
  invariant s -> invariant (toggleSelectTriangle idx s).
Proof.
  intros Hinv. unfold toggleSelectTriangle.
  destruct (inRange s idx); [|exact Hinv].
  destruct (triangleAt s idx) as [triangle|] eqn:Ht; [|exact Hinv].
  destruct (triangleAt_Some _ _ _ Ht) as (H0 & Hlk & Hlt).
  destruct Hinv as [Hl Hn Hc Hid Hf Hfl Hsel Hnb].
  set (ts := alter (setSelected (negb (selected triangle))) (Z.to_nat idx) (triangles s)).
  assert (Hidx : ts !! Z.to_nat idx = Some (setSelected (negb (selected triangle)) triangle)).
  { unfold ts. rewrite list_lookup_alter_eq, Hlk. reflexivity. }
  split; cbn [triangles selectedTriangleIndex focusedTriangleIndex
              triangleCount nextTriangleId]; fold ts;
    try (unfold ts; rewrite length_alter); try assumption.
  - intros j t' Hj.
    destruct (lookup_alter_app _ _ _ _ _ Hj) as (t & Ht' & [[_ ->]|[_ ->]]); exact (Hid j t Ht').
  - intros j t' Hj.
    destruct (lookup_alter_app _ _ _ _ _ Hj) as (t & Ht' & [[_ ->]|[_ ->]]); exact (Hfl j t Ht').
  - destruct (selected triangle) eqn:Hst; cbn [negb].
    + destruct (Z.eqb_spec (selectedTriangleIndex s) idx) as [He|Hne].
      * destruct (firstSelected_spec (seq 0 (Z.to_nat (triangleCount s))) ts)
          as [->|(i & t & -> & Hi & Hs)]; [left; reflexivity|right].
        exists t. rewrite triangleAt_nat. cbn [triangles]. split; assumption.
      * destruct Hsel as [Hsel|(t & Hts & Hs)]; [left; exact Hsel|right].
        destruct (triangleAt_Some _ _ _ Hts) as (H0' & Hlk' & _).
        exists t. split; [|exact Hs]. unfold triangleAt. cbn [triangles].
        destruct (Z.ltb_spec (selectedTriangleIndex s) 0); [lia|].
        unfold ts. rewrite list_lookup_alter_ne by lia. exact Hlk'.
    + right. eexists. unfold triangleAt. cbn [triangles].
      destruct (Z.ltb_spec idx 0); [lia|]. split; [exact Hidx|]. reflexivity.
  - intros j t' Hj.
    destruct (lookup_alter_app _ _ _ _ _ Hj) as (t & Ht' & [[_ ->]|[_ ->]]); exact (Hnb j t Ht').
Qed.

(** *** Navigation and the handler *)

Lemma array_get_Some (l : list (option nat)) (sd : Z) (n : nat) :
  array_get l sd = Some n -> (0 <= sd)%Z /\ l !! Z.to_nat sd = Some (Some n).
Proof.
  unfold array_get. destruct (Z.ltb_spec sd 0); [discriminate|].
  intros H'. split; [assumption|].
  destruct (l !! Z.to_nat sd) as [[x|]|]; cbn in H'; congruence.
Qed.

Lemma navigate_eq idx sd (s : App num) :
  navigate idx sd s =
    match triangleAt s idx with
    | None => s
    | Some triangle =>
        match array_get (neighbors triangle) sd with
        | Some neighbor => focusAndSelect neighbor s
        | None => s
        end
    end.
Proof. reflexivity. Qed.

Lemma navigate_invariant idx sd (s : App num) :
  invariant s -> invariant (navigate idx sd s).
Proof.
  intros Hinv. rewrite navigate_eq.
  destruct (triangleAt s idx) as [t|] eqn:Ht; [|exact Hinv].
  destruct (array_get (neighbors t) sd) as [n|] eqn:Hn; [|exact Hinv].
  destruct (triangleAt_Some _ _ _ Ht) as (_ & Hlk & _).
  destruct (array_get_Some _ _ _ Hn) as (_ & Hr).
  apply focusAndSelect_invariant; [exact Hinv|].
  exact (app_neighbors _ Hinv _ _ Hlk _ _ Hr).
Qed.

Lemma onArrowKey_invariant c sh a sd (s : App num) :
  invariant s -> invariant (onArrowKey c sh a sd s).
Proof.
  intros Hinv. unfold onArrowKey.
  destruct (triangleAt s (handlerIndex s)); [|exact Hinv].
  destruct (sd <? 0)%Z; [exact Hinv|].
  destruct (c && a); [exact (creation_invariant 2 _ sd s Hinv)|].
  destruct a; [exact (creation_invariant 1 _ sd s Hinv)|].
  destruct c; [exact (creation_invariant 0 _ sd s Hinv)|].
  destruct sh; [apply toggleSelectTriangle_invariant; exact Hinv|].
  apply navigate_invariant. exact Hinv.
Qed.

Lemma onTestKey_invariant (s : App num) :
  invariant s -> invariant (onTestKey s).
Proof.
  intros Hinv. unfold onTestKey.
  destruct (triangleAt s (handlerIndex s)); [|exact Hinv].
  destruct (Z.lt_ge_cases (triangleCount s) MAX_TRIANGLES) as [Hroom|Hfull].
  - destruct (addTriangle_invariant testVertices None (-1) s Hinv Hroom) as (s1 & -> & H1 & _).
    exact H1.
  - rewrite addTriangle_full by exact Hfull. exact Hinv.
Qed.

Lemma startApp_invariant : invariant (startApp (N := N)).
Proof.
  assert (Hone : forall i t, triangles (startApp (N := N)) !! i = Some t ->
            i = 0%nat /\ t = newTriangle 0 initialVertices None (-1)).
  { intros [|i] t; cbn; [|discriminate]. intros [= <-]. split; reflexivity. }
  split.
  - reflexivity.
  - reflexivity.
  - cbn. unfold MAX_TRIANGLES. lia.
  - intros i t Hi. destruct (Hone i t Hi) as [-> ->]. reflexivity.
  - cbn. lia.
  - intros i t Hi. destruct (Hone i t Hi) as [-> ->]. cbn. discriminate.
  - left. reflexivity.
  - intros i t Hi. destruct (Hone i t Hi) as [-> ->]. cbn. apply refsBelow_fresh.
Qed.

Lemma app_invariant_of_reachable (s : App num) : reachable s -> invariant s.
Proof.
  induction 1 as [|c sh a sd s Hr IH|s Hr IH].
  - apply startApp_invariant.
  - apply onArrowKey_invariant. exact IH.
  - apply onTestKey_invariant. exact IH.
Qed.


(** X10.  Every state that the key handler of app.js can reach from the
    start state, by arrow keys with any modifiers and any side, and by the
    test key, satisfies the invariant: [triangles.length], [triangleCount]
    and [nextTriangleId] agree and never exceed [MAX_TRIANGLES] = 10000;
    the [id] of a triangle is its position; [focusedTriangleIndex] names a
    triangle and no other triangle carries the [focused] flag;
    [selectedTriangleIndex] is -1 or names a triangle that is selected; and
    every neighbour reference names a triangle of the array. *)
Theorem reachable_app_invariant (s : App num) :
  reachable s -> invariant s /\ MAX_TRIANGLES = 10000%Z.
Proof.
  intros Hr. split; [|reflexivity].
  induction Hr as [|c sh a sd s Hr IH|s Hr IH].
  - apply startApp_invariant.
  - apply onArrowKey_invariant. exact IH.
  - apply onTestKey_invariant. exact IH.
Qed.

Lemma handler_triangle (s : App num) :
  invariant s ->
  handlerIndex s = focusedTriangleIndex s /\
  exists t, triangleAt s (handlerIndex s) = Some t /\ id t = focusedTriangleIndex s.
Proof.
  intros Hinv.
  pose proof (app_focus _ Hinv) as Hf. pose proof (app_length _ Hinv) as Hl.
  assert (Hh : handlerIndex s = focusedTriangleIndex s).
  { unfold handlerIndex. destruct (Z.geb_spec (focusedTriangleIndex s) 0); [reflexivity|lia]. }
  split; [exact Hh|]. rewrite Hh.
  assert (Hlt : (Z.to_nat (focusedTriangleIndex s) < length (triangles s))%nat) by lia.
  destruct (lookup_lt_is_Some_2 _ _ Hlt) as [t Ht]. exists t.
  unfold triangleAt. destruct (Z.ltb_spec (focusedTriangleIndex s) 0); [lia|].
  split; [exact Ht|]. rewrite (app_ids _ Hinv _ _ Ht). lia.
Qed.

(** X11.  In every reachable state the key handler finds its triangle: the
    index it computes is [focusedTriangleIndex] itself (the fallback to 0
    is never taken) and [triangles[index]] is a triangle, whose [id] is
    that index, so the early [return] for a missing triangle never
    happens. *)
Theorem handler_acts_on_the_focused_triangle (s : App num) :
  reachable s ->
  handlerIndex s = focusedTriangleIndex s /\
  exists t, triangleAt s (handlerIndex s) = Some t /\ id t = focusedTriangleIndex s.
Proof.
  intros Hr. pose proof (app_invariant_of_reachable s Hr) as Hinv.
  pose proof (app_focus _ Hinv) as Hf. pose proof (app_length _ Hinv) as Hl.
  assert (Hh : handlerIndex s = focusedTriangleIndex s).
  { unfold handlerIndex. destruct (Z.geb_spec (focusedTriangleIndex s) 0); [reflexivity|lia]. }
  split; [exact Hh|]. rewrite Hh.
  assert (Hlt : (Z.to_nat (focusedTriangleIndex s) < length (triangles s))%nat) by lia.
  destruct (lookup_lt_is_Some_2 _ _ Hlt) as [t Ht]. exists t.
  rewrite <- (Z2Nat.id (focusedTriangleIndex s)) at 1 by lia.
  rewrite triangleAt_nat. split; [exact Ht|].
  rewrite (app_ids _ Hinv _ _ Ht). lia.
Qed.

(** X12.  The test key [t] in a reachable state: below the capacity it
    appends one triangle with the fixed test vertices, no parent and the
    next [id], and moves neither the focus nor the selection; at the
    capacity it changes nothing. *)
Theorem test_key_appends_an_unlinked_triangle (s : App num) :
  reachable s ->
  ((triangleCount s < MAX_TRIANGLES)%Z ->
   triangles (onTestKey s)
     = triangles s ++ [newTriangle (triangleCount s) testVertices None (-1)] /\
   triangleCount (onTestKey s) = (triangleCount s + 1)%Z /\
   focusedTriangleIndex (onTestKey s) = focusedTriangleIndex s /\
   selectedTriangleIndex (onTestKey s) = selectedTriangleIndex s) /\
  ((MAX_TRIANGLES <= triangleCount s)%Z -> onTestKey s = s).
Proof.
  intros Hr. pose proof (app_invariant_of_reachable s Hr) as Hinv.
  destruct (handler_triangle s Hinv) as (_ & t & Ht & _).
  unfold onTestKey. rewrite Ht. split.
  - intros Hroom.
    destruct (addTriangle_invariant testVertices None (-1) s Hinv Hroom)
      as (s1 & -> & _ & _ & Hc & Hs & Hf & Hts).
    cbn [snd]. rewrite Hts, (app_next _ Hinv). repeat split; assumption.
  - intros Hfull. rewrite addTriangle_full by exact Hfull. reflexivity.
Qed.

(** X13.  The first triangle added to the empty application is focused by
    index only: [addTriangle] calls [focusTriangle(0)] before it increments
    [triangleCount], so the range test of [focusTriangle] fails,
    [focusedTriangleIndex] becomes 0 and the [focused] flag of the triangle
    stays [false]; a later [focusTriangle(0)] does set it. *)
Theorem first_triangle_is_focused_without_its_flag (vs : Vertices num) :
  let s := snd (addTriangle vs None (-1) initialApp) in
  focusedTriangleIndex s = 0%Z /\
  triangles s = [newTriangle 0 vs None (-1)] /\
  focused (newTriangle 0 vs None (-1)) = false /\
  triangles (focusTriangle 0 s) = [setFocused true (newTriangle 0 vs None (-1))].
Proof. cbn. repeat split. Qed.

Lemma alter_setSelected_twice b b' i (ts : list (Triangle num)) t :
  ts !! i = Some t -> selected t = b' ->
  alter (setSelected b') i (alter (setSelected b) i ts) = ts.
Proof.
  intros Ht Hs. apply list_eq. intros j. destruct (decide (i = j)) as [->|Hne].
  - rewrite !list_lookup_alter_eq, Ht. cbn. f_equal. subst b'. destruct t. reflexivity.
  - rewrite !list_lookup_alter_ne by assumption. reflexivity.
Qed.

(** X14.  [toggleSelectTriangle] applied twice to the same index, in a
    state whose array and counter agree, restores
    the array of triangles, flags included, with the count and the focus;
    out of range it does nothing at all.  [selectedTriangleIndex] is not
    restored in general: it ends as the index itself when the triangle was
    selected, and otherwise as the first selected triangle of the array
    (-1 without one). *)
Theorem toggleSelectTriangle_twice (idx : Z) (s : App num) :
  wellFormed s ->
  let s2 := toggleSelectTriangle idx (toggleSelectTriangle idx s) in
  triangles s2 = triangles s /\
  triangleCount s2 = triangleCount s /\
  focusedTriangleIndex s2 = focusedTriangleIndex s /\
  (inRange s idx = false -> s2 = s) /\
  forall t, inRange s idx = true -> triangleAt s idx = Some t ->
    selectedTriangleIndex s2 =
      if selected t then idx
      else firstSelected (seq 0 (Z.to_nat (triangleCount s))) (triangles s).
Proof.
  intros _. cbv zeta.
  destruct (inRange s idx) eqn:Hin.
  2:{ assert (E : toggleSelectTriangle idx s = s)
        by (unfold toggleSelectTriangle; rewrite Hin; reflexivity).
      rewrite !E.
      split; [reflexivity|]. split; [reflexivity|]. split; [reflexivity|].
      split; [reflexivity|intros t; discriminate]. }
  destruct (triangleAt s idx) as [t|] eqn:Ht.
  2:{ assert (E : toggleSelectTriangle idx s = s)
        by (unfold toggleSelectTriangle; rewrite Hin, Ht; reflexivity).
      rewrite !E.
      split; [reflexivity|]. split; [reflexivity|]. split; [reflexivity|].
      split; [discriminate|intros t _; discriminate]. }
  destruct (triangleAt_Some _ _ _ Ht) as (H0 & Hlk & Hlt).
  set (s1 := toggleSelectTriangle idx s).
  assert (E1 : s1 = mkApp (alter (setSelected (negb (selected t))) (Z.to_nat idx) (triangles s))
                 (if negb (selected t) then idx
                  else if (selectedTriangleIndex s =? idx)%Z
                       then firstSelected (seq 0 (Z.to_nat (triangleCount s)))
                              (alter (setSelected (negb (selected t))) (Z.to_nat idx)
                                 (triangles s))
                       else selectedTriangleIndex s)
                 (focusedTriangleIndex s) (triangleCount s) (nextTriangleId s) true).
  { unfold s1, toggleSelectTriangle. rewrite Hin, Ht. reflexivity. }
  clearbody s1. subst s1.
  match goal with |- context [toggleSelectTriangle idx ?x] => set (s1 := x) end.
  assert (E2 : toggleSelectTriangle idx s1 =
               mkApp (triangles s)
                 (if selected t then idx
                  else firstSelected (seq 0 (Z.to_nat (triangleCount s))) (triangles s))
                 (focusedTriangleIndex s) (triangleCount s) (nextTriangleId s) true).
  { unfold toggleSelectTriangle. unfold inRange. cbn [triangleCount s1].
    fold (inRange s idx). rewrite Hin.
    unfold triangleAt. cbn [triangles s1].
    destruct (Z.ltb_spec idx 0); [lia|].
    rewrite list_lookup_alter_eq, Hlk. cbn [fmap option_fmap option_map].
    cbn [triangles triangleCount focusedTriangleIndex selectedTriangleIndex
         nextTriangleId selected setSelected].
    rewrite negb_involutive.
    rewrite (alter_setSelected_twice _ _ _ _ t Hlk eq_refl).
    destruct (selected t); cbn [negb]; [reflexivity|].
    rewrite Z.eqb_refl. reflexivity. }
  rewrite E2. cbn [triangles triangleCount focusedTriangleIndex selectedTriangleIndex].
  split; [reflexivity|]. split; [reflexivity|]. split; [reflexivity|].
  split; [discriminate|]. intros t' _ [= <-]. reflexivity.
Qed.


Lemma navigate_spec (s : App num) (idx sd : Z) (t : Triangle num) :
  invariant s ->
  triangleAt s idx = Some t ->
  match array_get (neighbors t) sd with
  | Some n =>
      focusedTriangleIndex (navigate idx sd s) = Z.of_nat n /\
      selectedTriangleIndex (navigate idx sd s) = Z.of_nat n /\
      selectedSet (navigate idx sd s) = [n] /\
      triangleCount (navigate idx sd s) = triangleCount s /\
      links <$> triangles (navigate idx sd s) = links <$> triangles s
  | None => navigate idx sd s = s
  end.
Proof.
  intros Hinv Ht.
  rewrite navigate_eq, Ht.
  destruct (array_get (neighbors t) sd) as [n|] eqn:Hn; [|reflexivity].
  destruct (triangleAt_Some _ _ _ Ht) as (_ & Hlk & _).
  destruct (array_get_Some _ _ _ Hn) as (_ & Hrf).
  pose proof (app_neighbors _ Hinv _ _ Hlk _ _ Hrf) as Hlt.
  destruct (focusAndSelect_invariant n s Hinv Hlt) as (_ & Hf & Hs & Hc & Hl).
  split; [exact Hf|]. split; [exact Hs|]. split; [|split; [exact Hc|]].
  - apply selectedSet_singleton; [rewrite Hl; exact Hlt|].
    intros i t' Hi. exact (focusAndSelect_selected n s i t' (app_length _ Hinv) Hlt Hi).
  - apply focusAndSelect_links.
Qed.

(** X15.  The plain-arrow branch of the key handler in a reachable
    state: with a neighbour on the side, that neighbour becomes the focused
    and the only selected triangle, and nothing is created (the count and
    everything but the display flags of every triangle are unchanged);
    without one, the state is unchanged. *)
Theorem arrow_navigation_moves_focus_and_selection (s : App num) (idx sd : Z)
    (t : Triangle num) :
  reachable s ->
  triangleAt s idx = Some t ->
  match array_get (neighbors t) sd with
  | Some n =>
      focusedTriangleIndex (navigate idx sd s) = Z.of_nat n /\
      selectedTriangleIndex (navigate idx sd s) = Z.of_nat n /\
      selectedSet (navigate idx sd s) = [n] /\
      triangleCount (navigate idx sd s) = triangleCount s /\
      links <$> triangles (navigate idx sd s) = links <$> triangles s
  | None => navigate idx sd s = s
  end.
Proof.
  intros Hr. apply navigate_spec. exact (app_invariant_of_reachable s Hr).
Qed.

Lemma array_get_set (l : list (option nat)) (sd : Z) (v : nat) :
  (0 <= sd)%Z -> array_get (array_set l sd v) sd = Some v.
Proof.
  intros H0. unfold array_get, array_set.
  destruct (Z.ltb_spec sd 0); [lia|].
  destruct (Nat.ltb_spec (Z.to_nat sd) (length l)) as [Hlt|Hge].
  - rewrite list_lookup_insert_eq by assumption. reflexivity.
  - rewrite lookup_app_r by assumption.
    rewrite lookup_app_r by (rewrite length_replicate; lia).
    rewrite length_replicate, Nat.sub_diag. reflexivity.
Qed.

Lemma slotOf_creationLink_source k sd (self new : nat) (ts : list (Triangle num)) t :
  ts !! self = Some t -> self <> new ->
  exists t', creationLink k sd self new ts !! self = Some t' /\
             slotOf k t' = array_set (slotOf k t) sd new /\
             children t' = children t /\ vertices t' = vertices t.
Proof.
  intros Ht Hne. destruct k as [|[|k]]; cbn [creationLink slotOf].
  - unfold linkNeighbors.
    assert (H1 : alter (setNeighbor sd new) self ts !! self = Some (setNeighbor sd new t))
      by (rewrite list_lookup_alter_eq, Ht; reflexivity).
    rewrite H1.
    destruct (alter (setNeighbor sd new) self ts !! new) as [nt|];
      [|eexists; split; [exact H1|repeat split]].
    destruct (matchingSide nt _ sd _) as [ns|]; [|eexists; split; [exact H1|repeat split]].
    rewrite list_lookup_alter_ne by congruence.
    eexists; split; [exact H1|repeat split].
  - rewrite list_lookup_alter_eq, Ht. eexists. split; [reflexivity|repeat split].
  - rewrite list_lookup_alter_eq, Ht. eexists. split; [reflexivity|repeat split].
Qed.

Lemma creationLink_new k sd (self new : nat) (ts : list (Triangle num)) nt :
  ts !! new = Some nt -> self <> new ->
  exists nt', creationLink k sd self new ts !! new = Some nt' /\
              parent nt' = parent nt /\ parentSide nt' = parentSide nt /\
              id nt' = id nt /\ vertices nt' = vertices nt.
Proof.
  intros Hn Hne. destruct k as [|[|k]]; cbn [creationLink].
  - unfold linkNeighbors.
    assert (H1 : alter (setNeighbor sd new) self ts !! new = Some nt)
      by (rewrite list_lookup_alter_ne by assumption; exact Hn).
    rewrite H1.
    destruct (alter (setNeighbor sd new) self ts !! self) as [t|];
      [|eexists; split; [exact H1|repeat split]].
    destruct (matchingSide nt t sd _) as [ns|]; [|eexists; split; [exact H1|repeat split]].
    rewrite list_lookup_alter_eq, H1. eexists. split; [reflexivity|repeat split].
  - rewrite list_lookup_alter_ne by assumption. eexists. split; [exact Hn|repeat split].
  - rewrite list_lookup_alter_ne by assumption. eexists. split; [exact Hn|repeat split].
Qed.

Lemma creation_lookups k idx sd (s : App num) new s' :
  invariant s -> (0 <= sd)%Z ->
  creation k idx sd s = (Some new, s') ->
  exists t s1,
    triangleAt s idx = Some t /\ new = length (triangles s) /\
    (Z.to_nat idx < new)%nat /\ invariant s1 /\
    s' = focusAndSelect new
           (withTriangles (creationLink k sd (Z.to_nat idx) new (triangles s1)) s1) /\
    length (triangles s1) = S new /\
    triangles s1 !! new
      = Some (newTriangle (triangleCount s) (creationVertices k t sd)
                          (Some (Z.to_nat idx)) sd) /\
    triangles s1 !! Z.to_nat idx = Some (setChild sd new t) /\
    invariant (withTriangles (creationLink k sd (Z.to_nat idx) new (triangles s1)) s1).
Proof.
  intros Hinv Hsd Hc.
  destruct (creation_inv _ _ _ _ _ _ Hc) as (t & Ht & Hroom).
  destruct (creation_room_invariant k idx sd s t Hinv Ht Hroom)
    as (s1 & Ha & H1 & Hl1 & Hc' & H2).
  rewrite Hc in Hc'. injection Hc' as -> ->.
  destruct (triangleAt_Some _ _ _ Ht) as (_ & Hlk & Hlt).
  destruct (addTriangle_invariant (creationVertices k t sd) (Some (Z.to_nat idx)) sd s
              Hinv Hroom) as (s1' & Ha' & _ & _ & _ & _ & _ & Hts).
  rewrite Ha in Ha'. injection Ha' as <-.
  destruct (Z.geb_spec sd 0); [|lia].
  exists t, s1. split; [exact Ht|]. split; [reflexivity|]. split; [exact Hlt|].
  split; [exact H1|]. split; [reflexivity|]. split; [exact Hl1|].
  split; [|split; [|exact H2]].
  - rewrite Hts, (app_next _ Hinv).
    rewrite list_lookup_alter_ne by lia. apply list_lookup_middle. reflexivity.
  - rewrite Hts.
    rewrite list_lookup_alter_eq, lookup_app_l by exact Hlt. rewrite Hlk. reflexivity.
Qed.

(** X16.  A successful creation of app.js, of any of the three kinds
    ([creation] 0 adjacent, 1 inner, 2 outer), on a side that is not
    negative records where the new triangle came from: the new triangle
    has its position as [id], the source as [parent] and the side as
    [parentSide], and the source holds the new triangle in [children] and
    in the table of the creation, both under the side. *)
Theorem creation_records_its_origin (k : nat) (idx sd : Z) (s : App num)
    (new : nat) (s' : App num) :
  reachable s -> (0 <= sd)%Z ->
  creation k idx sd s = (Some new, s') ->
  exists nt src,
    triangles s' !! new = Some nt /\
    id nt = Z.of_nat new /\ parent nt = Some (Z.to_nat idx) /\ parentSide nt = sd /\
    triangles s' !! Z.to_nat idx = Some src /\
    array_get (children src) sd = Some new /\
    array_get (slotOf k src) sd = Some new.
Proof.
  intros Hr Hsd Hc. pose proof (app_invariant_of_reachable s Hr) as Hinv.
  destruct (creation_lookups k idx sd s new s' Hinv Hsd Hc)
    as (t & s1 & Ht & -> & Hlt & H1 & -> & Hl1 & Hn1 & HT1 & H2).
  set (n := length (triangles s)) in *.
  destruct (creationLink_new k sd (Z.to_nat idx) n _ _ Hn1 ltac:(lia))
    as (nt2 & Hn2 & Hp2 & Hps2 & Hid2 & _).
  destruct (slotOf_creationLink_source k sd (Z.to_nat idx) n _ _ HT1 ltac:(lia))
    as (t2 & HT2 & Hsl2 & Hch2 & _).
  set (s2 := withTriangles (creationLink k sd (Z.to_nat idx) n (triangles s1)) s1) in *.
  assert (Hlk : forall i x, triangles s2 !! i = Some x ->
            exists x', triangles (focusAndSelect n s2) !! i = Some x' /\ links x' = links x).
  { intros i x Hx. symmetry in Hx.
    pose proof (focusAndSelect_links n s2) as Hl.
    assert (H : (links <$> triangles (focusAndSelect n s2)) !! i = Some (links x))
      by (rewrite Hl, list_lookup_fmap, <- Hx; reflexivity).
    rewrite list_lookup_fmap in H.
    destruct (triangles (focusAndSelect n s2) !! i) as [x'|]; [|discriminate].
    exists x'. split; [reflexivity|]. cbn in H. congruence. }
  destruct (Hlk n nt2 Hn2) as (nt & Hnt & Hlnt).
  destruct (Hlk (Z.to_nat idx) t2 HT2) as (src & Hsrc & Hlsrc).
  exists nt, src. unfold links in Hlnt, Hlsrc.
  injection Hlnt as -> _ -> -> _ _ _ _ _.
  injection Hlsrc as _ _ _ _ Hch Hnb Hin Hout _.
  split; [exact Hnt|]. rewrite Hid2, Hp2, Hps2. cbn [id parent parentSide newTriangle].
  split; [exact (eq_sym (app_length _ Hinv))|]. split; [reflexivity|]. split; [reflexivity|].
  split; [exact Hsrc|]. split.
  - rewrite Hch, Hch2. cbn [children setChild]. apply array_get_set. exact Hsd.
  - assert (Hs : slotOf k src = slotOf k t2)
      by (destruct k as [|[|k]]; cbn [slotOf]; assumption).
    rewrite Hs, Hsl2. apply array_get_set. exact Hsd.
Qed.


Lemma adjacentVertices_shared (t : Triangle num) (sd : Z) i p ps :
  getSide (newTriangle i (adjacentVertices t sd) p ps) 0 = getSide t sd.
Proof.
  unfold adjacentVertices. destruct (getSide t sd) as [[[x1 y1] x2] y2].
  cbv zeta. destruct (_ >? _)%js; reflexivity.
Qed.

Lemma lookup_links (ts ts' : list (Triangle num)) i x :
  links <$> ts' = links <$> ts -> ts !! i = Some x ->
  exists x', ts' !! i = Some x' /\ links x' = links x.
Proof.
  intros Hl Hx.
  assert (H : (links <$> ts') !! i = Some (links x))
    by (rewrite Hl, list_lookup_fmap, Hx; reflexivity).
  rewrite list_lookup_fmap in H.
  destruct (ts' !! i) as [x'|]; [|discriminate].
  exists x'. split; [reflexivity|]. cbn in H. congruence.
Qed.

(** X17.  [createAdjacentTriangle] of app.js, when the ends of the shared
    side compare equal to themselves within 0.001 (they do unless a
    coordinate is not a finite number): side 0 of the new triangle is the
    shared side, so the reciprocal neighbour link is written on side 0; the
    focus is on the new triangle, the plain arrow on side 0 moves it back
    to the source, and the plain arrow on the original side moves it to the
    new triangle again, creating nothing. *)
Theorem adjacent_navigation_round_trip (s : App num) (idx sd : Z) (t : Triangle num)
    (new : nat) (s' : App num) :
  reachable s -> (0 <= sd)%Z ->
  triangleAt s idx = Some t ->
  sideMatches (getSide t sd) (getSide t sd) = true ->
  createAdjacentTriangle idx sd s = (Some new, s') ->
  (exists nt, triangles s' !! new = Some nt /\
              array_get (neighbors nt) 0 = Some (Z.to_nat idx)) /\
  focusedTriangleIndex s' = Z.of_nat new /\
  focusedTriangleIndex (navigate (Z.of_nat new) 0 s') = idx /\
  focusedTriangleIndex (navigate idx sd (navigate (Z.of_nat new) 0 s')) = Z.of_nat new /\
  triangleCount (navigate idx sd (navigate (Z.of_nat new) 0 s')) = triangleCount s'.
Proof.
  intros Hr Hsd Ht Hm Hc. pose proof (app_invariant_of_reachable s Hr) as Hinv.
  pose proof (creation_invariant 0 idx sd s Hinv) as Hinv'.
  change (creation 0 idx sd s) with (createAdjacentTriangle idx sd s) in Hinv'.
  rewrite Hc in Hinv'. cbn [snd] in Hinv'.
  destruct (creation_lookups 0 idx sd s new s' Hinv Hsd Hc)
    as (t0 & s1 & Ht0 & -> & Hlt & H1 & Hs' & Hl1 & Hn1 & HT1 & H2).
  rewrite Ht in Ht0. injection Ht0 as <-.
  destruct (triangleAt_Some _ _ _ Ht) as (Hidx & _ & _).
  set (n := length (triangles s)) in *. set (self := Z.to_nat idx) in *.
  cbn [creationLink creationVertices] in *.
  assert (Hlink : linkNeighbors sd self n (triangles s1) =
                  alter (setNeighbor 0 self) n
                    (alter (setNeighbor sd n) self (triangles s1))).
  { unfold linkNeighbors.
    rewrite list_lookup_alter_ne by lia. rewrite Hn1.
    rewrite list_lookup_alter_eq, HT1. cbn [fmap option_fmap option_map].
    cbn [matchingSide]. rewrite adjacentVertices_shared.
    change (getSide (setNeighbor sd n (setChild sd n t)) sd) with (getSide t sd).
    rewrite Hm. reflexivity. }
  rewrite Hlink in Hs', H2.
  set (s2 := withTriangles _ s1) in *.
  assert (H2n : triangles s2 !! n
                = Some (setNeighbor 0 self
                          (newTriangle (triangleCount s) (adjacentVertices t sd)
                                       (Some self) sd))).
  { unfold s2. cbn [withTriangles triangles].
    rewrite list_lookup_alter_eq, list_lookup_alter_ne by lia. rewrite Hn1. reflexivity. }
  assert (H2T : triangles s2 !! self = Some (setNeighbor sd n (setChild sd n t))).
  { unfold s2. cbn [withTriangles triangles].
    rewrite list_lookup_alter_ne by lia. rewrite list_lookup_alter_eq, HT1. reflexivity. }
  assert (Hl2 : length (triangles s2) = S n).
  { unfold s2. cbn [withTriangles triangles]. rewrite !length_alter. exact Hl1. }
  destruct (focusAndSelect_invariant n s2 H2 ltac:(lia)) as (_ & Hf' & _ & Hc' & Hl').
  rewrite <- Hs' in Hf', Hc', Hl'.
  assert (Hls' : links <$> triangles s' = links <$> triangles s2)
    by (rewrite Hs'; apply focusAndSelect_links).
  destruct (lookup_links _ _ _ _ Hls' H2n) as (nt & Hnt & Hlnt).
  destruct (lookup_links _ _ _ _ Hls' H2T) as (src & Hsrc & Hlsrc).
  assert (Hnbn : array_get (neighbors nt) 0 = Some self).
  { unfold links in Hlnt. injection Hlnt as _ _ _ _ _ -> _ _ _. reflexivity. }
  assert (Hnbs : array_get (neighbors src) sd = Some n).
  { unfold links in Hlsrc. injection Hlsrc as _ _ _ _ _ -> _ _ _.
    cbn [neighbors setNeighbor setChild]. apply array_get_set. exact Hsd. }
  split; [exists nt; split; assumption|]. split; [exact Hf'|].
  assert (Hat : triangleAt s' (Z.of_nat n) = Some nt) by (rewrite triangleAt_nat; exact Hnt).
  pose proof (navigate_spec s' (Z.of_nat n) 0 nt Hinv' Hat) as Hnav1.
  rewrite Hnbn in Hnav1. destruct Hnav1 as (Hf1 & _ & _ & Hc1 & Hlk1).
  set (s3 := navigate (Z.of_nat n) 0 s') in *.
  assert (Hinv3 : invariant s3) by (apply navigate_invariant; exact Hinv').
  destruct (lookup_links _ _ _ _ Hlk1 Hsrc) as (src3 & Hsrc3 & Hl3).
  assert (Hat3 : triangleAt s3 idx = Some src3).
  { unfold triangleAt. destruct (Z.ltb_spec idx 0); [lia|]. exact Hsrc3. }
  pose proof (navigate_spec s3 idx sd src3 Hinv3 Hat3) as Hnav2.
  assert (Hnb3 : neighbors src3 = neighbors src).
  { unfold links in Hl3. injection Hl3 as _ _ _ _ _ -> _ _ _. reflexivity. }
  rewrite Hnb3, Hnbs in Hnav2. destruct Hnav2 as (Hf2 & _ & _ & Hc2 & _).
  split; [rewrite Hf1; unfold self; lia|]. split; [exact Hf2|].
  rewrite Hc2, Hc1. reflexivity.
Qed.

End WebGLHandler.

(** ** Geometry and colour in exact arithmetic *)

Section IdealFurther.
Local Open Scope R_scope.

Lemma nonzero_side (t : WebGL.Triangle R) (sd : Z) (x1 y1 x2 y2 : R) :
  WebGL.getSide t sd = (x1, y1, x2, y2) ->
  ~ WebGL.zeroLengthSide t sd ->
  x2 - x1 <> 0 \/ y2 - y1 <> 0.
Proof.
  intros Hs Hnz. unfold WebGL.zeroLengthSide in Hnz. rewrite Hs in Hnz.
  destruct (Req_dec x1 x2) as [Ex|Ex]; [|left; lra].
  destruct (Req_dec y1 y2) as [Ey|Ey]; [|right; lra].
  exfalso. apply Hnz. split; assumption.
Qed.

Lemma side_length_facts (dx dy : R) :
  dx <> 0 \/ dy <> 0 ->
  let L := sqrt (dx * dx + dy * dy) in
  0 < L /\ L * L = dx * dx + dy * dy.
Proof.
  intros Hne L. pose proof (sum_sq_pos dx dy Hne) as Hq.
  split; [apply sqrt_lt_R0; exact Hq|apply sqrt_sqrt; lra].
Qed.

(** X18.  [createAdjacentTriangle] of app.js, in exact arithmetic, builds
    the third vertex on the side of the shared edge that is away from the
    centre of the source: with [cross] positive for points on the left of
    the directed side, the new vertex is on the left when the centre is on
    the right, and on the right when the centre is on the left or on the
    line of the side itself. *)
Theorem adjacent_apex_lies_across_the_side (t : WebGL.Triangle R) (sd : Z)
    (x1 y1 x2 y2 : R) :
  WebGL.getSide t sd = (x1, y1, x2, y2) ->
  ~ WebGL.zeroLengthSide t sd ->
  let v := WebGL.adjacentVertices (N := ideal) t sd in
  let towardsCentre :=
    WebGL.cross (N := ideal) x1 y1 x2 y2 (fst (WebGL.center t)) (snd (WebGL.center t)) in
  let towardsApex :=
    WebGL.cross (N := ideal) x1 y1 x2 y2 (WebGL.c4 v) (WebGL.c5 v) in
  (towardsCentre < 0 -> 0 < towardsApex) /\
  (0 <= towardsCentre -> towardsApex < 0).
Proof.
  intros Hs Hnz v c a. subst v c a.
  pose proof (nonzero_side t sd x1 y1 x2 y2 Hs Hnz) as Hne.
  destruct (side_length_facts _ _ Hne) as [HL0 HLL]. cbv zeta in HL0, HLL.
  unfold WebGL.adjacentVertices. rewrite Hs.
  destruct (WebGL.center t) as [cx cy]. cbn [fst snd].
  unfold WebGL.cross. ideal_ops.
  set (L := sqrt ((x2 - x1) * (x2 - x1) + (y2 - y1) * (y2 - y1))) in *.
  set (dx := x2 - x1) in *. set (dy := y2 - y1) in *.
  pose proof sqrt3_sq as H3. assert (Hr3 : 0 < sqrt 3) by (apply sqrt_lt_R0; lra).
  set (r := sqrt 3) in *.
  assert (Hdot : dy / L * (cx - (x1 + x2) / 2) + - dx / L * (cy - (y1 + y2) / 2)
                 = - (dx * (cy - y1) - dy * (cx - x1)) / L).
  { unfold dx, dy. field. lra. }
  rewrite Hdot.
  assert (Hsign : forall z, (0 < - z / L <-> z < 0)).
  { intros z. split; intros H.
    - assert (0 < - z / L * L) by (apply Rmult_lt_0_compat; assumption).
      replace (- z / L * L) with (- z) in H0 by (field; lra). lra.
    - apply Rdiv_lt_0_compat; lra. }
  unfold Rltb. destruct (Rlt_dec 0 _) as [Hd|Hd]; cbn [WebGL.c4 WebGL.c5].
  - apply Hsign in Hd. split; [intros _|lra].
    replace (dx * ((y1 + y2) / 2 + - (- dx / L) * (L * r / 2) - y1) -
             dy * ((x1 + x2) / 2 + - (dy / L) * (L * r / 2) - x1))
      with ((dx * dx + dy * dy) * r / 2) by (unfold dx, dy; field; lra).
    nra.
  - assert (Hc : ~ (dx * (cy - y1) - dy * (cx - x1) < 0)) by (intros H; apply Hd, Hsign, H).
    split; [lra|intros _].
    replace (dx * ((y1 + y2) / 2 + - dx / L * (L * r / 2) - y1) -
             dy * ((x1 + x2) / 2 + dy / L * (L * r / 2) - x1))
      with (- ((dx * dx + dy * dy) * r / 2)) by (unfold dx, dy; field; lra).
    nra.
Qed.


(** X19.  [createOuterTriangle] of app.js, in exact arithmetic, never
    looks at the centre: its third vertex is always on the left of the
    directed side.  It is the vertex of [createAdjacentTriangle] when the
    centre is on the right of the side; when the centre is on the left or
    on the line, as for every side of a counterclockwise triangle, it is
    the mirror image of that vertex through the midpoint of the side, that
    is, on the side of the centre. *)
Theorem outer_apex_is_on_the_left_of_the_side (t : WebGL.Triangle R) (sd : Z)
    (x1 y1 x2 y2 : R) :
  WebGL.getSide t sd = (x1, y1, x2, y2) ->
  ~ WebGL.zeroLengthSide t sd ->
  let outer := WebGL.outerVertices (N := ideal) t sd in
  let adjacent := WebGL.adjacentVertices (N := ideal) t sd in
  let towardsCentre :=
    WebGL.cross (N := ideal) x1 y1 x2 y2 (fst (WebGL.center t)) (snd (WebGL.center t)) in
  0 < WebGL.cross (N := ideal) x1 y1 x2 y2 (WebGL.c4 outer) (WebGL.c5 outer) /\
  (towardsCentre < 0 -> outer = adjacent) /\
  (0 <= towardsCentre ->
   WebGL.c4 outer + WebGL.c4 adjacent = x1 + x2 /\
   WebGL.c5 outer + WebGL.c5 adjacent = y1 + y2).
Proof.
  intros Hs Hnz outer adjacent c. subst outer adjacent c.
  pose proof (nonzero_side t sd x1 y1 x2 y2 Hs Hnz) as Hne.
  destruct (side_length_facts _ _ Hne) as [HL0 HLL]. cbv zeta in HL0, HLL.
  unfold WebGL.adjacentVertices, WebGL.outerVertices. rewrite Hs.
  destruct (WebGL.center t) as [cx cy]. cbn [fst snd].
  unfold WebGL.cross. ideal_ops. cbn [fst snd].
  replace (- (y2 - y1) * - (y2 - y1) + (x2 - x1) * (x2 - x1))
    with ((x2 - x1) * (x2 - x1) + (y2 - y1) * (y2 - y1)) by ring.
  set (L := sqrt ((x2 - x1) * (x2 - x1) + (y2 - y1) * (y2 - y1))) in *.
  set (dx := x2 - x1) in *. set (dy := y2 - y1) in *.
  pose proof sqrt3_sq as H3. assert (Hr3 : 0 < sqrt 3) by (apply sqrt_lt_R0; lra).
  set (r := sqrt 3) in *.
  assert (Hdot : dy / L * (cx - (x1 + x2) / 2) + - dx / L * (cy - (y1 + y2) / 2)
                 = - (dx * (cy - y1) - dy * (cx - x1)) / L).
  { unfold dx, dy. field. lra. }
  rewrite Hdot.
  assert (Hsign : forall z, (0 < - z / L <-> z < 0)).
  { intros z. split; intros H.
    - assert (0 < - z / L * L) by (apply Rmult_lt_0_compat; assumption).
      replace (- z / L * L) with (- z) in H0 by (field; lra). lra.
    - apply Rdiv_lt_0_compat; lra. }
  cbn [WebGL.c4 WebGL.c5].
  split; [|split].
  - replace (dx * ((y1 + y2) / 2 + dx / L * (L * r / 2) - y1) -
             dy * ((x1 + x2) / 2 + - dy / L * (L * r / 2) - x1))
      with ((dx * dx + dy * dy) * r / 2) by (unfold dx, dy; field; lra).
    nra.
  - intros Hc. apply Hsign in Hc. rewrite (Rltb_true _ _ Hc).
    cbn [WebGL.c4 WebGL.c5]. f_equal; field; lra.
  - intros Hc. rewrite Rltb_false.
    2:{ apply Rnot_lt_le. intros H. apply Hsign in H. lra. }
    cbn [WebGL.c4 WebGL.c5]. split; field; lra.
Qed.

(** X20.  [makeEquilateralTriangle] in exact arithmetic, on an edge of
    non-zero length: the result keeps the edge as its first two vertices
    and is equilateral; its third vertex is on the left of the directed
    edge exactly when [flipped] is false, and the two choices of [flipped]
    give mirror images through the midpoint of the edge. *)
Theorem makeEquilateralTriangle_is_equilateral (x1 y1 x2 y2 eps : R) (flipped : bool) :
  0 < eps ->
  x2 - x1 <> 0 \/ y2 - y1 <> 0 ->
  let v := WebGL.makeEquilateralTriangle (N := ideal) (x1, y1, x2, y2) flipped in
  let w := WebGL.makeEquilateralTriangle (N := ideal) (x1, y1, x2, y2) (negb flipped) in
  WebGL.equilateralWithin (N := ideal) eps v = true /\
  (WebGL.c0 v, WebGL.c1 v, WebGL.c2 v, WebGL.c3 v) = (x1, y1, x2, y2) /\
  WebGL.c4 v + WebGL.c4 w = x1 + x2 /\
  WebGL.c5 v + WebGL.c5 w = y1 + y2 /\
  (0 < WebGL.cross (N := ideal) x1 y1 x2 y2 (WebGL.c4 v) (WebGL.c5 v) <-> flipped = false).
Proof.
  intros Heps Hne v w. subst v w.
  destruct (side_length_facts _ _ Hne) as [HL0 HLL]. cbv zeta in HL0, HLL.
  pose proof (webgl_apex_equilateral x1 y1 x2 y2 eps (negb flipped) Heps Hne) as He.
  cbv zeta in He.
  unfold WebGL.makeEquilateralTriangle, WebGL.cross. ideal_ops.
  set (L := sqrt ((x2 - x1) * (x2 - x1) + (y2 - y1) * (y2 - y1))) in *.
  pose proof sqrt3_sq as H3. assert (Hr3 : 0 < sqrt 3) by (apply sqrt_lt_R0; lra).
  set (r := sqrt 3) in *.
  split; [|split; [destruct flipped; reflexivity|]].
  - rewrite <- He. f_equal. destruct flipped; cbn [negb]; f_equal; field; lra.
  - destruct flipped; cbn [negb WebGL.c4 WebGL.c5].
    + split; [field; lra|]. split; [field; lra|].
      replace ((x2 - x1) * ((y1 + y2) / 2 + - ((x2 - x1) / L) * (L * r / 2) - y1) -
               (y2 - y1) * ((x1 + x2) / 2 + - - ((y2 - y1) / L) * (L * r / 2) - x1))
        with (- (((x2 - x1) * (x2 - x1) + (y2 - y1) * (y2 - y1)) * r / 2))
        by (field; lra).
      split; [intros H; exfalso; nra|discriminate].
    + split; [field; lra|]. split; [field; lra|].
      replace ((x2 - x1) * ((y1 + y2) / 2 + (x2 - x1) / L * (L * r / 2) - y1) -
               (y2 - y1) * ((x1 + x2) / 2 + - ((y2 - y1) / L) * (L * r / 2) - x1))
        with (((x2 - x1) * (x2 - x1) + (y2 - y1) * (y2 - y1)) * r / 2)
        by (field; lra).
      split; [reflexivity|intros _; nra].
Qed.


Lemma hue2rgb_between (p q t : R) :
  p <= q -> -1 <= t <= 2 ->
  p <= WebGL.hue2rgb (N := ideal) p q t <= q.
Proof.
  intros Hpq Ht. unfold WebGL.hue2rgb. ideal_ops. unfold Rltb.
  destruct (Rlt_dec t 0) as [H0|H0].
  - destruct (Rlt_dec 1 (t + 1)); [lra|].
    destruct (Rlt_dec (t + 1) (1 / 6)); [nra|].
    destruct (Rlt_dec (t + 1) (1 / 2)); [lra|].
    destruct (Rlt_dec (t + 1) (2 / 3)); [nra|lra].
  - destruct (Rlt_dec 1 t) as [H1|H1].
    + destruct (Rlt_dec (t - 1) (1 / 6)); [nra|].
      destruct (Rlt_dec (t - 1) (1 / 2)); [lra|].
      destruct (Rlt_dec (t - 1) (2 / 3)); [nra|lra].
    + destruct (Rlt_dec t (1 / 6)); [nra|].
      destruct (Rlt_dec t (1 / 2)); [lra|].
      destruct (Rlt_dec t (2 / 3)); [nra|lra].
Qed.

(** X21.  [hslToRgb] in exact arithmetic: for saturation and lightness in
    [0, 1] and a hue between -2/3 and 5/3 the three components are in
    [0, 1]. *)
Theorem hslToRgb_stays_in_the_unit_range (h s l : R) :
  0 <= s <= 1 -> 0 <= l <= 1 -> -2 / 3 <= h <= 5 / 3 ->
  let '(r, g, b) := WebGL.hslToRgb (N := ideal) h s l in
  0 <= r <= 1 /\ 0 <= g <= 1 /\ 0 <= b <= 1.
Proof.
  intros Hs Hl Hh. unfold WebGL.hslToRgb.
  destruct (WebGL.isZero s); [lra|].
  set (q := if (l <? dec 1 2)%js then _ else _).
  set (p := (num_of 2 * l - q)%js).
  assert (Hq : l <= q <= 1 /\ 0 <= 2 * l - q).
  { subst q. ideal_ops. unfold Rltb. destruct (Rlt_dec l (1 / 2)); nra. }
  assert (Hp : p = 2 * l - q) by reflexivity.
  assert (Hpq : p <= q) by lra.
  pose proof (hue2rgb_between p q (h + 1 / 3) Hpq ltac:(lra)) as Hr.
  pose proof (hue2rgb_between p q h Hpq ltac:(lra)) as Hg.
  pose proof (hue2rgb_between p q (h - 1 / 3) Hpq ltac:(lra)) as Hb.
  change (h + num_of 1 / num_of 3)%js with (h + 1 / 3).
  change (h - num_of 1 / num_of 3)%js with (h - 1 / 3).
  lra.
Qed.

(** X22.  For hues below -2/3 [hslToRgb] leaves the unit range, in exact
    arithmetic:
    with the saturation 0.7 and lightness 0.5 that the [Triangle]
    constructor passes, every hue between -1 and -0.71 (the remainder
    [% 1.0] of a negative number is negative) gives a negative blue
    component. *)
Theorem hslToRgb_leaves_the_unit_range (h : R) :
  -1 < h < - 71 / 100 ->
  let '(r, g, b) := WebGL.hslToRgb (N := ideal) h (dec 7 10) (dec 1 2) in
  b < 0.
Proof.
  intros Hh. unfold WebGL.hslToRgb, WebGL.isZero, WebGL.hue2rgb. ideal_ops.
  unfold Rfalsy. destruct (Req_dec_T (7 / 10) 0) as [E|_]; [lra|]. cbn [andb].
  unfold Rltb.
  destruct (Rlt_dec (1 / 2) (1 / 2)); [lra|].
  destruct (Rlt_dec (h - 1 / 3) 0); [|lra].
  destruct (Rlt_dec 1 (h - 1 / 3 + 1)); [lra|].
  destruct (Rlt_dec (h - 1 / 3 + 1) (1 / 6)); [|lra].
  lra.
Qed.

(** X23.  [getAdjacentTriangleVertices] in exact arithmetic: the result
    keeps the two ends of the side in their order, and its third vertex is
    the reflection of the opposite vertex through [getSideCenter] of the
    side; reflecting it again gives the opposite vertex back, and its
    distances to the two ends are those of the opposite vertex, crosswise,
    so the triangle returned is congruent to the source. *)
Theorem adjacent_vertex_is_a_point_reflection (t : Three.Triangle R) (sd : nat)
    (a b c : Three.Vector3 R) :
  Three.vertices t = [a; b; c] ->
  (sd < 3)%nat ->
  exists s1 s2 o n m,
    Three.getAdjacentTriangleVertices (N := ideal) t sd = Some [s1; s2; n] /\
    Three.vertices t !! sd = Some s1 /\
    Three.vertices t !! ((sd + 1) mod 3)%nat = Some s2 /\
    Three.vertices t !! ((sd + 2) mod 3)%nat = Some o /\
    Three.getSideCenter (N := ideal) t sd = Some m /\
    n = Three.reflectThrough (N := ideal) o m /\
    Three.reflectThrough (N := ideal) n m = o /\
    Three.distance (N := ideal) s1 n = Three.distance (N := ideal) s2 o /\
    Three.distance (N := ideal) s2 n = Three.distance (N := ideal) s1 o.
Proof.
  intros Hv Hsd.
  unfold Three.getAdjacentTriangleVertices, Three.getSideCenter. rewrite Hv.
  destruct a as [ax ay az], b as [bx b_y bz], c as [cx cy cz].
  assert (Hvec : forall x y z x' y' z' : R, x = x' -> y = y' -> z = z' ->
            Three.mkVector3 x y z = Three.mkVector3 x' y' z') by (intros; subst; reflexivity).
  destruct sd as [|[|[|sd]]]; [| | |lia]; cbn;
    do 5 eexists; (split; [reflexivity|]); (split; [reflexivity|]);
    (split; [reflexivity|]); (split; [reflexivity|]); (split; [reflexivity|]);
    unfold Three.reflectThrough, Three.distance, Three.length3, Three.addVectors,
      Three.subVectors, Three.multiplyScalar; cbn; ideal_ops;
    (split; [apply Hvec; field|]); (split; [apply Hvec; field|]);
    split; f_equal; field.
Qed.

(** X24.  [verticesEqual] in exact arithmetic is reflexive and symmetric,
    holds only between points less than 0.0002 apart, and is not
    transitive. *)
Theorem verticesEqual_is_a_tolerance_relation :
  (forall v : Three.Vector3 R, Three.verticesEqual (N := ideal) v v = true) /\
  (forall v w : Three.Vector3 R,
     Three.verticesEqual (N := ideal) v w = Three.verticesEqual (N := ideal) w v) /\
  (forall v w : Three.Vector3 R,
     Three.verticesEqual (N := ideal) v w = true ->
     Three.distance (N := ideal) v w < 2 / 10000) /\
  exists u v w : Three.Vector3 R,
    Three.verticesEqual (N := ideal) u v = true /\
    Three.verticesEqual (N := ideal) v w = true /\
    Three.verticesEqual (N := ideal) u w = false.
Proof.
  split; [|split; [|split]].
  - intros [x y z]. unfold Three.verticesEqual, Three.epsilon. cbn. ideal_ops.
    replace (x - x) with 0 by ring. replace (y - y) with 0 by ring.
    replace (z - z) with 0 by ring.
    rewrite Rabs_R0, (Rltb_true 0 (1 / 10000)) by lra. reflexivity.
  - intros [x y z] [x' y' z']. unfold Three.verticesEqual. cbn. ideal_ops.
    rewrite (Rabs_minus_sym x x'), (Rabs_minus_sym y y'), (Rabs_minus_sym z z').
    reflexivity.
  - intros [x y z] [x' y' z']. unfold Three.verticesEqual, Three.epsilon, Three.distance,
      Three.length3, Three.subVectors. cbn. ideal_ops. unfold Rltb.
    destruct (Rlt_dec (Rabs (x - x')) (1 / 10000)) as [Hx|]; [|discriminate].
    destruct (Rlt_dec (Rabs (y - y')) (1 / 10000)) as [Hy|]; [|discriminate].
    destruct (Rlt_dec (Rabs (z - z')) (1 / 10000)) as [Hz|]; [|discriminate].
    intros _. apply Rabs_def2 in Hx, Hy, Hz.
    apply Rlt_le_trans with (sqrt (2 / 10000 * (2 / 10000)));
      [|rewrite sqrt_square; lra].
    apply sqrt_lt_1_alt.
    assert (Hsq : forall e d : R, - e < d < e -> 0 <= d * d < e * e).
    { intros e d Hd. split; [nra|].
      assert (H : 0 < (e - d) * (e + d)) by (apply Rmult_lt_0_compat; lra).
      replace ((e - d) * (e + d)) with (e * e - d * d) in H by ring. lra. }
    pose proof (Hsq (1 / 10000) (x' - x) ltac:(lra)).
    pose proof (Hsq (1 / 10000) (y' - y) ltac:(lra)).
    pose proof (Hsq (1 / 10000) (z' - z) ltac:(lra)).
    lra.
  - exists (Three.mkVector3 0 0 0), (Three.mkVector3 (6 / 100000) 0 0),
           (Three.mkVector3 (12 / 100000) 0 0).
    unfold Three.verticesEqual, Three.epsilon. cbn. ideal_ops.
    replace (0 - 0) with 0 by ring. rewrite Rabs_R0.
    rewrite (Rltb_true 0 (1 / 10000)) by lra.
    replace (0 - 6 / 100000) with (- (6 / 100000)) by ring.
    replace (6 / 100000 - 12 / 100000) with (- (6 / 100000)) by lra.
    replace (0 - 12 / 100000) with (- (12 / 100000)) by ring.
    rewrite !Rabs_Ropp, !Rabs_right by lra.
    rewrite (Rltb_true (6 / 100000)) by lra.
    rewrite (Rltb_false (12 / 100000) (1 / 10000)) by lra.
    repeat split.
Qed.

(** *** Instances *)

(** The right triangle (0,0), (1,0), (0,1), counterclockwise, and its side 0. *)
Lemma adjacent_apex_lies_across_the_side_witness :
  let t := WebGL.newTriangle (N := ideal) 0 (WebGL.mkVertices 0 0 1 0 0 1) None (-1) in
  let v := WebGL.adjacentVertices (N := ideal) t 0 in
  WebGL.cross (N := ideal) 0 0 1 0 (WebGL.c4 v) (WebGL.c5 v) < 0.
Proof.
  intros t v.
  assert (Hs : WebGL.getSide t 0 = (0, 0, 1, 0)) by reflexivity.
  assert (Hnz : ~ WebGL.zeroLengthSide t 0).
  { unfold WebGL.zeroLengthSide. rewrite Hs. intros [Hx _]. lra. }
  apply (proj2 (adjacent_apex_lies_across_the_side t 0 0 0 1 0 Hs Hnz)).
  unfold WebGL.cross, t. cbn. ideal_ops. lra.
Defined.

Lemma outer_apex_is_on_the_left_of_the_side_witness :
  let t := WebGL.newTriangle (N := ideal) 0 (WebGL.mkVertices 0 0 1 0 0 1) None (-1) in
  let v := WebGL.outerVertices (N := ideal) t 0 in
  0 < WebGL.cross (N := ideal) 0 0 1 0 (WebGL.c4 v) (WebGL.c5 v).
Proof.
  intros t v.
  assert (Hs : WebGL.getSide t 0 = (0, 0, 1, 0)) by reflexivity.
  assert (Hnz : ~ WebGL.zeroLengthSide t 0).
  { unfold WebGL.zeroLengthSide. rewrite Hs. intros [Hx _]. lra. }
  exact (proj1 (outer_apex_is_on_the_left_of_the_side t 0 0 0 1 0 Hs Hnz)).
Defined.

Lemma makeEquilateralTriangle_is_equilateral_witness :
  WebGL.equilateralWithin (N := ideal) (1 / 1000)
    (WebGL.makeEquilateralTriangle (N := ideal) (0, 0, 1, 0) true) = true.
Proof.
  assert (Heps : 0 < 1 / 1000) by lra.
  assert (Hne : 1 - 0 <> 0 \/ 0 - 0 <> 0) by (left; lra).
  exact (proj1 (makeEquilateralTriangle_is_equilateral 0 0 1 0 (1 / 1000) true Heps Hne)).
Defined.

Lemma hslToRgb_stays_in_the_unit_range_witness :
  let '(r, g, b) := WebGL.hslToRgb (N := ideal) (1 / 4) (7 / 10) (1 / 2) in
  0 <= r <= 1 /\ 0 <= g <= 1 /\ 0 <= b <= 1.
Proof.
  apply hslToRgb_stays_in_the_unit_range; lra.
Defined.

Lemma hslToRgb_leaves_the_unit_range_witness :
  let '(r, g, b) := WebGL.hslToRgb (N := ideal) (- 8 / 10) (dec 7 10) (dec 1 2) in
  b < 0.
Proof.
  apply hslToRgb_leaves_the_unit_range. lra.
Defined.

Lemma adjacent_vertex_is_a_point_reflection_witness :
  let a := Three.mkVector3 0 0 0 in
  let b := Three.mkVector3 1 0 0 in
  let c := Three.mkVector3 0 1 0 in
  let t := Three.mkTriangle [a; b; c] None None ∅ ∅ ∅ ∅ false false a in
  exists n, Three.getAdjacentTriangleVertices (N := ideal) t 1 = Some [b; c; n] /\
            Three.reflectThrough (N := ideal) n (Three.midpointOf b c) = a.
Proof.
  intros a b c t.
  destruct (adjacent_vertex_is_a_point_reflection t 1 a b c eq_refl ltac:(lia))
    as (s1 & s2 & o & n & m & Hv & H1 & H2 & Ho & Hm & Hn & Hr & _).
  cbn in H1, H2, Ho. injection H1 as <-. injection H2 as <-. injection Ho as <-.
  exists n. split; [exact Hv|].
  rewrite <- Hr. f_equal. unfold Three.getSideCenter in Hm. cbn in Hm.
  injection Hm as <-. unfold Three.midpointOf, Three.multiplyScalar, Three.addVectors.
  cbn. ideal_ops. f_equal; field.
Defined.

End IdealFurther.

(** ** Runs of the further properties in binary64 *)

Module Binary64Further.

(** The constructed manager, and the manager after Shift+arrow on it. *)
Lemma reachable_manager_invariant_witness :
  let s := Three.seedManager (N := binary64) in
  let s' := default Three.emptyManager (snd <$> Three.handle Three.CallSelect 1 s) in
  Three.reachable s' /\ Three.invariant s'.
Proof.
  intros s s'.
  assert (Hs : Three.reachable s) by (apply Three.reachable_new; vm_compute; reflexivity).
  assert (Hh : Three.handle Three.CallSelect 1 s = Some (tt, s')) by (vm_compute; reflexivity).
  assert (Hr : Three.reachable s')
    by exact (Three.reachable_call Three.CallSelect 1 s s' Hs ltac:(lia) Hh).
  split; [exact Hr|exact (reachable_manager_invariant s' Hr)].
Defined.

Lemma handler_never_throws_witness :
  exists s', Three.handle Three.CallCreateOuter 2 (Three.seedManager (N := binary64))
               = Some (tt, s') /\ Three.reachable s'.
Proof.
  assert (Hs : Three.reachable (Three.seedManager (N := binary64)))
    by (apply Three.reachable_new; vm_compute; reflexivity).
  exact (handler_never_throws Three.CallCreateOuter 2 _ Hs ltac:(lia)).
Defined.

Lemma derivation_is_reused_witness :
  let s := Three.seedManager (N := binary64) in
  let s1 := default Three.emptyManager (snd <$> Three.createInnerTriangle 0 0 s) in
  Three.createInnerTriangle 0 0 s = Some (1%nat, s1) /\
  exists s2, Three.createInnerTriangle 0 0 s1 = Some (1%nat, s2) /\
             length (Three.triangles s2) = 2%nat /\
             Three.focusedTriangle s2 = Some 1%nat.
Proof.
  intros s s1.
  assert (Hc : Three.derive 1 0 0 s = Some (1%nat, s1)) by (vm_compute; reflexivity).
  split; [exact Hc|].
  destruct (derivation_is_reused 1 s 0 0 1 s1 Hc) as (s2 & H2 & Hl & _ & _ & Hf).
  exists s2. split; [exact H2|]. split; [|exact Hf].
  rewrite Hl. vm_compute. reflexivity.
Defined.

Lemma fresh_derivation_records_its_origin_witness :
  let s := Three.seedManager (N := binary64) in
  let s' := default Three.emptyManager (snd <$> Three.createOuterTriangle 0 2 s) in
  Three.createOuterTriangle 0 2 s = Some (1%nat, s') /\
  exists obj, Three.triangles s' !! 1%nat = Some obj /\
              Three.parent obj = Some 0%nat /\ Three.side obj = Some 2%nat.
Proof.
  intros s s'.
  assert (Hc : Three.derive 2 0 2 s = Some (1%nat, s')) by (vm_compute; reflexivity).
  split; [exact Hc|].
  let v := eval vm_compute in (Three.triangles s !! 0%nat) in
  match v with
  | Some ?t =>
      assert (Ht : Three.triangles s !! 0%nat = Some t) by (vm_compute; reflexivity);
      assert (Hn : Three.slotOf 2 t !! 2%nat = None) by (vm_compute; reflexivity);
      destruct (fresh_derivation_records_its_origin 2 s 0 t 2 1 s' Ht Hn Hc)
        as (_ & _ & (obj & Ho & Hp & Hsd & _) & _)
  end.
  exists obj. split; [exact Ho|]. split; assumption.
Defined.

Lemma adjacent_triangle_links_back_on_side_0_witness :
  exists s' nt s'',
    Three.createAdjacentTriangle 0 1 (Three.seedManager (N := binary64))
      = Some (1%nat, s') /\
    Three.triangles s' !! 1%nat = Some nt /\
    Three.neighbors nt !! 0%nat = Some 0%nat /\
    Three.moveToAdjacentTriangle 0 s' = Some (Some 0%nat, s'') /\
    Three.focusedTriangle s'' = Some 0%nat.
Proof.
  set (s := Three.seedManager (N := binary64)).
  let v := eval vm_compute in (Three.triangles s !! 0%nat) in
  match v with
  | Some ?t =>
      let vs := eval vm_compute in (Three.vertices t) in
      match vs with
      | [?a; ?b; ?c] =>
          assert (Ht : Three.triangles s !! 0%nat = Some t) by (vm_compute; reflexivity);
          assert (H3 : length (Three.vertices t) = 3%nat) by (vm_compute; reflexivity);
          assert (H1 : Three.vertices t !! 1%nat = Some b) by (vm_compute; reflexivity);
          assert (H2 : Three.vertices t !! ((1 + 1) mod 3)%nat = Some c)
            by (vm_compute; reflexivity);
          assert (Ho : Three.vertices t !! ((1 + 2) mod 3)%nat = Some a)
            by (vm_compute; reflexivity);
          assert (Hn : Three.neighbors t !! 1%nat = None) by (vm_compute; reflexivity);
          assert (Hr1 : Three.verticesEqual b b = true) by (vm_compute; reflexivity);
          assert (Hr2 : Three.verticesEqual c c = true) by (vm_compute; reflexivity);
          assert (Ho1 : Three.verticesEqual a b = false) by (vm_compute; reflexivity);
          assert (Ho2 : Three.verticesEqual a c = false) by (vm_compute; reflexivity);
          destruct (adjacent_triangle_links_back_on_side_0 s 0 t 1 b c a
                      Ht H3 H1 H2 Ho Hn Hr1 Hr2 Ho1 Ho2)
            as (s' & nt & s'' & Hc & Hnt & Hnb & Hm & Hf & _)
      end
  end.
  exists s', nt, s''. repeat split; assumption.
Defined.

Lemma handler_refocus_is_redundant_witness :
  Three.handlerCreateInnerSubTriangle 1 (Three.seedManager (N := binary64)) =
    Three.bind (Three.createInnerTriangle 0 1) (fun _ => Three.ret tt)
               (Three.seedManager (N := binary64)).
Proof.
  assert (Hf : Three.focusedTriangle (Three.seedManager (N := binary64)) = Some 0%nat)
    by (vm_compute; reflexivity).
  exact (proj1 (proj2 (handler_refocus_is_redundant _ 0 1 Hf))).
Defined.


(** The constructed manager with its one triangle selected. *)
Lemma selected_seed_is_consistent :
  Three.selectionConsistent
    (default Three.emptyManager
       (snd <$> Three.toggleTriangleSelection 0 (Three.seedManager (N := binary64)))).
Proof.
  split.
  - vm_compute. apply NoDup_singleton.
  - intros [|i] t Hi; vm_compute in Hi; [|discriminate].
    injection Hi as <-. split; [intros _|intros _; reflexivity].
    vm_compute. apply list_elem_of_here.
Qed.

Lemma toggle_flips_membership_witness :
  let s := default Three.emptyManager
             (snd <$> Three.toggleTriangleSelection 0 (Three.seedManager (N := binary64))) in
  Three.selectionConsistent s /\
  exists s', Three.toggleTriangleSelection 0 s = Some (tt, s') /\
             Three.selectionConsistent s' /\
             (0%nat ∈ Three.selectedTriangles s' <-> 0%nat ∉ Three.selectedTriangles s).
Proof.
  intros s. split; [exact selected_seed_is_consistent|].
  destruct (toggle_flips_membership s 0 selected_seed_is_consistent)
    as (s' & Ht & Hc & Hr & _).
  exists s'. split; [exact Ht|]. split; [exact Hc|exact Hr].
Defined.

Lemma toggle_twice_restores_witness :
  let s := default Three.emptyManager
             (snd <$> Three.toggleTriangleSelection 0 (Three.seedManager (N := binary64))) in
  exists s1 s2, Three.toggleTriangleSelection 0 s = Some (tt, s1) /\
                Three.toggleTriangleSelection 0 s1 = Some (tt, s2) /\
                Three.triangles s2 = Three.triangles s.
Proof.
  intros s.
  destruct (toggle_twice_restores s 0 selected_seed_is_consistent)
    as (s1 & s2 & H1 & H2 & Ht & _).
  exists s1, s2. split; [exact H1|]. split; [exact H2|exact Ht].
Defined.

Lemma clearSelection_clears_witness :
  let s := default Three.emptyManager
             (snd <$> Three.toggleTriangleSelection 0 (Three.seedManager (N := binary64))) in
  Three.selectedTriangles s = [0%nat] /\
  exists s', Three.clearSelection s = Some (tt, s') /\
             Three.selectedTriangles s' = [] /\
             forall i t, Three.triangles s' !! i = Some t -> Three.selected t = false.
Proof.
  intros s. split; [vm_compute; reflexivity|].
  destruct (clearSelection_clears s selected_seed_is_consistent)
    as (s' & Hc & Hs & Hf & _).
  exists s'. split; [exact Hc|]. split; [exact Hs|exact Hf].
Defined.

(** The application after Cmd+arrow on side 0 of the seed. *)
Lemma reachable_app_invariant_witness :
  let s := WebGL.onArrowKey true false false 0 (WebGL.startApp (N := binary64)) in
  WebGL.reachable s /\ WebGL.invariant s /\ WebGL.triangleCount s = 2%Z.
Proof.
  intros s.
  assert (Hr : WebGL.reachable s)
    by exact (WebGL.reachable_arrow true false false 0 _ WebGL.reachable_start).
  split; [exact Hr|]. split; [exact (proj1 (reachable_app_invariant s Hr))|].
  vm_compute. reflexivity.
Defined.

Lemma handler_acts_on_the_focused_triangle_witness :
  let s := WebGL.onArrowKey true false false 0 (WebGL.startApp (N := binary64)) in
  WebGL.handlerIndex s = 1%Z /\
  exists t, WebGL.triangleAt s (WebGL.handlerIndex s) = Some t.
Proof.
  intros s.
  assert (Hr : WebGL.reachable s)
    by exact (WebGL.reachable_arrow true false false 0 _ WebGL.reachable_start).
  destruct (handler_acts_on_the_focused_triangle s Hr) as (Hh & t & Ht & _).
  split; [rewrite Hh; vm_compute; reflexivity|]. exists t. exact Ht.
Defined.

Lemma arrow_navigation_moves_focus_and_selection_witness :
  let s := WebGL.onArrowKey true false false 0 (WebGL.startApp (N := binary64)) in
  WebGL.focusedTriangleIndex s = 1%Z /\
  WebGL.focusedTriangleIndex (WebGL.navigate 1 0 s) = 0%Z /\
  WebGL.selectedSet (WebGL.navigate 1 0 s) = [0%nat].
Proof.
  intros s.
  assert (Hr : WebGL.reachable s)
    by exact (WebGL.reachable_arrow true false false 0 _ WebGL.reachable_start).
  split; [vm_compute; reflexivity|].
  let v := eval vm_compute in (WebGL.triangleAt s 1) in
  match v with
  | Some ?t =>
      assert (Ht : WebGL.triangleAt s 1 = Some t) by (vm_compute; reflexivity);
      pose proof (arrow_navigation_moves_focus_and_selection s 1 0 t Hr Ht) as W
  end.
  cbn [WebGL.neighbors] in W.
  match type of W with
  | match ?o with _ => _ end =>
      assert (Hn : o = Some 0%nat) by (vm_compute; reflexivity); rewrite Hn in W
  end.
  destruct W as (Hf & _ & Hs & _). split; [exact Hf|exact Hs].
Defined.

Lemma creation_records_its_origin_witness :
  let s := WebGL.startApp (N := binary64) in
  let s' := snd (WebGL.createInnerTriangle 0 2 s) in
  exists nt src,
    WebGL.triangles s' !! 1%nat = Some nt /\
    WebGL.parent nt = Some 0%nat /\ WebGL.parentSide nt = 2%Z /\
    WebGL.triangles s' !! 0%nat = Some src /\
    WebGL.array_get (WebGL.innerTriangles src) 2 = Some 1%nat.
Proof.
  intros s s'.
  assert (Hc : WebGL.creation 1 0 2 s = (Some 1%nat, s')) by (vm_compute; reflexivity).
  destruct (creation_records_its_origin 1 0 2 s 1 s' WebGL.reachable_start ltac:(lia) Hc)
    as (nt & src & Hn & _ & Hp & Hps & Hsrc & _ & Hsl).
  exists nt, src. repeat split; assumption.
Defined.

Lemma adjacent_navigation_round_trip_witness :
  let s := WebGL.startApp (N := binary64) in
  let s' := snd (WebGL.createAdjacentTriangle 0 1 s) in
  WebGL.focusedTriangleIndex s' = 1%Z /\
  WebGL.focusedTriangleIndex (WebGL.navigate 1 0 s') = 0%Z /\
  WebGL.focusedTriangleIndex (WebGL.navigate 0 1 (WebGL.navigate 1 0 s')) = 1%Z.
Proof.
  intros s s'.
  assert (Hc : WebGL.createAdjacentTriangle 0 1 s = (Some 1%nat, s'))
    by (vm_compute; reflexivity).
  let v := eval vm_compute in (WebGL.triangleAt s 0) in
  match v with
  | Some ?t =>
      assert (Ht : WebGL.triangleAt s 0 = Some t) by (vm_compute; reflexivity);
      assert (Hm : WebGL.sideMatches (WebGL.getSide t 1) (WebGL.getSide t 1) = true)
        by (vm_compute; reflexivity);
      destruct (adjacent_navigation_round_trip s 0 1 t 1 s' WebGL.reachable_start
                  ltac:(lia) Ht Hm Hc) as (_ & Hf & H1 & H2 & _)
  end.
  split; [exact Hf|]. split; [exact H1|exact H2].
Defined.

Lemma toggleSelectTriangle_twice_witness :
  let s := WebGL.onArrowKey true false false 0 (WebGL.startApp (N := binary64)) in
  let s2 := WebGL.toggleSelectTriangle 1 (WebGL.toggleSelectTriangle 1 s) in
  WebGL.triangles s2 = WebGL.triangles s /\ WebGL.selectedTriangleIndex s2 = 1%Z.
Proof.
  intros s s2.
  assert (Hwf : WebGL.wellFormed s) by (vm_compute; reflexivity).
  destruct (toggleSelectTriangle_twice 1 s Hwf) as (Ht & _ & _ & _ & Hs).
  split; [exact Ht|]. unfold s2.
  let v := eval vm_compute in (WebGL.triangleAt s 1) in
  match v with
  | Some ?t =>
      assert (Hin : WebGL.inRange s 1 = true) by (vm_compute; reflexivity);
      assert (Hat : WebGL.triangleAt s 1 = Some t) by (vm_compute; reflexivity);
      rewrite (Hs t Hin Hat)
  end.
  vm_compute. reflexivity.
Defined.

Lemma test_key_appends_an_unlinked_triangle_witness :
  let s := WebGL.startApp (N := binary64) in
  WebGL.triangleCount (WebGL.onTestKey s) = 2%Z /\
  WebGL.focusedTriangleIndex (WebGL.onTestKey s) = 0%Z /\
  WebGL.selectedTriangleIndex (WebGL.onTestKey s) = (-1)%Z.
Proof.
  intros s.
  assert (Hroom : (WebGL.triangleCount s < WebGL.MAX_TRIANGLES)%Z) by (vm_compute; reflexivity).
  destruct (proj1 (test_key_appends_an_unlinked_triangle s WebGL.reachable_start) Hroom)
    as (_ & Hc & Hf & Hs).
  rewrite Hc, Hf, Hs. repeat split.
Defined.

End Binary64Further.
